(** * Particle backgrounds of a10citylabs.github.io

    A shallow embedding of the three WebGL background effects of the site
    (the baseline polkadots, the festive polkadots and the triangles), and
    the properties of their particle collection, fade curve and page
    lifecycle.

    Conventions of the embedding.

    - A JavaScript number is idealised as a real number: [+], [-], [*], [/]
      are the exact operations of [R], [Math.sin] is [sin] and [Math.PI] is
      [PI].  Rounding of IEEE doubles is not modelled; the ranges stated of
      computed numbers include their ends, which rounding can reach.  The
      width and the height of a canvas are integers, as the DOM keeps them.
    - [Math.random()] and [performance.now()] are inputs of the program.  The
      [World] holds, for each of them, the sequence of values the successive
      calls return and the number of calls made so far.
    - The page (children of [document.body], [resize] listeners of
      [window], pending animation frames, console, uncaught exceptions,
      size of the window) is part of the [World], and so is what the
      browser answers: whether it gives a WebGL context, whether each
      shader compiles, whether the program links.
    - A method of the class [PolkadotBackground] is a function from the
      instance ([this]) to a computation [M] that returns the instance after
      the call; a method that an exception can leave returns a
      [Completion]. *)

From Stdlib Require Import Reals Lra Lia ZArith Bool String List.
Import ListNotations.
Open Scope R_scope.

Set Implicit Arguments.

(** ** Numbers *)

(** [a < b] as the boolean a JavaScript condition tests. *)
Definition ltb (a b : R) : bool := if Rlt_dec a b then true else false.

(** [a > b]. *)
Definition gtb (a b : R) : bool := ltb b a.

(** [Math.floor]. *)
Definition Math_floor (r : R) : Z := Int_part r.

(** [a || b] on numbers: [b] when [a] is zero. *)
Definition or_default (a b : R) : R := if Req_dec_T a 0 then b else a.

(** The integral part of a number, towards zero. *)
Definition truncate (r : R) : Z :=
  if Rle_dec 0 r then Int_part r else (- Int_part (- r))%Z.

(** The conversion of a number to the IDL type [unsigned long]: it is
    truncated and taken modulo 2^32. *)
Definition to_unsigned_long (r : R) : Z := (truncate r mod 2 ^ 32)%Z.

(** What an attribute such as [canvas.width] holds once [r] is assigned to
    it.  The attribute is an [unsigned long] that reflects a content
    attribute limited to non-negative numbers: the value is the converted
    number when that is at most 2^31 - 1, and the default of the attribute
    otherwise. *)
Definition reflected (default : Z) (r : R) : Z :=
  let n := to_unsigned_long r in
  if (n <=? 2147483647)%Z then n else default.

(** [arr[i]] for a computed index: [undefined] (here [None]) out of range. *)
Definition js_index {A : Type} (arr : list A) (i : Z) : option A :=
  if (i <? 0)%Z then None else nth_error arr (Z.to_nat i).

(** [arr.filter(f)] for a callback that may also update the element it is
    given before it answers: the kept elements are the updated ones. *)
Fixpoint js_filter {A : Type} (f : A -> A * bool) (arr : list A) : list A :=
  match arr with
  | [] => []
  | a :: rest =>
      let (a', keep) := f a in
      if keep then a' :: js_filter f rest else js_filter f rest
  end.

(** ** The page *)

(** A DOM element, by identity. *)
Definition Element := nat.

Inductive Level := Warn | Error.

(** The two kinds of shader: [gl.VERTEX_SHADER] and [gl.FRAGMENT_SHADER]. *)
Inductive ShaderType := VERTEX_SHADER | FRAGMENT_SHADER.

Record Page := mkPage {
  body : list Element;            (* children of document.body, first child first *)
  elements : nat;                 (* elements created so far *)
  resizeListeners : list Element; (* 'resize' listeners, by the canvas they resize *)
  frames : list nat;              (* handles of the pending animation frames *)
  frameCounter : nat;             (* handles given out so far *)
  console : list (Level * string);
  uncaught : list string;         (* exceptions that no handler caught *)
  webgl : bool;                   (* does getContext('webgl') give a context *)
  compiles : ShaderType -> bool;  (* COMPILE_STATUS of the shader of each type *)
  links : bool;                   (* LINK_STATUS of the program of the two shaders *)
  innerWidth : R;
  innerHeight : R;
  devicePixelRatio : R
}.

(** ** The world and its computations *)

Record World := mkWorld {
  randoms : nat -> R;   (* randoms n: what call number n of Math.random() returns *)
  nrandom : nat;        (* calls of Math.random() so far *)
  clock : nat -> R;     (* clock n: what call number n of performance.now() returns *)
  nclock : nat;         (* calls of performance.now() so far *)
  page : Page
}.

Definition M (A : Type) : Type := World -> A * World.

Definition ret {A : Type} (a : A) : M A := fun w => (a, w).

Definition bind {A B : Type} (m : M A) (k : A -> M B) : M B :=
  fun w => let (a, w') := m w in k a w'.

Notation "'let*' x ':=' m 'in' k" := (bind m (fun x => k))
  (at level 10, x name, m at level 100, k at level 200).

Notation "m ';;' k" := (bind m (fun _ => k))
  (at level 100, k at level 200, right associativity).

(** [for (let i = 0; i < n; i++) body] on the instance. *)
Fixpoint for_loop {S : Type} (n : nat) (body : S -> M S) (s : S) : M S :=
  match n with
  | O => ret s
  | S n' => let* s' := body s in for_loop n' body s'
  end.

Definition Math_random : M R :=
  fun w => (randoms w (nrandom w),
            mkWorld (randoms w) (S (nrandom w)) (clock w) (nclock w) (page w)).

Definition performance_now : M R :=
  fun w => (clock w (nclock w),
            mkWorld (randoms w) (nrandom w) (clock w) (S (nclock w)) (page w)).

Definition get_page : M Page := fun w => (page w, w).

Definition put_page (p : Page) : M unit :=
  fun w => (tt, mkWorld (randoms w) (nrandom w) (clock w) (nclock w) p).

(** [document.createElement('canvas')]: a new element, not yet in the page. *)
Definition createElement : M Element :=
  let* p := get_page in
  put_page (mkPage (body p) (S (elements p)) (resizeListeners p) (frames p)
              (frameCounter p) (console p)
              (uncaught p) (webgl p) (compiles p) (links p)
              (innerWidth p) (innerHeight p) (devicePixelRatio p));;
  ret (elements p).

(** [document.body.insertBefore(e, document.body.firstChild)]. *)
Definition insertFirst (e : Element) : M unit :=
  let* p := get_page in
  put_page (mkPage (e :: body p) (elements p) (resizeListeners p) (frames p)
              (frameCounter p) (console p)
              (uncaught p) (webgl p) (compiles p) (links p)
              (innerWidth p) (innerHeight p) (devicePixelRatio p)).

(** [e.parentNode.removeChild(e)]. *)
Definition removeChild (e : Element) : M unit :=
  let* p := get_page in
  put_page (mkPage (remove Nat.eq_dec e (body p)) (elements p)
              (resizeListeners p) (frames p)
              (frameCounter p) (console p)
              (uncaught p) (webgl p) (compiles p) (links p)
              (innerWidth p) (innerHeight p) (devicePixelRatio p)).

(** [e.parentNode], as the condition of [destroy] tests it. *)
Definition hasParent (e : Element) : M bool :=
  let* p := get_page in ret (if in_dec Nat.eq_dec e (body p) then true else false).

(** [window.addEventListener('resize', () => this.resize())]. *)
Definition addResizeListener (e : Element) : M unit :=
  let* p := get_page in
  put_page (mkPage (body p) (elements p) (resizeListeners p ++ [e]) (frames p)
              (frameCounter p) (console p)
              (uncaught p) (webgl p) (compiles p) (links p)
              (innerWidth p) (innerHeight p) (devicePixelRatio p)).

(** [requestAnimationFrame(loop)]: the handles are 1, 2, 3, ... *)
Definition requestAnimationFrame : M nat :=
  let* p := get_page in
  let h := S (frameCounter p) in
  put_page (mkPage (body p) (elements p) (resizeListeners p) (h :: frames p)
              h (console p) (uncaught p) (webgl p) (compiles p) (links p)
              (innerWidth p) (innerHeight p) (devicePixelRatio p));;
  ret h.

(** [cancelAnimationFrame(h)]. *)
Definition cancelAnimationFrame (h : nat) : M unit :=
  let* p := get_page in
  put_page (mkPage (body p) (elements p) (resizeListeners p)
              (remove Nat.eq_dec h (frames p))
              (frameCounter p) (console p)
              (uncaught p) (webgl p) (compiles p) (links p)
              (innerWidth p) (innerHeight p) (devicePixelRatio p)).

(** [console.warn(msg)] and [console.error(msg)]. *)
Definition console_log (l : Level) (msg : string) : M unit :=
  let* p := get_page in
  put_page (mkPage (body p) (elements p) (resizeListeners p) (frames p)
              (frameCounter p) (console p ++ [(l, msg)])
              (uncaught p) (webgl p) (compiles p) (links p)
              (innerWidth p) (innerHeight p) (devicePixelRatio p)).

(** An exception leaves the script or a listener: the browser reports it. *)
Definition report_uncaught (error : string) : M unit :=
  let* p := get_page in
  put_page (mkPage (body p) (elements p) (resizeListeners p) (frames p)
              (frameCounter p) (console p)
              (uncaught p ++ [error]) (webgl p) (compiles p) (links p)
              (innerWidth p) (innerHeight p) (devicePixelRatio p)).


(** How a call ends: it returns, or an exception leaves it.  Either way
    the completion holds [this] as the call left it. *)
Inductive Completion (A : Type) :=
| Normal (a : A)
| Throw (error : string) (a : A).

Arguments Normal {A} a.
Arguments Throw {A} error a.

Definition completed {A : Type} (c : Completion A) : A :=
  match c with
  | Normal a => a
  | Throw _ a => a
  end.

(** ** The instance *)

Record Canvas := mkCanvas {
  element : Element;
  width : option Z;     (* canvas.width, once resize() has set it *)
  height : option Z
}.

Inductive BlendFactor := SRC_ALPHA | ONE | ONE_MINUS_SRC_ALPHA.

(** The state of the WebGL context the methods change. *)
Record GL := mkGL {
  viewport : option (Z * Z);                    (* gl.viewport(0, 0, w, h) *)
  program_used : bool;                          (* gl.useProgram(program) *)
  blendFunc : option (BlendFactor * BlendFactor) (* gl.enable(BLEND); gl.blendFunc *)
}.

(** A fresh context. *)
Definition newGL : GL := mkGL None false None.

(** The fields of [this]; [D] is the type of a dot. *)
Record Instance (D : Type) := mkInstance {
  canvas : option Canvas;
  gl : option GL;
  program : option bool;      (* the program object, with its LINK_STATUS *)
  dots : list D;
  lastSpawnTime : R;
  animationId : option nat
}.

Definition set_canvas {D} (this : Instance D) (c : option Canvas) : Instance D :=
  mkInstance c (gl this) (program this) (dots this) (lastSpawnTime this)
    (animationId this).

Definition set_gl {D} (this : Instance D) (g : option GL) : Instance D :=
  mkInstance (canvas this) g (program this) (dots this) (lastSpawnTime this)
    (animationId this).

Definition set_program {D} (this : Instance D) (p : option bool) : Instance D :=
  mkInstance (canvas this) (gl this) p (dots this) (lastSpawnTime this)
    (animationId this).

Definition set_dots {D} (this : Instance D) (ds : list D) : Instance D :=
  mkInstance (canvas this) (gl this) (program this) ds (lastSpawnTime this)
    (animationId this).

Definition set_lastSpawnTime {D} (this : Instance D) (t : R) : Instance D :=
  mkInstance (canvas this) (gl this) (program this) (dots this) t
    (animationId this).

Definition set_animationId {D} (this : Instance D) (h : option nat) : Instance D :=
  mkInstance (canvas this) (gl this) (program this) (dots this)
    (lastSpawnTime this) h.

(** [this.dots.push(d)]. *)
Definition push {D} (this : Instance D) (d : D) : Instance D :=
  set_dots this (dots this ++ [d]).

(** The fields the constructor sets before it calls [init]. *)
Definition fresh (D : Type) : Instance D := mkInstance None None None [] 0 None.

(** The per-variant constants. *)
Record Config := mkConfig {
  maxDots : nat;
  spawnInterval : R;
  minLifetime : R;
  maxLifetime : R;
  minSize : R;
  maxSize : R;
  colors : list (list R)
}.

(** A dot of the two polkadot variants. *)
Record Dot := mkDot {
  x : R;
  y : R;
  size : R;
  color : option (list R);
  birthTime : R;
  lifetime : R
}.

(** The arrays that [render] fills, one for each attribute of the vertex
    shader of the polkadots. *)
Record Arrays := mkArrays {
  a_position : list R;
  a_size : list R;
  a_color : list R;
  a_alpha : list R
}.

(** [for (const a of l) body], which an exception of [body] leaves. *)
Fixpoint for_of {A S : Type} (body : S -> A -> Completion S) (l : list A) (s : S)
    : Completion S :=
  match l with
  | [] => Normal s
  | a :: rest =>
      match body s a with
      | Normal s' => for_of body rest s'
      | Throw error s' => Throw error s'
      end
  end.

(** ** Methods the three files share word for word *)

(** [resize()].  It is called once [init] has set [this.canvas].  The
    defaults of [canvas.width] and [canvas.height] are 300 and 150;
    [gl.viewport] is given the two attributes as they are read back. *)
Definition resize {D} (this : Instance D) : M (Instance D) :=
  let* p := get_page in
  let dpr := or_default (devicePixelRatio p) 1 in
  match canvas this with
  | None => ret this
  | Some c =>
      let w := reflected 300 (innerWidth p * dpr) in
      let h := reflected 150 (innerHeight p * dpr) in
      let this := set_canvas this (Some (mkCanvas (element c) (Some w) (Some h))) in
      match gl this with
      | Some g =>
          ret (set_gl this (Some (mkGL (Some (w, h)) (program_used g) (blendFunc g))))
      | None => ret this
      end
  end.

(** [createShader(type, source)]: the shader, or [null] (here [None]),
    after an error on the console, when it does not compile.  A shader
    object is told by its type; the objects of the context are not carried
    by the model, so that [gl.deleteShader] leaves no trace. *)
Definition createShader (type : ShaderType) : M (option ShaderType) :=
  let* p := get_page in
  if negb (compiles p type) then
    console_log Error "Shader compile error:";;
    ret None
  else ret (Some type).

(** [setupWebGL()], for the blend function [blend] of the variant.  The
    attribute locations and the buffers are not carried by the model; the
    program object and its link status are.  The shader of
    [gl.attachShader(program, shader)] is not nullable: the call throws a
    [TypeError] when [createShader] returned [null], and [setupWebGL] has no
    handler. *)
Definition setupWebGL {D} (blend : BlendFactor * BlendFactor)
    (this : Instance D) : M (Completion (Instance D)) :=
  let* vertexShader := createShader VERTEX_SHADER in
  let* fragmentShader := createShader FRAGMENT_SHADER in
  let* p := get_page in
  match vertexShader, fragmentShader with
  | Some _, Some _ =>
      let this := set_program this (Some (links p)) in
      if negb (links p) then
        console_log Error "Program link error:";;
        ret (Normal this)
      else
        match gl this with
        | Some g =>
            ret (Normal (set_gl this (Some (mkGL (viewport g) true (Some blend)))))
        | None => ret (Normal this)
        end
  | _, _ => ret (Throw "TypeError" (set_program this (Some false)))
  end.

(** The statement [new PolkadotBackground()] that ends each script, for the
    [init] of the variant: the constructor sets the fields and calls
    [init].  The script keeps no reference to the object, and has no
    handler: an exception that leaves the constructor is uncaught.  The
    result is the object as the constructor left it. *)
Definition construct {D} (init : Instance D -> M (Completion (Instance D)))
    (this : Instance D) : M (Instance D) :=
  let* c := init this in
  match c with
  | Normal this => ret this
  | Throw error this => report_uncaught error;; ret this
  end.

(** [animate()]: the first frame is requested. *)
Definition animate {D} (this : Instance D) : M (Instance D) :=
  let* h := requestAnimationFrame in
  ret (set_animationId this (Some h)).

(** [destroy()].  The handle [0] is falsy, as is [null]. *)
Definition destroy {D} (this : Instance D) : M (Instance D) :=
  match animationId this with
  | Some (S h) => cancelAnimationFrame (S h)
  | _ => ret tt
  end;;
  match canvas this with
  | Some c =>
      let* parent := hasParent (element c) in
      if parent then removeChild (element c) else ret tt
  | None => ret tt
  end;;
  ret this.

(** The browser runs the frame callback of the instance at time
    [currentTime]: a callback runs once, and only while its handle is
    pending. *)
Definition fire {D} (loop : R -> Instance D -> M (Instance D))
    (currentTime : R) (this : Instance D) : M (Instance D) :=
  let* p := get_page in
  match animationId this with
  | Some h =>
      if in_dec Nat.eq_dec h (frames p) then
        cancelAnimationFrame h;;
        loop currentTime this
      else ret this
  | None => ret this
  end.

(** The frames of a session, in order. *)
Fixpoint run_frames {D} (loop : R -> Instance D -> M (Instance D))
    (times : list R) (this : Instance D) : M (Instance D) :=
  match times with
  | [] => ret this
  | t :: rest => let* this := fire loop t this in run_frames loop rest this
  end.





(** ** The baseline polkadots *)

Module Baseline.

Definition CONFIG : Config := {|
  maxDots := 2000;
  spawnInterval := 600;
  minLifetime := 2500;
  maxLifetime := 5000;
  minSize := 20;
  maxSize := 500;
  colors := [ [0.75; 1.0; 0.0; 0.6];
              [0.75; 1.0; 0.0; 0.4];
              [1.0; 1.0; 1.0; 0.25];
              [0.0; 0.46; 0.85; 0.4];
              [0.63; 0.88; 0.0; 0.5] ]
|}.

Definition spawnDot (this : Instance Dot) : M (Instance Dot) :=
  if (maxDots CONFIG <=? length (dots this))%nat then ret this
  else
    let* r := Math_random in
    let color := js_index (colors CONFIG)
                   (Math_floor (r * INR (length (colors CONFIG)))) in
    let* r := Math_random in
    let lifetime := minLifetime CONFIG
                    + r * (maxLifetime CONFIG - minLifetime CONFIG) in
    let* rx := Math_random in
    let* ry := Math_random in
    let* rs := Math_random in
    let* now := performance_now in
    ret (push this {|
      x := rx * 2 - 1;
      y := ry * 2 - 1;
      size := minSize CONFIG + rs * (maxSize CONFIG - minSize CONFIG);
      color := color;
      birthTime := now;
      lifetime := lifetime
    |}).

(** The callback of [this.dots.filter] in [updateDots]. *)
Definition alive (currentTime : R) (dot : Dot) : Dot * bool :=
  let age := currentTime - birthTime dot in
  (dot, ltb age (lifetime dot)).

Definition updateDots (currentTime : R) (this : Instance Dot) : M (Instance Dot) :=
  let this := set_dots this (js_filter (alive currentTime) (dots this)) in
  if gtb (currentTime - lastSpawnTime this) (spawnInterval CONFIG) then
    let* r := Math_random in
    let* this := (if ltb r 0.7 then spawnDot this else ret this) in
    ret (set_lastSpawnTime this currentTime)
  else ret this.

Definition calculateAlpha (dot : Dot) (currentTime : R) : R :=
  let age := currentTime - birthTime dot in
  let progress := age / lifetime dot in
  sin (progress * PI).

(** The body of the loop of [render].  The spread [...dot.color] of a
    color that is [undefined] throws a [TypeError]. *)
Definition render_dot (dpr currentTime : R) (arrays : Arrays) (dot : Dot)
    : Completion Arrays :=
  let positions := a_position arrays ++ [x dot; y dot] in
  let sizes := a_size arrays ++ [size dot * dpr] in
  match color dot with
  | Some c =>
      Normal (mkArrays positions sizes (a_color arrays ++ c)
                (a_alpha arrays ++ [calculateAlpha dot currentTime]))
  | None =>
      Throw "TypeError" (mkArrays positions sizes (a_color arrays) (a_alpha arrays))
  end.

(** [render(currentTime)]: [None] when it returns at once, without a
    context or without dots; else the arrays it uploads and the count it
    gives to [gl.drawArrays].  It reads [this] and writes GPU buffers
    only. *)
Definition render (this : Instance Dot) (currentTime : R) (p : Page)
    : Completion (option (Arrays * nat)) :=
  match gl this, dots this with
  | None, _ | _, [] => Normal None
  | Some _, ds =>
      let dpr := or_default (devicePixelRatio p) 1 in
      match for_of (render_dot dpr currentTime) ds (mkArrays [] [] [] []) with
      | Normal arrays => Normal (Some (arrays, length ds))
      | Throw error _ => Throw error None
      end
  end.

(** The frame callback of [animate]: [updateDots], then [render], which
    changes neither [this] nor the page (and returns, the colors of the
    dots being colors of the palette), then the request of the next frame. *)
Definition loop (currentTime : R) (this : Instance Dot) : M (Instance Dot) :=
  let* this := updateDots currentTime this in
  let* h := requestAnimationFrame in
  ret (set_animationId this (Some h)).

Definition init (this : Instance Dot) : M (Completion (Instance Dot)) :=
  let* e := createElement in
  let this := set_canvas this (Some (mkCanvas e None None)) in
  insertFirst e;;
  let* p := get_page in
  let this := set_gl this (if webgl p then Some newGL else None) in
  match gl this with
  | None =>
      console_log Warn "WebGL not supported, polkadot effect disabled";;
      ret (Normal this)
  | Some _ =>
      let* c := setupWebGL (SRC_ALPHA, ONE_MINUS_SRC_ALPHA) this in
      match c with
      | Throw error this => ret (Throw error this)
      | Normal this =>
          let* this := resize this in
          addResizeListener e;;
          let* this := animate this in
          ret (Normal this)
      end
  end.

(** [new PolkadotBackground()]. *)
Definition new : M (Instance Dot) := construct init (fresh Dot).

End Baseline.

(** ** The festive polkadots *)

Module Festive.

Definition CONFIG : Config := {|
  maxDots := 9;
  spawnInterval := 500;
  minLifetime := 3000;
  maxLifetime := 4000;
  minSize := 50;
  maxSize := 100;
  colors := [ [0.75; 1.0; 0.0; 0.85];
              [1.0; 0.84; 0.0; 0.8];
              [1.0; 0.4; 0.7; 0.75];
              [0.0; 1.0; 1.0; 0.75];
              [1.0; 0.5; 0.0; 0.8];
              [0.6; 0.4; 1.0; 0.75];
              [1.0; 1.0; 1.0; 0.7];
              [0.0; 0.8; 1.0; 0.75];
              [1.0; 0.2; 0.4; 0.75];
              [0.4; 1.0; 0.6; 0.75] ]
|}.

(** The body of the loop of [prePopulateDots]. *)
Definition prePopulateOne (currentTime : R) (this : Instance Dot)
    : M (Instance Dot) :=
  let* r := Math_random in
  let color := js_index (colors CONFIG)
                 (Math_floor (r * INR (length (colors CONFIG)))) in
  let* r := Math_random in
  let lifetime := minLifetime CONFIG
                  + r * (maxLifetime CONFIG - minLifetime CONFIG) in
  let* r := Math_random in
  let birthOffset := r * lifetime * 0.8 in
  let* rx := Math_random in
  let* ry := Math_random in
  let* rs := Math_random in
  ret (push this {|
    x := rx * 2 - 1;
    y := ry * 2 - 1;
    size := minSize CONFIG + rs * (maxSize CONFIG - minSize CONFIG);
    color := color;
    birthTime := currentTime - birthOffset;
    lifetime := lifetime
  |}).

Definition prePopulateDots (this : Instance Dot) : M (Instance Dot) :=
  let* currentTime := performance_now in
  let targetDots := Math_floor (INR (maxDots CONFIG) * 0.7) in
  for_loop (Z.to_nat targetDots) (prePopulateOne currentTime) this.

Definition spawnDot (this : Instance Dot) : M (Instance Dot) :=
  if (maxDots CONFIG <=? length (dots this))%nat then ret this
  else
    let* r := Math_random in
    let color := js_index (colors CONFIG)
                   (Math_floor (r * INR (length (colors CONFIG)))) in
    let* r := Math_random in
    let lifetime := minLifetime CONFIG
                    + r * (maxLifetime CONFIG - minLifetime CONFIG) in
    let* rx := Math_random in
    let* ry := Math_random in
    let* rs := Math_random in
    let* now := performance_now in
    ret (push this {|
      x := rx * 2 - 1;
      y := ry * 2 - 1;
      size := minSize CONFIG + rs * (maxSize CONFIG - minSize CONFIG);
      color := color;
      birthTime := now;
      lifetime := lifetime
    |}).

(** The callback of [this.dots.filter] in [updateDots]. *)
Definition alive (currentTime : R) (dot : Dot) : Dot * bool :=
  let age := currentTime - birthTime dot in
  (dot, ltb age (lifetime dot)).

(** The body of the spawn loop of [updateDots]. *)
Definition spawnAttempt (this : Instance Dot) : M (Instance Dot) :=
  let* r := Math_random in
  if ltb r 0.85 then spawnDot this else ret this.

Definition updateDots (currentTime : R) (this : Instance Dot) : M (Instance Dot) :=
  let this := set_dots this (js_filter (alive currentTime) (dots this)) in
  if gtb (currentTime - lastSpawnTime this) (spawnInterval CONFIG) then
    let dotsToSpawn :=
      Z.min 3 (Z.of_nat (maxDots CONFIG) - Z.of_nat (length (dots this))) in
    let* this := for_loop (Z.to_nat dotsToSpawn) spawnAttempt this in
    ret (set_lastSpawnTime this currentTime)
  else ret this.

(** [baseAlpha] of [calculateAlpha]. *)
Definition baseAlpha (dot : Dot) (currentTime : R) : R :=
  let age := currentTime - birthTime dot in
  let progress := age / lifetime dot in
  sin (progress * PI).

(** [twinkle] of [calculateAlpha]. *)
Definition twinkle (dot : Dot) (currentTime : R) : R :=
  let age := currentTime - birthTime dot in
  1 + sin (age * 0.01) * 0.1.

Definition calculateAlpha (dot : Dot) (currentTime : R) : R :=
  baseAlpha dot currentTime * twinkle dot currentTime.

(** The body of the loop of [render]. *)
Definition render_dot (dpr currentTime : R) (arrays : Arrays) (dot : Dot)
    : Completion Arrays :=
  let positions := a_position arrays ++ [x dot; y dot] in
  let sizes := a_size arrays ++ [size dot * dpr] in
  match color dot with
  | Some c =>
      Normal (mkArrays positions sizes (a_color arrays ++ c)
                (a_alpha arrays ++ [calculateAlpha dot currentTime]))
  | None =>
      Throw "TypeError" (mkArrays positions sizes (a_color arrays) (a_alpha arrays))
  end.

Definition render (this : Instance Dot) (currentTime : R) (p : Page)
    : Completion (option (Arrays * nat)) :=
  match gl this, dots this with
  | None, _ | _, [] => Normal None
  | Some _, ds =>
      let dpr := or_default (devicePixelRatio p) 1 in
      match for_of (render_dot dpr currentTime) ds (mkArrays [] [] [] []) with
      | Normal arrays => Normal (Some (arrays, length ds))
      | Throw error _ => Throw error None
      end
  end.

(** The frame callback of [animate]: [updateDots], then [render], which
    changes neither [this] nor the page (and returns, the colors of the
    dots being colors of the palette), then the request of the next frame. *)
Definition loop (currentTime : R) (this : Instance Dot) : M (Instance Dot) :=
  let* this := updateDots currentTime this in
  let* h := requestAnimationFrame in
  ret (set_animationId this (Some h)).

Definition init (this : Instance Dot) : M (Completion (Instance Dot)) :=
  let* e := createElement in
  let this := set_canvas this (Some (mkCanvas e None None)) in
  insertFirst e;;
  let* p := get_page in
  let this := set_gl this (if webgl p then Some newGL else None) in
  match gl this with
  | None =>
      console_log Warn "WebGL not supported, polkadot effect disabled";;
      ret (Normal this)
  | Some _ =>
      let* c := setupWebGL (SRC_ALPHA, ONE) this in
      match c with
      | Throw error this => ret (Throw error this)
      | Normal this =>
          let* this := resize this in
          addResizeListener e;;
          let* this := prePopulateDots this in
          let* this := animate this in
          ret (Normal this)
      end
  end.

(** [new PolkadotBackground()]. *)
Definition new : M (Instance Dot) := construct init (fresh Dot).

End Festive.

(** ** The triangles *)

Module Triangle.

Definition CONFIG : Config := {|
  maxDots := 10;
  spawnInterval := 1000;
  minLifetime := 4000;
  maxLifetime := 6000;
  minSize := 70;
  maxSize := 80;
  colors := [ [0.0; 0.34; 0.7; 0.75];
              [0.0; 0.46; 0.85; 0.75];
              [0.0; 0.5; 0.9; 0.7];
              [0.0; 0.4; 0.75; 0.75] ]
|}.

(** A triangle: a dot with a rotation. *)
Record Dot := mkDot {
  x : R;
  y : R;
  size : R;
  color : option (list R);
  birthTime : R;
  lifetime : R;
  rotation : R;
  rotationSpeed : R
}.

Definition getRandomX : M R :=
  let* r := Math_random in
  let isLeft := ltb r 0.5 in
  if isLeft then
    let* r := Math_random in ret (-1 + r * 0.667)
  else
    let* r := Math_random in ret (0.333 + r * 0.667).

(** The body of the loop of [prePopulateDots]. *)
Definition prePopulateOne (currentTime : R) (this : Instance Dot)
    : M (Instance Dot) :=
  let* r := Math_random in
  let color := js_index (colors CONFIG)
                 (Math_floor (r * INR (length (colors CONFIG)))) in
  let* r := Math_random in
  let lifetime := minLifetime CONFIG
                  + r * (maxLifetime CONFIG - minLifetime CONFIG) in
  let* r := Math_random in
  let birthOffset := r * lifetime * 0.8 in
  let* x := getRandomX in
  let* ry := Math_random in
  let* rs := Math_random in
  let* rr := Math_random in
  let* rv := Math_random in
  ret (push this {|
    x := x;
    y := ry * 2 - 1;
    size := minSize CONFIG + rs * (maxSize CONFIG - minSize CONFIG);
    color := color;
    birthTime := currentTime - birthOffset;
    lifetime := lifetime;
    rotation := rr * PI * 2;
    rotationSpeed := (rv - 0.5) * 0.002
  |}).

Definition prePopulateDots (this : Instance Dot) : M (Instance Dot) :=
  let* currentTime := performance_now in
  let targetDots := Math_floor (INR (maxDots CONFIG) * 0.7) in
  for_loop (Z.to_nat targetDots) (prePopulateOne currentTime) this.

Definition spawnDot (this : Instance Dot) : M (Instance Dot) :=
  if (maxDots CONFIG <=? length (dots this))%nat then ret this
  else
    let* r := Math_random in
    let color := js_index (colors CONFIG)
                   (Math_floor (r * INR (length (colors CONFIG)))) in
    let* r := Math_random in
    let lifetime := minLifetime CONFIG
                    + r * (maxLifetime CONFIG - minLifetime CONFIG) in
    let* x := getRandomX in
    let* ry := Math_random in
    let* rs := Math_random in
    let* now := performance_now in
    let* rr := Math_random in
    let* rv := Math_random in
    ret (push this {|
      x := x;
      y := ry * 2 - 1;
      size := minSize CONFIG + rs * (maxSize CONFIG - minSize CONFIG);
      color := color;
      birthTime := now;
      lifetime := lifetime;
      rotation := rr * PI * 2;
      rotationSpeed := (rv - 0.5) * 0.002
    |}).

(** [dot.rotation += dot.rotationSpeed * 16]. *)
Definition rotate (dot : Dot) : Dot :=
  mkDot (x dot) (y dot) (size dot) (color dot) (birthTime dot) (lifetime dot)
    (rotation dot + rotationSpeed dot * 16) (rotationSpeed dot).

(** The callback of [this.dots.filter] in [updateDots]: a dot that stays is
    rotated. *)
Definition alive (currentTime : R) (dot : Dot) : Dot * bool :=
  let age := currentTime - birthTime dot in
  if ltb age (lifetime dot) then (rotate dot, true) else (dot, false).

(** The body of the spawn loop of [updateDots]. *)
Definition spawnAttempt (this : Instance Dot) : M (Instance Dot) :=
  let* r := Math_random in
  if ltb r 0.85 then spawnDot this else ret this.

Definition updateDots (currentTime : R) (this : Instance Dot) : M (Instance Dot) :=
  let this := set_dots this (js_filter (alive currentTime) (dots this)) in
  if gtb (currentTime - lastSpawnTime this) (spawnInterval CONFIG) then
    let dotsToSpawn :=
      Z.min 3 (Z.of_nat (maxDots CONFIG) - Z.of_nat (length (dots this))) in
    let* this := for_loop (Z.to_nat dotsToSpawn) spawnAttempt this in
    ret (set_lastSpawnTime this currentTime)
  else ret this.

(** [baseAlpha] of [calculateAlpha]. *)
Definition baseAlpha (dot : Dot) (currentTime : R) : R :=
  let age := currentTime - birthTime dot in
  let progress := age / lifetime dot in
  sin (progress * PI).

(** [twinkle] of [calculateAlpha]. *)
Definition twinkle (dot : Dot) (currentTime : R) : R :=
  let age := currentTime - birthTime dot in
  1 + sin (age * 0.01) * 0.1.

Definition calculateAlpha (dot : Dot) (currentTime : R) : R :=
  baseAlpha dot currentTime * twinkle dot currentTime.

(** The arrays of [render]: those of the polkadots, and the rotations. *)
Record Arrays := mkArrays {
  a_position : list R;
  a_size : list R;
  a_color : list R;
  a_alpha : list R;
  a_rotation : list R
}.

(** The body of the loop of [render]. *)
Definition render_dot (dpr currentTime : R) (arrays : Arrays) (dot : Dot)
    : Completion Arrays :=
  let positions := a_position arrays ++ [x dot; y dot] in
  let sizes := a_size arrays ++ [size dot * dpr] in
  match color dot with
  | Some c =>
      Normal (mkArrays positions sizes (a_color arrays ++ c)
                (a_alpha arrays ++ [calculateAlpha dot currentTime])
                (a_rotation arrays ++ [rotation dot]))
  | None =>
      Throw "TypeError" (mkArrays positions sizes (a_color arrays) (a_alpha arrays)
                           (a_rotation arrays))
  end.

Definition render (this : Instance Dot) (currentTime : R) (p : Page)
    : Completion (option (Arrays * nat)) :=
  match gl this, dots this with
  | None, _ | _, [] => Normal None
  | Some _, ds =>
      let dpr := or_default (devicePixelRatio p) 1 in
      match for_of (render_dot dpr currentTime) ds (mkArrays [] [] [] [] []) with
      | Normal arrays => Normal (Some (arrays, length ds))
      | Throw error _ => Throw error None
      end
  end.

(** The frame callback of [animate]: [updateDots], then [render], which
    changes neither [this] nor the page (and returns, the colors of the
    dots being colors of the palette), then the request of the next frame. *)
Definition loop (currentTime : R) (this : Instance Dot) : M (Instance Dot) :=
  let* this := updateDots currentTime this in
  let* h := requestAnimationFrame in
  ret (set_animationId this (Some h)).

Definition init (this : Instance Dot) : M (Completion (Instance Dot)) :=
  let* e := createElement in
  let this := set_canvas this (Some (mkCanvas e None None)) in
  insertFirst e;;
  let* p := get_page in
  let this := set_gl this (if webgl p then Some newGL else None) in
  match gl this with
  | None =>
      console_log Warn "WebGL not supported, triangle effect disabled";;
      ret (Normal this)
  | Some _ =>
      let* c := setupWebGL (SRC_ALPHA, ONE) this in
      match c with
      | Throw error this => ret (Throw error this)
      | Normal this =>
          let* this := resize this in
          addResizeListener e;;
          let* this := prePopulateDots this in
          let* this := animate this in
          ret (Normal this)
      end
  end.

(** [new PolkadotBackground()]. *)
Definition new : M (Instance Dot) := construct init (fresh Dot).

End Triangle.

(** ** The accessibility script *)

Module Accessibility.

(** [s.endsWith(t)]: [t] is [s] or ends a tail of [s]. *)
Fixpoint endsWith (s t : string) : bool :=
  if String.eqb s t then true
  else match s with
       | EmptyString => false
       | String _ s' => endsWith s' t
       end.

(** An attribute read by [getAttribute]: [None] is [null]. *)
Definition Attribute := option string.

(** The string a [null] or a string becomes as an argument of [endsWith]. *)
Definition to_string (a : Attribute) : string :=
  match a with
  | Some s => s
  | None => "null"
  end.

(** [a === s]. *)
Definition equals (a : Attribute) (s : string) : bool :=
  match a with
  | Some t => String.eqb t s
  | None => false
  end.

(** [classList.add(c)], [classList.remove(c)], [classList.contains(c)] and
    [classList.toggle(c)] on the list of the classes of an element. *)
Definition contains (classes : list string) (c : string) : bool :=
  if in_dec string_dec c classes then true else false.

Definition add (classes : list string) (c : string) : list string :=
  if contains classes c then classes else classes ++ [c].

Definition remove (classes : list string) (c : string) : list string :=
  List.remove string_dec c classes.

Definition toggle (classes : list string) (c : string) : list string :=
  if contains classes c then remove classes c else classes ++ [c].

(** A link of the navigation: its [href] and [aria-current] attributes and
    its classes. *)
Record Link := mkLink {
  href : Attribute;
  ariaCurrent : Attribute;
  classList : list string
}.

(** [isActive] of [setActiveNavigation], for [currentPath] and the [href]
    of a link. *)
Definition isActive (currentPath : string) (href : Attribute) : bool :=
  endsWith currentPath (to_string href)
  || (String.eqb currentPath "/" && equals href "index.html")
  || (endsWith currentPath "/" && equals href "index.html").

(** The body of the loop of [setActiveNavigation]. *)
Definition setActiveLink (currentPath : string) (link : Link) : Link :=
  if isActive currentPath (href link) then
    mkLink (href link) (Some "page"%string) (add (classList link) "active")
  else
    mkLink (href link) None (remove (classList link) "active").

(** [setActiveNavigation()], on the links [document.querySelectorAll('nav a')]
    finds, for the path [window.location.pathname]. *)
Definition setActiveNavigation (currentPath : string) (navLinks : list Link)
    : list Link :=
  map (setActiveLink currentPath) navLinks.

(** The live region of [announcePageChange]: the text of the element
    [#page-announcer], when the element exists, and the messages of the
    timeouts that are pending, first first. *)
Record Announcer := mkAnnouncer {
  textContent : option string;
  timeouts : list string
}.

(** [announcePageChange(message)]: the element is made if it is missing, its
    text is cleared, and the message is set 100 ms later. *)
Definition announcePageChange (message : string) (a : Announcer) : Announcer :=
  mkAnnouncer (Some EmptyString) (timeouts a ++ [message]).

(** The browser runs the oldest pending timeout. *)
Definition runTimeout (a : Announcer) : Announcer :=
  match timeouts a with
  | [] => a
  | message :: rest => mkAnnouncer (Some message) rest
  end.

(** The mobile navigation: [aria-expanded] of the button [.nav-toggle], the
    classes of [.main-nav], whether the button has the focus, and the live
    region. *)
Record Menu := mkMenu {
  ariaExpanded : Attribute;
  navClasses : list string;
  toggleFocused : bool;
  announcer : Announcer
}.

(** The [click] listener of the button. *)
Definition onToggleClick (m : Menu) : Menu :=
  let isExpanded := equals (ariaExpanded m) "true" in
  mkMenu (Some (if negb isExpanded then "true" else "false")%string)
    (toggle (navClasses m) "is-open")
    (toggleFocused m)
    (announcePageChange
       (if isExpanded then "Navigation menu closed" else "Navigation menu opened")
       (announcer m)).

(** The [keydown] listener of the document, for the key [key]. *)
Definition onDocumentKeydown (key : string) (m : Menu) : Menu :=
  if String.eqb key "Escape" && contains (navClasses m) "is-open" then
    mkMenu (Some "false"%string) (remove (navClasses m) "is-open") true
      (announcePageChange "Navigation menu closed" (announcer m))
  else m.

(** A keyboard event. *)
Record KeyboardEvent := mkKeyboardEvent {
  key : string;
  shiftKey : bool
}.

(** [focusableElements[0]] and [focusableElements[length - 1]] of
    [createFocusTrap]: [None] is [undefined]. *)
Definition firstFocusable (focusableElements : list Element) : option Element :=
  js_index focusableElements 0.

Definition lastFocusable (focusableElements : list Element) : option Element :=
  js_index focusableElements (Z.of_nat (length focusableElements) - 1).

(** [document.activeElement === e]: [active] is an element or [null], and
    [null] is not [undefined]. *)
Definition activeIs (active e : option Element) : bool :=
  match active, e with
  | Some a, Some b => Nat.eqb a b
  | _, _ => false
  end.

(** [handleKeydown(e)] of [createFocusTrap]: the element it moves the focus
    to, after [e.preventDefault()], or [None] when it leaves the event to
    the browser. *)
Definition handleKeydown (focusableElements : list Element)
    (active : option Element) (e : KeyboardEvent) : option Element :=
  if negb (String.eqb (key e) "Tab") then None
  else if shiftKey e then
    if activeIs active (firstFocusable focusableElements)
    then lastFocusable focusableElements else None
  else
    if activeIs active (lastFocusable focusableElements)
    then firstFocusable focusableElements else None.

(** [activate()] of the trap: [firstFocusable?.focus()]. *)
Definition activate (focusableElements : list Element) : option Element :=
  firstFocusable focusableElements.

(** An external link: its [rel] and [target] attributes, and the classes of
    each element inside it. *)
Record ExternalLink := mkExternalLink {
  rel : Attribute;
  target : Attribute;
  inside : list (list string)
}.

(** [link.querySelector('.sr-only')] finds an element. *)
Definition hasWarning (link : ExternalLink) : bool :=
  existsb (fun classes => contains classes "sr-only") (inside link).

(** The body of the loop of [initExternalLinks]. *)
Definition secureLink (link : ExternalLink) : ExternalLink :=
  let link := mkExternalLink (Some "noopener noreferrer"%string) (target link)
                (inside link) in
  if equals (target link) "_blank" then
    if negb (hasWarning link) then
      mkExternalLink (rel link) (target link) (inside link ++ [["sr-only"%string]])
    else link
  else link.

(** [initExternalLinks()], on the links its selector finds. *)
Definition initExternalLinks (links : list ExternalLink) : list ExternalLink :=
  map secureLink links.

End Accessibility.

Unset Implicit Arguments.

(** * Vocabulary of the properties *)

(** [w'] is [w] later in the session: the same sources, read further. *)
Definition later (w w' : World) : Prop :=
  randoms w' = randoms w /\ clock w' = clock w /\
  (nrandom w <= nrandom w')%nat /\ (nclock w <= nclock w')%nat.

(** The collection holds at most [cap] dots. *)
Definition within (D : Type) (cap : nat) (this : Instance D) : Prop :=
  (length (dots this) <= cap)%nat.

(** [m] keeps the collection within [cap], whatever the world. *)
Definition keeps_within (D : Type) (cap : nat)
    (m : Instance D -> M (Instance D)) : Prop :=
  forall this w, within D cap this -> within D cap (fst (m this w)).

(** [l'] is [l] and, after it, new dots that are all [good]. *)
Definition appends {D : Type} (good : D -> Prop) (l l' : list D) : Prop :=
  exists created, l' = l ++ created /\ Forall good created.

(** A session: the constructor, then the frames the browser runs at the
    times [times], then one more call of [updateDots]. *)
Definition session {D : Type} (new : M (Instance D))
    (loop updateDots : R -> Instance D -> M (Instance D))
    (times : list R) (now : R) : M (Instance D) :=
  let* this := new in
  let* this := run_frames loop times this in
  updateDots now this.

(** [Math.random()] returns a number of [[0, 1)]. *)
Definition unit_randoms (w : World) : Prop := forall i, 0 <= randoms w i < 1.

(** A dot that [spawnDot] of a polkadot variant made in the world [w] or
    later, when the random numbers are in [[0, 1)]: its fields are in the
    ranges of the configuration and its birth time was read from the clock. *)
Definition spawned (cfg : Config) (w : World) (d : Dot) : Prop :=
  unit_randoms w ->
  minLifetime cfg <= lifetime d < maxLifetime cfg /\
  minSize cfg <= size d < maxSize cfg /\
  -1 <= x d < 1 /\ -1 <= y d < 1 /\
  exists i, (nclock w <= i)%nat /\ birthTime d = clock w i.

(** A dot that [prePopulateDots] of the festive variant made at
    [currentTime]: it is back-dated by less than 0.8 of its lifetime. *)
Definition backdated (cfg : Config) (currentTime : R) (w : World) (d : Dot) : Prop :=
  unit_randoms w ->
  minLifetime cfg <= lifetime d < maxLifetime cfg /\
  minSize cfg <= size d < maxSize cfg /\
  -1 <= x d < 1 /\ -1 <= y d < 1 /\
  birthTime d <= currentTime /\
  currentTime - birthTime d <= 0.8 * lifetime d.

(** The two side bands of [getRandomX]. *)
Definition side_band (x : R) : Prop := -1 <= x < -0.333 \/ 0.333 <= x < 1.

(** The two side intervals, with their ends: [x] is in the square and not
    strictly inside the center band of [getRandomX]. *)
Definition beside_center (x : R) : Prop :=
  -1 <= x <= -0.333 \/ 0.333 <= x <= 1.

(** A triangle that [spawnDot] made in the world [w] or later, when the
    random numbers are in [[0, 1)]. *)
Definition spawned_triangle (w : World) (d : Triangle.Dot) : Prop :=
  unit_randoms w ->
  minLifetime Triangle.CONFIG <= Triangle.lifetime d < maxLifetime Triangle.CONFIG /\
  minSize Triangle.CONFIG <= Triangle.size d < maxSize Triangle.CONFIG /\
  side_band (Triangle.x d) /\ -1 <= Triangle.y d < 1 /\
  0 <= Triangle.rotation d < 2 * PI /\
  -0.001 <= Triangle.rotationSpeed d < 0.001 /\
  exists i, (nclock w <= i)%nat /\ Triangle.birthTime d = clock w i.

(** A triangle that [prePopulateDots] made at [currentTime]. *)
Definition backdated_triangle (currentTime : R) (w : World) (d : Triangle.Dot) : Prop :=
  unit_randoms w ->
  minLifetime Triangle.CONFIG <= Triangle.lifetime d < maxLifetime Triangle.CONFIG /\
  minSize Triangle.CONFIG <= Triangle.size d < maxSize Triangle.CONFIG /\
  side_band (Triangle.x d) /\ -1 <= Triangle.y d < 1 /\
  0 <= Triangle.rotation d < 2 * PI /\
  -0.001 <= Triangle.rotationSpeed d < 0.001 /\
  Triangle.birthTime d <= currentTime /\
  currentTime - Triangle.birthTime d <= 0.8 * Triangle.lifetime d.

(** The clock, read from now on, is not before the time [now] of the frame. *)
Definition fresh_clock (now : R) (w : World) : Prop :=
  forall i, (nclock w <= i)%nat -> now <= clock w i.

(** Randomness stubbed to fail a gate of probability [p]: from now on
    [Math.random()] returns [p] or more. *)
Definition declines (p : R) (w : World) : Prop :=
  forall i, (nrandom w <= i)%nat -> p <= randoms w i.

(** The random numbers 0, 0, 1/2, 0, 0, ...: the third call of
    [Math.random()] returns 1/2. *)
Definition world_center : World :=
  mkWorld (fun i => if Nat.eqb i 2 then 1 / 2 else 0) 0 (fun _ => 0) 0
    (mkPage [] 0 [] [] 0 [] [] true (fun _ => true) true 1280 720 1).

(** A festive dot of the shortest lifetime, born at time 0. *)
Definition festive_dot : Dot := mkDot 0 0 50 None 0 3000.

(** A triangle of the shortest lifetime, born at time 0. *)
Definition triangle_dot : Triangle.Dot := Triangle.mkDot 0.5 0 70 None 0 4000 0 0.

(** The instance a constructor leaves when there is no WebGL context: the
    canvas [e], and every other field as the constructor set it. *)
Definition disabled (D : Type) (e : Element) : Instance D :=
  mkInstance (Some (mkCanvas e None None)) None None [] 0 None.

(** The world after such a constructor: one more element, which is the
    first child of the body, and one more line, a warning, on the console. *)
Definition after_failed_init (msg : string) (w : World) : World :=
  let p := page w in
  mkWorld (randoms w) (nrandom w) (clock w) (nclock w)
    (mkPage (elements p :: body p) (S (elements p)) (resizeListeners p)
       (frames p) (frameCounter p) (console p ++ [(Warn, msg)])
       (uncaught p) (webgl p) (compiles p) (links p)
       (innerWidth p) (innerHeight p) (devicePixelRatio p)).

(** The page after a constructor that got its context: the canvas is the
    first child of the body, its [resize] listener is registered, the first
    frame is pending, and the console has an error when the program did not
    link. *)
Definition after_init (p : Page) : Page :=
  let e := elements p in
  let h := S (frameCounter p) in
  mkPage (e :: body p) (S e) (resizeListeners p ++ [e]) (h :: frames p) h
    (if links p then console p
     else console p ++ [(Error, "Program link error:"%string)])
    (uncaught p) (webgl p) (compiles p) (links p)
    (innerWidth p) (innerHeight p) (devicePixelRatio p).

(** What [init] leaves of the instance, but for its context and its dots. *)
Definition constructed {D : Type} (p : Page) (this : Instance D) : Prop :=
  option_map element (canvas this) = Some (elements p) /\
  animationId this = Some (S (frameCounter p)).

(** [prePopulateDots] changes the dots only, and reads the sources only. *)
Definition dots_only {D : Type} (this : Instance D) (w : World)
    (r : Instance D * World) : Prop :=
  canvas (fst r) = canvas this /\ gl (fst r) = gl this /\
  program (fst r) = program this /\
  lastSpawnTime (fst r) = lastSpawnTime this /\
  animationId (fst r) = animationId this /\
  page (snd r) = page w.

(** The page after [destroy()]: the pending frame of the instance is
    cancelled and its canvas is no child of the body; the rest is as it
    was. *)
Definition destroyed {D : Type} (this : Instance D) (p : Page) : Page :=
  mkPage
    (match canvas this with
     | Some c => remove Nat.eq_dec (element c) (body p)
     | None => body p
     end)
    (elements p) (resizeListeners p)
    (match animationId this with
     | Some (S h) => remove Nat.eq_dec (S h) (frames p)
     | _ => frames p
     end)
    (frameCounter p) (console p) (uncaught p) (webgl p) (compiles p) (links p)
    (innerWidth p) (innerHeight p) (devicePixelRatio p).

(** A session that constructs an instance in the world [w], with a WebGL
    context, and destroys it: the canvas and the pending frame are gone
    (and the children of the body and the pending frames are those of
    before the construction, when the page did not hold the new element and
    the new handle already), no later frame runs, a second [destroy()]
    changes nothing; the [resize] listener of [init] is still registered. *)
Definition torn_down {D : Type} (new : M (Instance D))
    (loop : R -> Instance D -> M (Instance D)) (w : World) : Prop :=
  let e := elements (page w) in
  let h := S (frameCounter (page w)) in
  let (this, w1) := new w in
  let w2 := snd (destroy this w1) in
  ~ In e (body (page w2)) /\
  ~ In h (frames (page w2)) /\
  (~ In e (body (page w)) -> body (page w2) = body (page w)) /\
  (~ In h (frames (page w)) -> frames (page w2) = frames (page w)) /\
  (forall t, fire loop t this w2 = (this, w2)) /\
  resizeListeners (page w2) = resizeListeners (page w) ++ [e] /\
  destroy this w2 = (this, w2).

(** A page with a WebGL context and nothing else, and a world on it. *)
Definition page0 : Page := mkPage [] 0 [] [] 0 [] [] true (fun _ => true) true 1280 720 1.

Definition world0 : World := mkWorld (fun _ => 1 / 2) 0 (fun _ => 10000) 0 page0.

(** A dot born at time 9000. *)
Definition young_dot : Dot := mkDot 0 0 50 None 9000 3000.

(** A world whose [Math.random()] always returns 0.9. *)
Definition world_declined : World :=
  mkWorld (fun _ => 0.9) 0 (fun _ => 1000) 0 page0.

(** A world whose page gives no WebGL context. *)
Definition world_no_webgl : World :=
  mkWorld (fun _ => 1 / 2) 0 (fun _ => 0) 0
    (mkPage [] 0 [] [] 0 [] [] false (fun _ => true) true 1280 720 1).





(** [r] is [this] and [w] but for the dots, the time of the last spawn
    attempt and the random numbers and clock values read. *)
Definition engine_only {D : Type} (this : Instance D) (w : World)
    (r : Instance D * World) : Prop :=
  canvas (fst r) = canvas this /\ gl (fst r) = gl this /\
  program (fst r) = program this /\
  animationId (fst r) = animationId this /\
  page (snd r) = page w.

(** The animation of [this] runs: its handle is the last one the page gave
    out, and the frame is pending. *)
Definition running {D : Type} (this : Instance D) (w : World) : Prop :=
  animationId this = Some (frameCounter (page w)) /\
  In (frameCounter (page w)) (frames (page w)) /\
  (0 < frameCounter (page w))%nat.

(** The page [p'] is [p] but for the animation frames and the size of the
    window. *)
Definition same_document (p p' : Page) : Prop :=
  body p' = body p /\ elements p' = elements p /\
  resizeListeners p' = resizeListeners p /\ console p' = console p /\
  uncaught p' = uncaught p /\
  webgl p' = webgl p /\ compiles p' = compiles p /\ links p' = links p.

(** The two shaders compile on the page [p]. *)
Definition shaders_compile (p : Page) : Prop :=
  forall type, compiles p type = true.

(** A frame callback made of [updateDots], as the three [loop]s are. *)
Definition loop_of {D : Type} (updateDots : R -> Instance D -> M (Instance D))
    (currentTime : R) (this : Instance D) : M (Instance D) :=
  let* this := updateDots currentTime this in
  let* h := requestAnimationFrame in
  ret (set_animationId this (Some h)).

(** The constructor, then the frames at the times [times]. *)
Definition started {D : Type} (new : M (Instance D))
    (loop : R -> Instance D -> M (Instance D)) (times : list R)
    : M (Instance D) :=
  let* this := new in run_frames loop times this.

(** A session that is destroyed after the frames at [times]: the canvas and
    the pending frame are gone, and whatever frames the browser would run
    afterwards, at [afterwards], none calls the instance. *)
Definition stopped {D : Type} (new : M (Instance D))
    (loop : R -> Instance D -> M (Instance D)) (times afterwards : list R)
    (w : World) : Prop :=
  let (this, w1) := started new loop times w in
  let w2 := snd (destroy this w1) in
  ~ In (elements (page w)) (body (page w2)) /\
  ~ In (frameCounter (page w1)) (frames (page w2)) /\
  run_frames loop afterwards this w2 = (this, w2).

(** The test of the filter of [updateDots]: the age of the dot at [now] is
    less than its lifetime. *)
Definition live (now : R) (d : Dot) : bool :=
  ltb (now - birthTime d) (lifetime d).

Definition live_triangle (now : R) (d : Triangle.Dot) : bool :=
  ltb (now - Triangle.birthTime d) (Triangle.lifetime d).

(** [l'] is [l] and, after it, at most [k] new dots. *)
Definition appends_upto {D : Type} (k : nat) (l l' : list D) : Prop :=
  exists created, l' = l ++ created /\ (length created <= k)%nat.

(** A dot of a polkadot variant whose fields are in the ranges of [cfg]:
    the color is one of the palette, the lifetime and the size are from
    their minimum to their maximum, the position is in the square. *)
Definition well_formed_dot (cfg : Config) (d : Dot) : Prop :=
  (exists c, color d = Some c /\ In c (colors cfg)) /\
  minLifetime cfg <= lifetime d <= maxLifetime cfg /\
  minSize cfg <= size d <= maxSize cfg /\
  -1 <= x d <= 1 /\ -1 <= y d <= 1.

(** A triangle whose fields are in the ranges of the configuration, beside
    the center band, with a rotation of at most a turn and a rotation
    speed of at most 0.001 radian per millisecond. *)
Definition well_formed_triangle (d : Triangle.Dot) : Prop :=
  (exists c, Triangle.color d = Some c /\ In c (colors Triangle.CONFIG)) /\
  minLifetime Triangle.CONFIG <= Triangle.lifetime d <= maxLifetime Triangle.CONFIG /\
  minSize Triangle.CONFIG <= Triangle.size d <= maxSize Triangle.CONFIG /\
  beside_center (Triangle.x d) /\ -1 <= Triangle.y d <= 1 /\
  0 <= Triangle.rotation d <= 2 * PI /\
  -0.001 <= Triangle.rotationSpeed d <= 0.001.

(** A birth time that [prePopulateDots] set at [currentTime]: the time
    less an offset of at most 0.8 of the lifetime. *)
Definition back_dated (currentTime birthTime lifetime : R) : Prop :=
  exists birthOffset,
    birthTime = currentTime - birthOffset /\
    0 <= birthOffset <= 0.8 * lifetime.

(** The world [w] after [n] calls of [Math.random()] and [k] calls of
    [performance.now()]. *)
Definition after_reads (n k : nat) (w : World) : World :=
  mkWorld (randoms w) (n + nrandom w) (clock w) (k + nclock w) (page w).

(** The clock, read from now on, is at or after the frame time [now], by
    [late] at most. *)
Definition clock_within (late now : R) (w : World) : Prop :=
  forall i, (nclock w <= i)%nat -> now <= clock w i <= now + late.

(** The button and the navigation agree: [aria-expanded] is ["true"]
    exactly when the navigation has the class [is-open]. *)
Definition in_sync (m : Accessibility.Menu) : Prop :=
  Accessibility.equals (Accessibility.ariaExpanded m) "true"
  = Accessibility.contains (Accessibility.navClasses m) "is-open".

(** What happens to the live region: a call of [announcePageChange] or the
    run of a timeout. *)
Inductive AnnouncerEvent :=
| Announce (message : string)
| Timeout.

Definition announcer_step (a : Accessibility.Announcer) (e : AnnouncerEvent)
    : Accessibility.Announcer :=
  match e with
  | Announce message => Accessibility.announcePageChange message a
  | Timeout => Accessibility.runTimeout a
  end.

(** The live region after the events [es], then after the timeouts still
    pending have run. *)
Definition announcer_run (es : list AnnouncerEvent) (a : Accessibility.Announcer)
    : Accessibility.Announcer :=
  fold_left announcer_step es a.

Definition settle (a : Accessibility.Announcer) : Accessibility.Announcer :=
  Nat.iter (length (Accessibility.timeouts a)) Accessibility.runTimeout a.

(** The text the live region will show once its timeouts have run. *)
Definition eventual (a : Accessibility.Announcer) : option string :=
  match Accessibility.timeouts a with
  | [] => Accessibility.textContent a
  | t :: rest => Some (last rest t)
  end.




(** A closed menu, in agreement, with no live region yet. *)
Definition closed_menu : Accessibility.Menu :=
  Accessibility.mkMenu (Some "false"%string) [] false
    (Accessibility.mkAnnouncer None []).


(** What never changes of a triangle: all its fields but the rotation. *)
Definition steady_triangle (d : Triangle.Dot) : Prop :=
  (exists c, Triangle.color d = Some c /\ In c (colors Triangle.CONFIG)) /\
  minLifetime Triangle.CONFIG <= Triangle.lifetime d <= maxLifetime Triangle.CONFIG /\
  minSize Triangle.CONFIG <= Triangle.size d <= maxSize Triangle.CONFIG /\
  beside_center (Triangle.x d) /\ -1 <= Triangle.y d <= 1 /\
  -0.001 <= Triangle.rotationSpeed d <= 0.001.

(** The random numbers are in [[0, 1)] and every dot of the collection is
    [good]. *)
Definition sound {D : Type} (good : D -> Prop) (this : Instance D) (w : World)
    : Prop :=
  unit_randoms w /\ Forall good (dots this).

(** The size and the zoom of the window of [p]. *)
Definition window_of (p : Page) : R * R * R :=
  (innerWidth p, innerHeight p, devicePixelRatio p).

















(** * Properties *)

(** ** Numbers and arrays *)

Lemma ltb_true (a b : R) : ltb a b = true <-> a < b.
Proof.
  unfold ltb. destruct (Rlt_dec a b); split; intro H; auto; discriminate.
Qed.

Lemma ltb_false (a b : R) : ltb a b = false <-> b <= a.
Proof.
  unfold ltb. destruct (Rlt_dec a b); split; intro H; auto; try discriminate; lra.
Qed.

Lemma js_filter_length {A : Type} (f : A -> A * bool) (arr : list A) :
  (length (js_filter f arr) <= length arr)%nat.
Proof.
  induction arr as [|a rest IH]; simpl; [lia|].
  destruct (f a) as [a' [|]]; simpl; lia.
Qed.

(** A kept element is the updated version of an element the callback
    accepted. *)
Lemma js_filter_In {A : Type} (f : A -> A * bool) (arr : list A) (a' : A) :
  In a' (js_filter f arr) <-> exists a, In a arr /\ f a = (a', true).
Proof.
  induction arr as [|a rest IH]; simpl.
  - split; [tauto | intros [a [[] _]]].
  - destruct (f a) as [b keep] eqn:E. split.
    + intro H. destruct keep.
      * destruct H as [<- | H]; [exists a; auto|].
        apply IH in H. destruct H as [c [? ?]]. exists c; auto.
      * apply IH in H. destruct H as [c [? ?]]. exists c; auto.
    + intros [c [[<- | Hc] Hf]].
      * rewrite E in Hf. injection Hf as <- ->. left; reflexivity.
      * assert (In a' (js_filter f rest)) by (apply IH; exists c; auto).
        destruct keep; [right|]; assumption.
Qed.

(** ** Computations *)

(** What a loop keeps true of the instance and the world at each turn, it
    keeps true to its end. *)
Lemma for_loop_inv {S : Type} (I : S -> World -> Prop) (body : S -> M S) :
  (forall s w, I s w -> I (fst (body s w)) (snd (body s w))) ->
  forall n s w, I s w -> I (fst (for_loop n body s w)) (snd (for_loop n body s w)).
Proof.
  intros Hbody n. induction n as [|n IH]; intros s w H; simpl; [exact H|].
  unfold bind. specialize (Hbody s w H).
  destruct (body s w) as [s' w']. apply IH. exact Hbody.
Qed.

Lemma later_refl (w : World) : later w w.
Proof. unfold later; auto. Qed.

Lemma later_trans (w1 w2 w3 : World) : later w1 w2 -> later w2 w3 -> later w1 w3.
Proof.
  unfold later. intros (A1 & B1 & C1 & D1) (A2 & B2 & C2 & D2).
  repeat split; try congruence; lia.
Qed.

(** The steps of a computation, unfolded. *)
Ltac run :=
  unfold bind, ret, Math_random, performance_now, get_page, put_page, push;
  cbn [fst snd randoms nrandom clock nclock page dots lastSpawnTime canvas gl
       program animationId set_dots set_lastSpawnTime set_animationId
       set_canvas set_gl set_program body elements resizeListeners frames
       frameCounter console uncaught webgl compiles links innerWidth
       innerHeight devicePixelRatio element width height viewport
       program_used blendFunc negb option_map completed].

(** ** The size of the collection *)

Lemma for_loop_within (D : Type) (cap : nat)
    (body : Instance D -> M (Instance D)) (n : nat) :
  keeps_within D cap body -> keeps_within D cap (for_loop n body).
Proof.
  intros Hbody this w H.
  apply (for_loop_inv (fun s _ => within D cap s)); auto.
Qed.

Lemma fire_within (D : Type) (cap : nat)
    (loop : R -> Instance D -> M (Instance D)) (t : R) :
  keeps_within D cap (loop t) -> keeps_within D cap (fire loop t).
Proof.
  intros Hloop this w H. unfold fire. run.
  destruct (animationId this) as [h|]; [|exact H].
  destruct (in_dec Nat.eq_dec h (frames (page w))); [|exact H].
  unfold cancelAnimationFrame. run. apply Hloop, H.
Qed.

Lemma run_frames_within (D : Type) (cap : nat)
    (loop : R -> Instance D -> M (Instance D)) (times : list R) :
  (forall t, keeps_within D cap (loop t)) ->
  keeps_within D cap (run_frames loop times).
Proof.
  intros Hloop. induction times as [|t rest IH]; intros this w H; simpl.
  - exact H.
  - unfold bind. pose proof (fire_within D cap loop t (Hloop t) this w H) as H1.
    destruct (fire loop t this w) as [this1 w1]. apply IH, H1.
Qed.

(** *** Baseline *)

Lemma baseline_spawnDot_within :
  keeps_within Dot (maxDots Baseline.CONFIG) Baseline.spawnDot.
Proof.
  intros this w H. unfold within in *. unfold Baseline.spawnDot.
  destruct (Nat.leb_spec (maxDots Baseline.CONFIG) (length (dots this))) as [Hfull|Hroom].
  - exact H.
  - run. rewrite length_app. cbn [length]. lia.
Qed.

Lemma baseline_updateDots_within (now : R) :
  keeps_within Dot (maxDots Baseline.CONFIG) (Baseline.updateDots now).
Proof.
  intros this w H. unfold Baseline.updateDots.
  assert (Hf : within Dot (maxDots Baseline.CONFIG)
                 (set_dots this (js_filter (Baseline.alive now) (dots this)))).
  { unfold within in *. run.
    pose proof (js_filter_length (Baseline.alive now) (dots this)). lia. }
  set (this1 := set_dots this _) in *.
  destruct (gtb _ _); [|exact Hf].
  run. destruct (ltb _ 0.7).
  - pose proof (baseline_spawnDot_within this1
      (mkWorld (randoms w) (S (nrandom w)) (clock w) (nclock w) (page w)) Hf) as Hs.
    destruct (Baseline.spawnDot this1 _) as [this2 w2]. exact Hs.
  - exact Hf.
Qed.

Lemma baseline_loop_within (now : R) :
  keeps_within Dot (maxDots Baseline.CONFIG) (Baseline.loop now).
Proof.
  intros this w H. unfold Baseline.loop. run.
  pose proof (baseline_updateDots_within now this w H) as Hu.
  destruct (Baseline.updateDots now this w) as [this1 w1]. exact Hu.
Qed.

(** Neither [setupWebGL] nor [resize] nor [animate] touches the dots. *)
Lemma setupWebGL_dots {D : Type} (blend : BlendFactor * BlendFactor)
    (this : Instance D) (w : World) :
  dots (completed (fst (setupWebGL blend this w))) = dots this.
Proof.
  unfold setupWebGL, createShader, console_log. run.
  destruct (compiles (page w) VERTEX_SHADER); run;
    destruct (compiles (page w) FRAGMENT_SHADER); run; try reflexivity.
  destruct (links (page w)); run; [|reflexivity].
  destruct (gl this); reflexivity.
Qed.

Lemma resize_dots {D : Type} (this : Instance D) (w : World) :
  dots (fst (resize this w)) = dots this.
Proof.
  unfold resize. run. destruct (canvas this); [|reflexivity].
  simpl. destruct (gl this); reflexivity.
Qed.

Lemma animate_dots {D : Type} (this : Instance D) (w : World) :
  dots (fst (animate this w)) = dots this.
Proof. reflexivity. Qed.

Lemma baseline_new_dots (w : World) : dots (fst (Baseline.new w)) = [].
Proof.
  unfold Baseline.new, construct, Baseline.init, createElement, insertFirst. run.
  destruct (webgl (page w)); [|reflexivity].
  match goal with |- context [setupWebGL ?b ?t ?v] =>
    pose proof (setupWebGL_dots b t v) as H1;
    destruct (setupWebGL b t v) as [[this1|error this1] w1] end.
  - match goal with |- context [resize ?t ?v] =>
      pose proof (resize_dots t v) as H2;
      destruct (resize t v) as [this2 w2] end.
    unfold addResizeListener. run. simpl in *. congruence.
  - exact H1.
Qed.

(** *** Dots a computation appends *)

Lemma appends_refl {D : Type} (good : D -> Prop) (l : list D) : appends good l l.
Proof. exists []. rewrite app_nil_r. auto. Qed.

Lemma appends_trans {D : Type} (good : D -> Prop) (a b c : list D) :
  appends good a b -> appends good b c -> appends good a c.
Proof.
  intros [l1 [E1 F1]] [l2 [E2 F2]]. exists (l1 ++ l2). split.
  - rewrite E2, E1, app_assoc. reflexivity.
  - apply Forall_app; auto.
Qed.

Lemma appends_one {D : Type} (good : D -> Prop) (l : list D) (d : D) :
  good d -> appends good l (l ++ [d]).
Proof. intro H. exists [d]. split; [reflexivity | auto]. Qed.

Lemma appends_In {D : Type} (good : D -> Prop) (l l' : list D) (d : D) :
  appends good l l' -> In d l' -> In d l \/ good d.
Proof.
  intros [c [E F]] H. rewrite E in H. apply in_app_or in H.
  destruct H as [H|H]; [left; exact H | right].
  rewrite Forall_forall in F. auto.
Qed.

Lemma appends_impl {D : Type} (good good' : D -> Prop) (l l' : list D) :
  (forall d, good d -> good' d) -> appends good l l' -> appends good' l l'.
Proof.
  intros H [c [E F]]. exists c. split; [exact E|].
  eapply Forall_impl; eauto.
Qed.

(** A loop whose every turn appends good dots, in worlds that are [ok],
    appends good dots. *)
Lemma for_loop_appends {D : Type} (good : D -> Prop) (ok : World -> Prop)
    (body : Instance D -> M (Instance D)) :
  (forall s w, ok w ->
     appends good (dots s) (dots (fst (body s w))) /\ ok (snd (body s w))) ->
  forall n s w, ok w ->
    appends good (dots s) (dots (fst (for_loop n body s w))) /\
    ok (snd (for_loop n body s w)).
Proof.
  intros Hbody n s w Hw.
  apply (for_loop_inv (fun s' w' => appends good (dots s) (dots s') /\ ok w')).
  - intros s1 w1 [Ha Hok]. destruct (Hbody s1 w1 Hok) as [Hb Hok'].
    split; [eapply appends_trans; eauto | exact Hok'].
  - split; [apply appends_refl | exact Hw].
Qed.

(** A loop whose every turn adds one dot adds as many dots as it has turns. *)
Lemma for_loop_length {D : Type} (body : Instance D -> M (Instance D)) :
  (forall s w, length (dots (fst (body s w))) = S (length (dots s))) ->
  forall n s w,
    length (dots (fst (for_loop n body s w))) = (length (dots s) + n)%nat.
Proof.
  intros Hbody n. induction n as [|n IH]; intros s w; simpl.
  - unfold ret. simpl. lia.
  - unfold bind. specialize (Hbody s w).
    destruct (body s w) as [s' w']. rewrite IH. simpl in Hbody. lia.
Qed.

(** *** Festive *)

Lemma festive_targetDots : Math_floor (INR (maxDots Festive.CONFIG) * 0.7) = 6%Z.
Proof.
  unfold Math_floor. symmetry. apply Int_part_spec. simpl. lra.
Qed.

Lemma festive_prePopulateOne_length (t : R) (this : Instance Dot) (w : World) :
  length (dots (fst (Festive.prePopulateOne t this w))) = S (length (dots this)).
Proof.
  unfold Festive.prePopulateOne. run. rewrite length_app. cbn [length]. lia.
Qed.

Lemma festive_prePopulateDots_length (this : Instance Dot) (w : World) :
  length (dots (fst (Festive.prePopulateDots this w))) = (length (dots this) + 6)%nat.
Proof.
  unfold Festive.prePopulateDots. run. rewrite festive_targetDots.
  rewrite for_loop_length; [reflexivity|].
  intros; apply festive_prePopulateOne_length.
Qed.

Lemma festive_spawnDot_within :
  keeps_within Dot (maxDots Festive.CONFIG) Festive.spawnDot.
Proof.
  intros this w H. unfold within in *. unfold Festive.spawnDot.
  destruct (Nat.leb_spec (maxDots Festive.CONFIG) (length (dots this))) as [Hfull|Hroom].
  - exact H.
  - run. rewrite length_app. cbn [length]. lia.
Qed.

Lemma festive_spawnAttempt_within :
  keeps_within Dot (maxDots Festive.CONFIG) Festive.spawnAttempt.
Proof.
  intros this w H. unfold Festive.spawnAttempt. run.
  destruct (ltb _ 0.85); [|exact H].
  apply festive_spawnDot_within, H.
Qed.

Lemma festive_updateDots_within (now : R) :
  keeps_within Dot (maxDots Festive.CONFIG) (Festive.updateDots now).
Proof.
  intros this w H. unfold Festive.updateDots.
  assert (Hf : within Dot (maxDots Festive.CONFIG)
                 (set_dots this (js_filter (Festive.alive now) (dots this)))).
  { unfold within in *. run.
    pose proof (js_filter_length (Festive.alive now) (dots this)). lia. }
  set (this1 := set_dots this _) in *.
  destruct (gtb _ _); [|exact Hf].
  run.
  match goal with |- context [for_loop ?n ?b ?t ?v] =>
    pose proof (for_loop_within Dot _ b n festive_spawnAttempt_within t v Hf) as Hs;
    destruct (for_loop n b t v) as [this2 w2] end.
  exact Hs.
Qed.

Lemma festive_loop_within (now : R) :
  keeps_within Dot (maxDots Festive.CONFIG) (Festive.loop now).
Proof.
  intros this w H. unfold Festive.loop. run.
  pose proof (festive_updateDots_within now this w H) as Hu.
  destruct (Festive.updateDots now this w) as [this1 w1]. exact Hu.
Qed.

Lemma festive_new_within (w : World) :
  within Dot (maxDots Festive.CONFIG) (fst (Festive.new w)).
Proof.
  unfold within, Festive.new, construct, Festive.init, createElement, insertFirst. run.
  destruct (webgl (page w)); [|simpl; lia].
  match goal with |- context [setupWebGL ?b ?t ?v] =>
    pose proof (setupWebGL_dots b t v) as H1;
    destruct (setupWebGL b t v) as [[this1|error this1] w1] end.
  - match goal with |- context [resize ?t ?v] =>
      pose proof (resize_dots t v) as H2;
      destruct (resize t v) as [this2 w2] end.
    unfold addResizeListener. run.
    match goal with |- context [Festive.prePopulateDots ?t ?v] =>
      pose proof (festive_prePopulateDots_length t v) as H3;
      destruct (Festive.prePopulateDots t v) as [this3 w3] end.
    unfold animate, requestAnimationFrame. run. cbn [fst dots completed] in *.
    rewrite H3, H2, H1. simpl. lia.
  - unfold report_uncaught. run. cbn [completed fst] in H1. rewrite H1. simpl. lia.
Qed.

(** *** Triangle *)

Lemma triangle_targetDots : Math_floor (INR (maxDots Triangle.CONFIG) * 0.7) = 7%Z.
Proof.
  unfold Math_floor. symmetry. apply Int_part_spec. simpl. lra.
Qed.

Lemma triangle_prePopulateOne_length (t : R) (this : Instance Triangle.Dot) (w : World) :
  length (dots (fst (Triangle.prePopulateOne t this w))) = S (length (dots this)).
Proof.
  unfold Triangle.prePopulateOne, Triangle.getRandomX. run.
  destruct (ltb _ 0.5); run; rewrite length_app; cbn [length]; lia.
Qed.

Lemma triangle_prePopulateDots_length (this : Instance Triangle.Dot) (w : World) :
  length (dots (fst (Triangle.prePopulateDots this w))) = (length (dots this) + 7)%nat.
Proof.
  unfold Triangle.prePopulateDots. run. rewrite triangle_targetDots.
  rewrite for_loop_length; [reflexivity|].
  intros; apply triangle_prePopulateOne_length.
Qed.

Lemma triangle_spawnDot_within :
  keeps_within Triangle.Dot (maxDots Triangle.CONFIG) Triangle.spawnDot.
Proof.
  intros this w H. unfold within in *. unfold Triangle.spawnDot.
  destruct (Nat.leb_spec (maxDots Triangle.CONFIG) (length (dots this))) as [Hfull|Hroom].
  - exact H.
  - unfold Triangle.getRandomX. run.
    destruct (ltb _ 0.5); run; rewrite length_app; cbn [length]; lia.
Qed.

Lemma triangle_spawnAttempt_within :
  keeps_within Triangle.Dot (maxDots Triangle.CONFIG) Triangle.spawnAttempt.
Proof.
  intros this w H. unfold Triangle.spawnAttempt. run.
  destruct (ltb _ 0.85); [|exact H].
  apply triangle_spawnDot_within, H.
Qed.

Lemma triangle_updateDots_within (now : R) :
  keeps_within Triangle.Dot (maxDots Triangle.CONFIG) (Triangle.updateDots now).
Proof.
  intros this w H. unfold Triangle.updateDots.
  assert (Hf : within Triangle.Dot (maxDots Triangle.CONFIG)
                 (set_dots this (js_filter (Triangle.alive now) (dots this)))).
  { unfold within in *. run.
    pose proof (js_filter_length (Triangle.alive now) (dots this)). lia. }
  set (this1 := set_dots this _) in *.
  destruct (gtb _ _); [|exact Hf].
  run.
  match goal with |- context [for_loop ?n ?b ?t ?v] =>
    pose proof (for_loop_within Triangle.Dot _ b n triangle_spawnAttempt_within t v Hf) as Hs;
    destruct (for_loop n b t v) as [this2 w2] end.
  exact Hs.
Qed.

Lemma triangle_loop_within (now : R) :
  keeps_within Triangle.Dot (maxDots Triangle.CONFIG) (Triangle.loop now).
Proof.
  intros this w H. unfold Triangle.loop. run.
  pose proof (triangle_updateDots_within now this w H) as Hu.
  destruct (Triangle.updateDots now this w) as [this1 w1]. exact Hu.
Qed.

Lemma triangle_new_within (w : World) :
  within Triangle.Dot (maxDots Triangle.CONFIG) (fst (Triangle.new w)).
Proof.
  unfold within, Triangle.new, construct, Triangle.init, createElement, insertFirst. run.
  destruct (webgl (page w)); [|simpl; lia].
  match goal with |- context [setupWebGL ?b ?t ?v] =>
    pose proof (setupWebGL_dots b t v) as H1;
    destruct (setupWebGL b t v) as [[this1|error this1] w1] end.
  - match goal with |- context [resize ?t ?v] =>
      pose proof (resize_dots t v) as H2;
      destruct (resize t v) as [this2 w2] end.
    unfold addResizeListener. run.
    match goal with |- context [Triangle.prePopulateDots ?t ?v] =>
      pose proof (triangle_prePopulateDots_length t v) as H3;
      destruct (Triangle.prePopulateDots t v) as [this3 w3] end.
    unfold animate, requestAnimationFrame. run. cbn [fst dots completed] in *.
    rewrite H3, H2, H1. simpl. lia.
  - unfold report_uncaught. run. cbn [completed fst] in H1. rewrite H1. simpl. lia.
Qed.

(** *** The bound, in a session *)

Lemma session_within {D : Type} (cap : nat) (new : M (Instance D))
    (loop updateDots : R -> Instance D -> M (Instance D)) :
  (forall w, within D cap (fst (new w))) ->
  (forall t, keeps_within D cap (loop t)) ->
  (forall t, keeps_within D cap (updateDots t)) ->
  forall times now w, within D cap (fst (session new loop updateDots times now w)).
Proof.
  intros Hnew Hloop Hupd times now w. unfold session. run.
  specialize (Hnew w). destruct (new w) as [this0 w0].
  pose proof (run_frames_within D cap loop times Hloop this0 w0 Hnew) as H1.
  destruct (run_frames loop times this0 w0) as [this1 w1].
  apply Hupd, H1.
Qed.

(** C1.  In each variant, after any call of [updateDots] of a session
    (whatever the page, the random numbers, the clock, the number and times
    of the frames before it, and so whatever number of spawn attempts the
    call makes), the collection holds at most [maxDots] dots. *)
Theorem updateDots_at_most_maxDots :
  forall (w : World) (times : list R) (now : R),
    (length (dots (fst (session Baseline.new Baseline.loop Baseline.updateDots
                          times now w))) <= maxDots Baseline.CONFIG)%nat /\
    (length (dots (fst (session Festive.new Festive.loop Festive.updateDots
                          times now w))) <= maxDots Festive.CONFIG)%nat /\
    (length (dots (fst (session Triangle.new Triangle.loop Triangle.updateDots
                          times now w))) <= maxDots Triangle.CONFIG)%nat.
Proof.
  intros w times now. repeat split.
  - apply (session_within (maxDots Baseline.CONFIG)).
    + intro w0. unfold within. rewrite baseline_new_dots. simpl. lia.
    + exact baseline_loop_within.
    + exact baseline_updateDots_within.
  - apply (session_within (maxDots Festive.CONFIG)).
    + exact festive_new_within.
    + exact festive_loop_within.
    + exact festive_updateDots_within.
  - apply (session_within (maxDots Triangle.CONFIG)).
    + exact triangle_new_within.
    + exact triangle_loop_within.
    + exact triangle_updateDots_within.
Qed.

(** ** What a new dot looks like *)

Lemma later_unit_randoms (w w' : World) :
  later w w' -> unit_randoms w -> unit_randoms w'.
Proof. intros (E & _) H i. rewrite E. apply H. Qed.

(** For every call of [Math.random()] the goal mentions, what [H] says of
    its result. *)
Ltac unit_bounds H :=
  repeat match goal with
  | |- context [randoms ?w ?i] =>
      lazymatch goal with
      | _ : 0 <= randoms w i < 1 |- _ => fail
      | _ => pose proof (H i)
      end
  end.

Lemma spawned_later (cfg : Config) (w w' : World) (d : Dot) :
  later w w' -> spawned cfg w' d -> spawned cfg w d.
Proof.
  intros L H U. pose proof (later_unit_randoms w w' L U) as U'.
  destruct (H U') as (A & B & C & E & i & Hi & Hb).
  destruct L as (_ & Ec & _ & Hn).
  repeat split; try tauto. exists i. split; [lia | congruence].
Qed.

Lemma baseline_spawnDot_spec (this : Instance Dot) (w : World) :
  appends (spawned Baseline.CONFIG w) (dots this)
    (dots (fst (Baseline.spawnDot this w))) /\
  later w (snd (Baseline.spawnDot this w)).
Proof.
  unfold Baseline.spawnDot.
  destruct (maxDots Baseline.CONFIG <=? length (dots this))%nat.
  - split; [apply appends_refl | apply later_refl].
  - run. split.
    + apply appends_one. intro U. unit_bounds U.
      cbn [lifetime size x y birthTime Baseline.CONFIG minLifetime maxLifetime
           minSize maxSize].
      repeat split; try lra. exists (nclock w). auto.
    + unfold later. cbn. repeat split; lia.
Qed.

Lemma festive_spawnDot_spec (this : Instance Dot) (w : World) :
  appends (spawned Festive.CONFIG w) (dots this)
    (dots (fst (Festive.spawnDot this w))) /\
  later w (snd (Festive.spawnDot this w)).
Proof.
  unfold Festive.spawnDot.
  destruct (maxDots Festive.CONFIG <=? length (dots this))%nat.
  - split; [apply appends_refl | apply later_refl].
  - run. split.
    + apply appends_one. intro U. unit_bounds U.
      cbn [lifetime size x y birthTime Festive.CONFIG minLifetime maxLifetime
           minSize maxSize].
      repeat split; try lra. exists (nclock w). auto.
    + unfold later. cbn. repeat split; lia.
Qed.

Lemma festive_prePopulateOne_spec (t : R) (this : Instance Dot) (w : World) :
  appends (backdated Festive.CONFIG t w) (dots this)
    (dots (fst (Festive.prePopulateOne t this w))) /\
  later w (snd (Festive.prePopulateOne t this w)).
Proof.
  unfold Festive.prePopulateOne. run. split.
  - apply appends_one. intro U. unit_bounds U.
    cbn [lifetime size x y birthTime Festive.CONFIG minLifetime maxLifetime
         minSize maxSize].
    repeat split; try lra; nra.
  - unfold later. cbn. repeat split; lia.
Qed.

Lemma spawned_triangle_later (w w' : World) (d : Triangle.Dot) :
  later w w' -> spawned_triangle w' d -> spawned_triangle w d.
Proof.
  intros L H U. pose proof (later_unit_randoms w w' L U) as U'.
  destruct (H U') as (A & B & C & E & F & G & i & Hi & Hb).
  destruct L as (_ & Ec & _ & Hn).
  repeat split; try tauto. exists i. split; [lia | congruence].
Qed.

Lemma getRandomX_side_band (w : World) :
  unit_randoms w -> side_band (fst (Triangle.getRandomX w)).
Proof.
  intro U. unfold Triangle.getRandomX. run.
  destruct (ltb _ 0.5); run; unit_bounds U; unfold side_band; lra.
Qed.

Lemma triangle_spawnDot_spec (this : Instance Triangle.Dot) (w : World) :
  appends (spawned_triangle w) (dots this)
    (dots (fst (Triangle.spawnDot this w))) /\
  later w (snd (Triangle.spawnDot this w)).
Proof.
  unfold Triangle.spawnDot.
  destruct (maxDots Triangle.CONFIG <=? length (dots this))%nat.
  - split; [apply appends_refl | apply later_refl].
  - unfold Triangle.getRandomX. run.
    destruct (ltb _ 0.5); run.
    all: split; [| unfold later; cbn; repeat split; lia].
    all: apply appends_one; intro U; unit_bounds U; pose proof PI_RGT_0.
    all: cbn [Triangle.lifetime Triangle.size Triangle.x Triangle.y
              Triangle.birthTime Triangle.rotation Triangle.rotationSpeed
              Triangle.CONFIG minLifetime maxLifetime minSize maxSize].
    all: unfold side_band.
    all: repeat split; try lra; try nra.
    all: exists (nclock w); auto.
Qed.

Lemma triangle_prePopulateOne_spec (t : R) (this : Instance Triangle.Dot) (w : World) :
  appends (backdated_triangle t w) (dots this)
    (dots (fst (Triangle.prePopulateOne t this w))) /\
  later w (snd (Triangle.prePopulateOne t this w)).
Proof.
  unfold Triangle.prePopulateOne, Triangle.getRandomX. run.
  destruct (ltb _ 0.5); run.
  all: split; [| unfold later; cbn; repeat split; lia].
  all: apply appends_one; intro U; unit_bounds U; pose proof PI_RGT_0.
  all: cbn [Triangle.lifetime Triangle.size Triangle.x Triangle.y
            Triangle.birthTime Triangle.rotation Triangle.rotationSpeed
            Triangle.CONFIG minLifetime maxLifetime minSize maxSize].
  all: unfold side_band.
  all: repeat split; try lra; nra.
Qed.

(** ** Loops that append dots *)

Lemma for_loop_spec {D : Type} (good : World -> D -> Prop)
    (body : Instance D -> M (Instance D)) (w0 : World) :
  (forall w w' d, later w w' -> good w' d -> good w d) ->
  (forall s w, appends (good w) (dots s) (dots (fst (body s w))) /\
               later w (snd (body s w))) ->
  forall n s w, later w0 w ->
    appends (good w0) (dots s) (dots (fst (for_loop n body s w))) /\
    later w0 (snd (for_loop n body s w)).
Proof.
  intros Hmono Hbody n s w L.
  apply (for_loop_appends (good w0) (later w0)); [|exact L].
  intros s1 w1 L1. destruct (Hbody s1 w1) as [A B]. split.
  - eapply appends_impl; [|exact A]. intros d. apply Hmono, L1.
  - eapply later_trans; eauto.
Qed.

Lemma backdated_later (cfg : Config) (t : R) (w w' : World) (d : Dot) :
  later w w' -> backdated cfg t w' d -> backdated cfg t w d.
Proof.
  intros L H U. apply H. eapply later_unit_randoms; eauto.
Qed.

Lemma backdated_triangle_later (t : R) (w w' : World) (d : Triangle.Dot) :
  later w w' -> backdated_triangle t w' d -> backdated_triangle t w d.
Proof.
  intros L H U. apply H. eapply later_unit_randoms; eauto.
Qed.

Lemma later_clock_read (w : World) :
  later w (mkWorld (randoms w) (nrandom w) (clock w) (S (nclock w)) (page w)).
Proof. unfold later; cbn; repeat split; lia. Qed.

Lemma later_random_read (w : World) :
  later w (mkWorld (randoms w) (S (nrandom w)) (clock w) (nclock w) (page w)).
Proof. unfold later; cbn; repeat split; lia. Qed.

Lemma festive_prePopulateDots_spec (this : Instance Dot) (w : World) :
  appends (backdated Festive.CONFIG (clock w (nclock w)) w) (dots this)
    (dots (fst (Festive.prePopulateDots this w))) /\
  later w (snd (Festive.prePopulateDots this w)).
Proof.
  unfold Festive.prePopulateDots. run.
  apply (for_loop_spec (backdated Festive.CONFIG (clock w (nclock w)))).
  - intros; eapply backdated_later; eauto.
  - intros; apply festive_prePopulateOne_spec.
  - apply later_clock_read.
Qed.

Lemma triangle_prePopulateDots_spec (this : Instance Triangle.Dot) (w : World) :
  appends (backdated_triangle (clock w (nclock w)) w) (dots this)
    (dots (fst (Triangle.prePopulateDots this w))) /\
  later w (snd (Triangle.prePopulateDots this w)).
Proof.
  unfold Triangle.prePopulateDots. run.
  apply (for_loop_spec (backdated_triangle (clock w (nclock w)))).
  - intros; eapply backdated_triangle_later; eauto.
  - intros; apply triangle_prePopulateOne_spec.
  - apply later_clock_read.
Qed.

Lemma festive_spawnAttempt_spec (this : Instance Dot) (w : World) :
  appends (spawned Festive.CONFIG w) (dots this)
    (dots (fst (Festive.spawnAttempt this w))) /\
  later w (snd (Festive.spawnAttempt this w)).
Proof.
  unfold Festive.spawnAttempt. run. destruct (ltb _ 0.85).
  - match goal with |- context [Festive.spawnDot ?t ?v] =>
      destruct (festive_spawnDot_spec t v) as [A B] end.
    split.
    + eapply appends_impl; [|exact A].
      intro d. apply spawned_later, later_random_read.
    + eapply later_trans; [apply later_random_read | exact B].
  - split; [apply appends_refl | apply later_random_read].
Qed.

Lemma triangle_spawnAttempt_spec (this : Instance Triangle.Dot) (w : World) :
  appends (spawned_triangle w) (dots this)
    (dots (fst (Triangle.spawnAttempt this w))) /\
  later w (snd (Triangle.spawnAttempt this w)).
Proof.
  unfold Triangle.spawnAttempt. run. destruct (ltb _ 0.85).
  - match goal with |- context [Triangle.spawnDot ?t ?v] =>
      destruct (triangle_spawnDot_spec t v) as [A B] end.
    split.
    + eapply appends_impl; [|exact A].
      intro d. apply spawned_triangle_later, later_random_read.
    + eapply later_trans; [apply later_random_read | exact B].
  - split; [apply appends_refl | apply later_random_read].
Qed.

(** [updateDots] leaves the dots its filter kept and, after them, dots that
    [spawnDot] made. *)
Lemma baseline_updateDots_spec (now : R) (this : Instance Dot) (w : World) :
  appends (spawned Baseline.CONFIG w)
    (js_filter (Baseline.alive now) (dots this))
    (dots (fst (Baseline.updateDots now this w))) /\
  later w (snd (Baseline.updateDots now this w)).
Proof.
  unfold Baseline.updateDots. set (this1 := set_dots this _).
  destruct (gtb _ _); [|split; [apply appends_refl | apply later_refl]].
  run. destruct (ltb _ 0.7).
  - match goal with |- context [Baseline.spawnDot ?t ?v] =>
      destruct (baseline_spawnDot_spec t v) as [A B];
      destruct (Baseline.spawnDot t v) as [this2 w2] end.
    cbn [fst snd] in *. split.
    + eapply appends_impl; [|exact A].
      intro d. apply spawned_later, later_random_read.
    + eapply later_trans; [apply later_random_read | exact B].
  - split; [apply appends_refl | apply later_random_read].
Qed.

Lemma festive_updateDots_spec (now : R) (this : Instance Dot) (w : World) :
  appends (spawned Festive.CONFIG w)
    (js_filter (Festive.alive now) (dots this))
    (dots (fst (Festive.updateDots now this w))) /\
  later w (snd (Festive.updateDots now this w)).
Proof.
  unfold Festive.updateDots. set (this1 := set_dots this _).
  destruct (gtb _ _); [|split; [apply appends_refl | apply later_refl]].
  run.
  match goal with |- context [for_loop ?n ?b ?t ?v] =>
    destruct (for_loop_spec (spawned Festive.CONFIG) b w
                (spawned_later Festive.CONFIG) festive_spawnAttempt_spec
                n t v (later_refl w)) as [A B];
    destruct (for_loop n b t v) as [this2 w2] end.
  cbn [fst snd] in *. split; assumption.
Qed.

Lemma triangle_updateDots_spec (now : R) (this : Instance Triangle.Dot) (w : World) :
  appends (spawned_triangle w)
    (js_filter (Triangle.alive now) (dots this))
    (dots (fst (Triangle.updateDots now this w))) /\
  later w (snd (Triangle.updateDots now this w)).
Proof.
  unfold Triangle.updateDots. set (this1 := set_dots this _).
  destruct (gtb _ _); [|split; [apply appends_refl | apply later_refl]].
  run.
  match goal with |- context [for_loop ?n ?b ?t ?v] =>
    destruct (for_loop_spec spawned_triangle b w
                spawned_triangle_later triangle_spawnAttempt_spec
                n t v (later_refl w)) as [A B];
    destruct (for_loop n b t v) as [this2 w2] end.
  cbn [fst snd] in *. split; assumption.
Qed.

(** ** Expired dots *)

Lemma baseline_alive_kept (now : R) (l : list Dot) (d : Dot) :
  In d (js_filter (Baseline.alive now) l) <->
  In d l /\ now - birthTime d < lifetime d.
Proof.
  rewrite js_filter_In. unfold Baseline.alive. split.
  - intros [a [Ha E]]. injection E as <- E. apply ltb_true in E. auto.
  - intros [Hd E]. exists d. split; [exact Hd|].
    apply ltb_true in E. rewrite E. reflexivity.
Qed.

Lemma festive_alive_kept (now : R) (l : list Dot) (d : Dot) :
  In d (js_filter (Festive.alive now) l) <->
  In d l /\ now - birthTime d < lifetime d.
Proof.
  rewrite js_filter_In. unfold Festive.alive. split.
  - intros [a [Ha E]]. injection E as <- E. apply ltb_true in E. auto.
  - intros [Hd E]. exists d. split; [exact Hd|].
    apply ltb_true in E. rewrite E. reflexivity.
Qed.

(** The triangles the filter keeps are the live ones, rotated. *)
Lemma triangle_alive_kept (now : R) (l : list Triangle.Dot) (d : Triangle.Dot) :
  In d (js_filter (Triangle.alive now) l) <->
  exists a, In a l /\ now - Triangle.birthTime a < Triangle.lifetime a /\
            d = Triangle.rotate a.
Proof.
  rewrite js_filter_In. unfold Triangle.alive. split.
  - intros [a [Ha E]]. exists a.
    destruct (ltb _ _) eqn:Hl; [|discriminate].
    injection E as <-. apply ltb_true in Hl. auto.
  - intros [a [Ha [E ->]]]. exists a. split; [exact Ha|].
    apply ltb_true in E. rewrite E. reflexivity.
Qed.

Lemma spawned_alive (cfg : Config) (now : R) (w : World) (d : Dot) :
  0 < minLifetime cfg -> unit_randoms w -> fresh_clock now w ->
  spawned cfg w d -> now - birthTime d < lifetime d.
Proof.
  intros Hmin U C S. destruct (S U) as ([A _] & _ & _ & _ & i & Hi & Hb).
  specialize (C i Hi). lra.
Qed.

Lemma spawned_triangle_alive (now : R) (w : World) (d : Triangle.Dot) :
  unit_randoms w -> fresh_clock now w ->
  spawned_triangle w d -> now - Triangle.birthTime d < Triangle.lifetime d.
Proof.
  intros U C S. destruct (S U) as ([A _] & _ & _ & _ & _ & _ & i & Hi & Hb).
  specialize (C i Hi). cbn in A. lra.
Qed.

(** C2.  [updateDots(now)] retains of the collection only the dots its
    filter accepted, which are those of age less than their lifetime, and
    the others are dots it has just spawned.  So, when [Math.random()] is
    in [[0, 1)] and the clock read during the call is not before [now], every
    dot of the collection after the call has age less than its lifetime, and
    a dot of the collection before the call whose age had reached its
    lifetime is absent. *)
Theorem updateDots_drops_expired :
  forall (now : R) (w : World),
    ((forall this,
        appends (spawned Baseline.CONFIG w)
          (js_filter (Baseline.alive now) (dots this))
          (dots (fst (Baseline.updateDots now this w)))) /\
     (forall this,
        appends (spawned Festive.CONFIG w)
          (js_filter (Festive.alive now) (dots this))
          (dots (fst (Festive.updateDots now this w)))) /\
     (forall this,
        appends (spawned_triangle w)
          (js_filter (Triangle.alive now) (dots this))
          (dots (fst (Triangle.updateDots now this w))))) /\
    (unit_randoms w -> fresh_clock now w ->
     (forall this d,
        let after := dots (fst (Baseline.updateDots now this w)) in
        (In d after -> now - birthTime d < lifetime d) /\
        (In d (dots this) -> lifetime d <= now - birthTime d -> ~ In d after)) /\
     (forall this d,
        let after := dots (fst (Festive.updateDots now this w)) in
        (In d after -> now - birthTime d < lifetime d) /\
        (In d (dots this) -> lifetime d <= now - birthTime d -> ~ In d after)) /\
     (forall this d,
        let after := dots (fst (Triangle.updateDots now this w)) in
        (In d after -> now - Triangle.birthTime d < Triangle.lifetime d) /\
        (In d (dots this) ->
         Triangle.lifetime d <= now - Triangle.birthTime d -> ~ In d after))).
Proof.
  intros now w. split.
  - repeat split; intro this.
    + apply baseline_updateDots_spec.
    + apply festive_updateDots_spec.
    + apply triangle_updateDots_spec.
  - intros U C.
    assert (B : forall this d,
      In d (dots (fst (Baseline.updateDots now this w))) ->
      now - birthTime d < lifetime d).
    { intros this d H.
      destruct (appends_In _ _ _ d (proj1 (baseline_updateDots_spec now this w)) H)
        as [K|K].
      - apply baseline_alive_kept in K. tauto.
      - apply (spawned_alive Baseline.CONFIG now w); auto. cbn. lra. }
    assert (F : forall this d,
      In d (dots (fst (Festive.updateDots now this w))) ->
      now - birthTime d < lifetime d).
    { intros this d H.
      destruct (appends_In _ _ _ d (proj1 (festive_updateDots_spec now this w)) H)
        as [K|K].
      - apply festive_alive_kept in K. tauto.
      - apply (spawned_alive Festive.CONFIG now w); auto. cbn. lra. }
    assert (T : forall this d,
      In d (dots (fst (Triangle.updateDots now this w))) ->
      now - Triangle.birthTime d < Triangle.lifetime d).
    { intros this d H.
      destruct (appends_In _ _ _ d (proj1 (triangle_updateDots_spec now this w)) H)
        as [K|K].
      - apply triangle_alive_kept in K. destruct K as [a [_ [E ->]]]. exact E.
      - apply (spawned_triangle_alive now w); auto. }
    repeat split; intros.
    + apply B with this; assumption.
    + intro K. apply B in K. lra.
    + apply F with this; assumption.
    + intro K. apply F in K. lra.
    + apply T with this; assumption.
    + intro K. apply T in K. lra.
Qed.

(** ** The spawn clock *)

Lemma gtb_true (a b : R) : gtb a b = true <-> a > b.
Proof. unfold gtb. rewrite ltb_true. tauto. Qed.

(** When the filter accepts every element, it keeps as many. *)
Lemma js_filter_all {A : Type} (f : A -> A * bool) (arr : list A) :
  (forall a, In a arr -> snd (f a) = true) ->
  length (js_filter f arr) = length arr.
Proof.
  induction arr as [|a rest IH]; intro H; simpl; [reflexivity|].
  pose proof (H a (or_introl eq_refl)) as Ha.
  destruct (f a) as [a' keep]. simpl in Ha. subst keep. simpl.
  rewrite IH; [reflexivity|]. intros; apply H; right; assumption.
Qed.

(** A spawn loop whose gate always declines changes nothing of the
    instance. *)
Lemma festive_declined_loop (n : nat) (this : Instance Dot) (w : World) :
  declines 0.85 w -> fst (for_loop n Festive.spawnAttempt this w) = this.
Proof.
  intro H.
  apply (for_loop_inv (fun s w' => s = this /\ declines 0.85 w')
           Festive.spawnAttempt); [|auto].
  intros s w1 [-> H1]. unfold Festive.spawnAttempt. run.
  assert (E : ltb (randoms w1 (nrandom w1)) 0.85 = false).
  { apply ltb_false. apply H1. lia. }
  rewrite E. run. split; [reflexivity|].
  intros i Hi. cbn in *. apply H1. lia.
Qed.

Lemma triangle_declined_loop (n : nat) (this : Instance Triangle.Dot) (w : World) :
  declines 0.85 w -> fst (for_loop n Triangle.spawnAttempt this w) = this.
Proof.
  intro H.
  apply (for_loop_inv (fun s w' => s = this /\ declines 0.85 w')
           Triangle.spawnAttempt); [|auto].
  intros s w1 [-> H1]. unfold Triangle.spawnAttempt. run.
  assert (E : ltb (randoms w1 (nrandom w1)) 0.85 = false).
  { apply ltb_false. apply H1. lia. }
  rewrite E. run. split; [reflexivity|].
  intros i Hi. cbn in *. apply H1. lia.
Qed.

Lemma baseline_interval_elapsed (now : R) (this : Instance Dot) (w : World) :
  now - lastSpawnTime this > spawnInterval Baseline.CONFIG ->
  lastSpawnTime (fst (Baseline.updateDots now this w)) = now /\
  (declines 0.7 w ->
   dots (fst (Baseline.updateDots now this w))
   = js_filter (Baseline.alive now) (dots this)).
Proof.
  intro H. unfold Baseline.updateDots. run.
  apply gtb_true in H. rewrite H. run. split.
  - destruct (ltb _ 0.7).
    + destruct (Baseline.spawnDot _ _); reflexivity.
    + reflexivity.
  - intro G. assert (E : ltb (randoms w (nrandom w)) 0.7 = false).
    { apply ltb_false. apply G. lia. }
    rewrite E. reflexivity.
Qed.

Lemma festive_interval_elapsed (now : R) (this : Instance Dot) (w : World) :
  now - lastSpawnTime this > spawnInterval Festive.CONFIG ->
  lastSpawnTime (fst (Festive.updateDots now this w)) = now /\
  (declines 0.85 w ->
   dots (fst (Festive.updateDots now this w))
   = js_filter (Festive.alive now) (dots this)).
Proof.
  intro H. unfold Festive.updateDots. run.
  apply gtb_true in H. rewrite H. run. split.
  - destruct (for_loop _ _ _ _); reflexivity.
  - intro G.
    match goal with |- context [for_loop ?n ?b ?t ?v] =>
      pose proof (festive_declined_loop n t v G) as E;
      destruct (for_loop n b t v) as [this2 w2] end.
    cbn in *. subst this2. reflexivity.
Qed.

Lemma triangle_interval_elapsed (now : R) (this : Instance Triangle.Dot) (w : World) :
  now - lastSpawnTime this > spawnInterval Triangle.CONFIG ->
  lastSpawnTime (fst (Triangle.updateDots now this w)) = now /\
  (declines 0.85 w ->
   dots (fst (Triangle.updateDots now this w))
   = js_filter (Triangle.alive now) (dots this)).
Proof.
  intro H. unfold Triangle.updateDots. run.
  apply gtb_true in H. rewrite H. run. split.
  - destruct (for_loop _ _ _ _); reflexivity.
  - intro G.
    match goal with |- context [for_loop ?n ?b ?t ?v] =>
      pose proof (triangle_declined_loop n t v G) as E;
      destruct (for_loop n b t v) as [this2 w2] end.
    cbn in *. subst this2. reflexivity.
Qed.

(** A dot that the filter refuses makes the array shorter. *)
Lemma js_filter_some {A : Type} (f : A -> A * bool) (arr : list A) :
  (exists a, In a arr /\ snd (f a) = false) ->
  (length (js_filter f arr) < length arr)%nat.
Proof.
  induction arr as [|a rest IH]; intros [b [Hb Hf]]; [destruct Hb|].
  simpl. pose proof (js_filter_length f rest) as L.
  destruct (f a) as [a' keep] eqn:E. destruct keep; simpl; [|lia].
  destruct Hb as [<- | Hb].
  - rewrite E in Hf. discriminate Hf.
  - assert (length (js_filter f rest) < length rest)%nat by (apply IH; eauto).
    lia.
Qed.

(** C5, as stated, fails: at time 10000, on a festive collection of one
    dot, born at 0 with a lifetime of 3000, and with the random numbers all
    0.9, the interval has passed and the gate declines at every attempt,
    yet the size of the collection changes, from 1 to 0: the filter of the
    same call drops the dot. *)
Lemma declined_update_changes_size :
  let this := set_dots (fresh Dot) [festive_dot] in
  let after := fst (Festive.updateDots 10000 this world_declined) in
  10000 - lastSpawnTime this > spawnInterval Festive.CONFIG /\
  declines 0.85 world_declined /\
  length (dots this) = 1%nat /\
  length (dots after) = 0%nat /\
  lastSpawnTime after = 10000.
Proof.
  intros this after.
  assert (H : 10000 - lastSpawnTime this > spawnInterval Festive.CONFIG)
    by (cbn; lra).
  assert (G : declines 0.85 world_declined) by (intros i _; cbn; lra).
  destruct (festive_interval_elapsed 10000 this world_declined H) as [L K].
  split; [exact H|]. split; [exact G|]. split; [reflexivity|].
  split; [|exact L].
  unfold after. rewrite (K G). cbn [this set_dots dots js_filter].
  unfold Festive.alive.
  assert (E : ltb (10000 - birthTime festive_dot) (lifetime festive_dot) = false)
    by (apply ltb_false; cbn; lra).
  rewrite E. reflexivity.
Qed.

(** C5, amended.  In each variant, a call of [updateDots(now)] made when
    more than [spawnInterval] has passed since [lastSpawnTime] sets
    [lastSpawnTime] to [now], whatever the random numbers.  When moreover
    the gate declines at every attempt, no dot is added: the collection is
    what the filter of expired dots left, so an empty collection stays
    empty, the size is the one before the call when no dot had expired, and
    it is less when a dot had. *)
Theorem lastSpawnTime_reset_on_interval :
  forall (now : R) (w : World),
    (forall this,
       now - lastSpawnTime this > spawnInterval Baseline.CONFIG ->
       let after := fst (Baseline.updateDots now this w) in
       lastSpawnTime after = now /\
       (declines 0.7 w ->
        dots after = js_filter (Baseline.alive now) (dots this) /\
        (dots this = [] -> dots after = []) /\
        ((forall d, In d (dots this) -> now - birthTime d < lifetime d) ->
         length (dots after) = length (dots this)) /\
        ((exists d, In d (dots this) /\ lifetime d <= now - birthTime d) ->
         (length (dots after) < length (dots this))%nat))) /\
    (forall this,
       now - lastSpawnTime this > spawnInterval Festive.CONFIG ->
       let after := fst (Festive.updateDots now this w) in
       lastSpawnTime after = now /\
       (declines 0.85 w ->
        dots after = js_filter (Festive.alive now) (dots this) /\
        (dots this = [] -> dots after = []) /\
        ((forall d, In d (dots this) -> now - birthTime d < lifetime d) ->
         length (dots after) = length (dots this)) /\
        ((exists d, In d (dots this) /\ lifetime d <= now - birthTime d) ->
         (length (dots after) < length (dots this))%nat))) /\
    (forall this,
       now - lastSpawnTime this > spawnInterval Triangle.CONFIG ->
       let after := fst (Triangle.updateDots now this w) in
       lastSpawnTime after = now /\
       (declines 0.85 w ->
        dots after = js_filter (Triangle.alive now) (dots this) /\
        (dots this = [] -> dots after = []) /\
        ((forall d, In d (dots this) ->
            now - Triangle.birthTime d < Triangle.lifetime d) ->
         length (dots after) = length (dots this)) /\
        ((exists d, In d (dots this) /\
            Triangle.lifetime d <= now - Triangle.birthTime d) ->
         (length (dots after) < length (dots this))%nat))).
Proof.
  intros now w. split; [|split]; intros this H after.
  - destruct (baseline_interval_elapsed now this w H) as [L K].
    split; [exact L|]. intro G. specialize (K G). fold after in K.
    split; [exact K|]. split; [|split].
    + intro E. rewrite K, E. reflexivity.
    + intro A. rewrite K. apply js_filter_all. intros a Ha.
      unfold Baseline.alive. cbn. apply ltb_true, A, Ha.
    + intros [d [Hd Hx]]. rewrite K. apply js_filter_some. exists d.
      split; [exact Hd|]. unfold Baseline.alive. cbn. apply ltb_false, Hx.
  - destruct (festive_interval_elapsed now this w H) as [L K].
    split; [exact L|]. intro G. specialize (K G). fold after in K.
    split; [exact K|]. split; [|split].
    + intro E. rewrite K, E. reflexivity.
    + intro A. rewrite K. apply js_filter_all. intros a Ha.
      unfold Festive.alive. cbn. apply ltb_true, A, Ha.
    + intros [d [Hd Hx]]. rewrite K. apply js_filter_some. exists d.
      split; [exact Hd|]. unfold Festive.alive. cbn. apply ltb_false, Hx.
  - destruct (triangle_interval_elapsed now this w H) as [L K].
    split; [exact L|]. intro G. specialize (K G). fold after in K.
    split; [exact K|]. split; [|split].
    + intro E. rewrite K, E. reflexivity.
    + intro A. rewrite K. apply js_filter_all. intros a Ha.
      unfold Triangle.alive. apply A, ltb_true in Ha. rewrite Ha. reflexivity.
    + intros [d [Hd Hx]]. rewrite K. apply js_filter_some. exists d.
      split; [exact Hd|]. unfold Triangle.alive.
      apply ltb_false in Hx. rewrite Hx. reflexivity.
Qed.

(** ** A full collection *)

(** C6.  In each variant, [spawnDot()] on a collection of [maxDots] dots or
    more returns at once: the instance, and with it the collection, and the
    world (no random number is drawn, the clock is not read) are as before. *)
Theorem spawnDot_full_noop :
  forall (w : World),
    (forall this, (maxDots Baseline.CONFIG <= length (dots this))%nat ->
       Baseline.spawnDot this w = (this, w)) /\
    (forall this, (maxDots Festive.CONFIG <= length (dots this))%nat ->
       Festive.spawnDot this w = (this, w)) /\
    (forall this, (maxDots Triangle.CONFIG <= length (dots this))%nat ->
       Triangle.spawnDot this w = (this, w)).
Proof.
  intro w. repeat split; intros this H.
  - unfold Baseline.spawnDot. apply Nat.leb_le in H. rewrite H. reflexivity.
  - unfold Festive.spawnDot. apply Nat.leb_le in H. rewrite H. reflexivity.
  - unfold Triangle.spawnDot. apply Nat.leb_le in H. rewrite H. reflexivity.
Qed.

(** ** Pre-population *)

(** C7.  [prePopulateDots()] of the festive variant, whose [maxDots] is 9,
    appends exactly floor(9 * 0.7) = 6 dots, whatever the random numbers of
    [[0, 1)]; each has its birth time at or before the time [currentTime]
    the method read from the clock, and an age then of at most 0.8 of its
    lifetime. *)
Theorem festive_prePopulateDots_six :
  forall (this : Instance Dot) (w : World),
    unit_randoms w ->
    let currentTime := clock w (nclock w) in
    maxDots Festive.CONFIG = 9%nat /\
    Math_floor (INR 9 * 0.7) = 6%Z /\
    exists created,
      dots (fst (Festive.prePopulateDots this w)) = dots this ++ created /\
      length created = 6%nat /\
      Forall (fun d => birthTime d <= currentTime /\
                       currentTime - birthTime d <= 0.8 * lifetime d) created.
Proof.
  intros this w U currentTime.
  split; [reflexivity|]. split; [exact festive_targetDots|].
  destruct (proj1 (festive_prePopulateDots_spec this w)) as [created [E F]].
  exists created. split; [exact E|]. split.
  - pose proof (festive_prePopulateDots_length this w) as L.
    rewrite E, length_app in L. lia.
  - eapply Forall_impl; [|exact F].
    intros d B. destruct (B U) as (_ & _ & _ & _ & Hb & Ha). auto.
Qed.

(** ** The side bands of the triangles *)

(** C4, as stated, fails: with the random numbers of [world_center], all in
    [[0, 1)], [spawnDot()] on the empty collection makes a triangle whose
    [x] is 0.333, which is in the band [[-1/3, 1/3]]. *)
Lemma spawnDot_x_in_center_third :
  unit_randoms world_center /\
  exists d,
    dots (fst (Triangle.spawnDot (fresh Triangle.Dot) world_center)) = [d] /\
    Triangle.x d = 0.333 /\
    -1 / 3 <= Triangle.x d <= 1 / 3.
Proof.
  split.
  - intro i. cbn. destruct (Nat.eqb i 2); lra.
  - unfold Triangle.spawnDot, Triangle.getRandomX. cbn [fresh dots length].
    change (maxDots Triangle.CONFIG <=? 0)%nat with false. run.
    cbn [world_center randoms nrandom Nat.eqb].
    destruct (ltb (1 / 2) 0.5) eqn:E.
    + apply ltb_true in E. lra.
    + run. cbn [world_center randoms nrandom Nat.eqb fresh dots app].
      eexists. split; [reflexivity|].
      cbn [Triangle.x]. split; lra.
Qed.

Lemma side_band_beside_center (x : R) : side_band x -> beside_center x.
Proof. unfold side_band, beside_center. lra. Qed.

(** C4, amended.  When [Math.random()] is in [[0, 1)], [getRandomX()]
    returns a number of the left side interval [[-1, -0.333]] or of the
    right side interval [[0.333, 1]], so never a number strictly inside the
    center band of the code, from -0.333 to 0.333; and so is the [x] of
    every triangle that [spawnDot()] or [prePopulateDots()] appends; the
    [y] of these triangles is in [[-1, 1]]. *)
Theorem triangle_x_in_side_bands :
  forall (this : Instance Triangle.Dot) (w : World),
    unit_randoms w ->
    (beside_center (fst (Triangle.getRandomX w)) /\
     ~ (-0.333 < fst (Triangle.getRandomX w) < 0.333)) /\
    appends (fun d => beside_center (Triangle.x d) /\
                      ~ (-0.333 < Triangle.x d < 0.333) /\
                      -1 <= Triangle.y d <= 1)
      (dots this) (dots (fst (Triangle.spawnDot this w))) /\
    appends (fun d => beside_center (Triangle.x d) /\
                      ~ (-0.333 < Triangle.x d < 0.333) /\
                      -1 <= Triangle.y d <= 1)
      (dots this) (dots (fst (Triangle.prePopulateDots this w))).
Proof.
  intros this w U. split; [|split].
  - pose proof (getRandomX_side_band w U) as X.
    split; [apply side_band_beside_center, X | unfold side_band in X; lra].
  - eapply appends_impl; [|apply triangle_spawnDot_spec].
    intros d S. destruct (S U) as (_ & _ & X & Y & _).
    split; [apply side_band_beside_center, X|].
    split; [unfold side_band in X; lra | lra].
  - eapply appends_impl; [|apply triangle_prePopulateDots_spec].
    intros d S. destruct (S U) as (_ & _ & X & Y & _).
    split; [apply side_band_beside_center, X|].
    split; [unfold side_band in X; lra | lra].
Qed.

(** ** The fade curve *)

Lemma progress_unit (age lifetime : R) :
  0 < lifetime -> 0 <= age <= lifetime -> 0 <= age / lifetime <= 1.
Proof.
  intros HL [H0 H1]. pose proof (Rinv_0_lt_compat lifetime HL) as Hi.
  assert (E : lifetime * / lifetime = 1) by (apply Rinv_r; lra).
  unfold Rdiv. split; nra.
Qed.

(** The envelope of a live dot is in [[0, 1]]. *)
Lemma envelope_unit (age lifetime : R) :
  0 < lifetime -> 0 <= age <= lifetime -> 0 <= sin (age / lifetime * PI) <= 1.
Proof.
  intros HL HA. destruct (progress_unit age lifetime HL HA) as [P0 P1].
  pose proof PI_RGT_0. split.
  - apply sin_ge_0; nra.
  - apply SIN_bound.
Qed.

(** The twinkle factor is in [[0.9, 1.1]]. *)
Lemma twinkle_range (age : R) : 0.9 <= 1 + sin (age * 0.01) * 0.1 <= 1.1.
Proof. pose proof (SIN_bound (age * 0.01)). lra. Qed.

Lemma envelope_values (lifetime : R) :
  lifetime <> 0 ->
  sin (0 / lifetime * PI) = 0 /\
  sin (lifetime / 2 / lifetime * PI) = 1 /\
  sin (lifetime / lifetime * PI) = 0.
Proof.
  intro HL. repeat split.
  - replace (0 / lifetime * PI) with 0 by (field; exact HL). apply sin_0.
  - replace (lifetime / 2 / lifetime * PI) with (PI / 2) by (field; exact HL).
    apply sin_PI2.
  - replace (lifetime / lifetime * PI) with PI by (field; exact HL).
    apply sin_PI.
Qed.

(** C3.  In each variant the fade envelope that [calculateAlpha] computes
    is sin(pi * age / lifetime), with age = now - birthTime: it is 0 at age
    0, 1 at half the lifetime and 0 at the lifetime.  The baseline variant
    returns the envelope; the festive and triangle variants return it
    multiplied by 1 + 0.1 * sin(0.01 * age). *)
Theorem calculateAlpha_envelope :
  forall (now : R),
    (forall d : Dot,
       let age := now - birthTime d in
       Baseline.calculateAlpha d now = sin (PI * (age / lifetime d)) /\
       Festive.baseAlpha d now = sin (PI * (age / lifetime d)) /\
       Festive.calculateAlpha d now
       = sin (PI * (age / lifetime d)) * (1 + 0.1 * sin (0.01 * age)) /\
       (lifetime d <> 0 ->
        (age = 0 ->
         Baseline.calculateAlpha d now = 0 /\ Festive.baseAlpha d now = 0) /\
        (age = lifetime d / 2 ->
         Baseline.calculateAlpha d now = 1 /\ Festive.baseAlpha d now = 1) /\
        (age = lifetime d ->
         Baseline.calculateAlpha d now = 0 /\ Festive.baseAlpha d now = 0))) /\
    (forall d : Triangle.Dot,
       let age := now - Triangle.birthTime d in
       Triangle.baseAlpha d now = sin (PI * (age / Triangle.lifetime d)) /\
       Triangle.calculateAlpha d now
       = sin (PI * (age / Triangle.lifetime d)) * (1 + 0.1 * sin (0.01 * age)) /\
       (Triangle.lifetime d <> 0 ->
        (age = 0 -> Triangle.baseAlpha d now = 0) /\
        (age = Triangle.lifetime d / 2 -> Triangle.baseAlpha d now = 1) /\
        (age = Triangle.lifetime d -> Triangle.baseAlpha d now = 0))).
Proof.
  intro now. split.
  - intros d age.
    unfold Baseline.calculateAlpha, Festive.calculateAlpha, Festive.baseAlpha,
      Festive.twinkle.
    fold age.
    assert (E1 : age / lifetime d * PI = PI * (age / lifetime d)) by ring.
    assert (E2 : sin (age * 0.01) * 0.1 = 0.1 * sin (0.01 * age))
      by (rewrite (Rmult_comm age); ring).
    rewrite E1, E2. split; [reflexivity|]. split; [reflexivity|].
    split; [reflexivity|].
    intro HL. rewrite <- E1.
    destruct (envelope_values (lifetime d) HL) as (V0 & V1 & V2).
    split; [|split]; intro E; rewrite E; auto.
  - intros d age.
    unfold Triangle.calculateAlpha, Triangle.baseAlpha, Triangle.twinkle.
    fold age.
    assert (E1 : age / Triangle.lifetime d * PI = PI * (age / Triangle.lifetime d))
      by ring.
    assert (E2 : sin (age * 0.01) * 0.1 = 0.1 * sin (0.01 * age))
      by (rewrite (Rmult_comm age); ring).
    rewrite E1, E2. split; [reflexivity|]. split; [reflexivity|].
    intro HL. rewrite <- E1.
    destruct (envelope_values (Triangle.lifetime d) HL) as (V0 & V1 & V2).
    split; [|split]; intro E; rewrite E; auto.
Qed.

(** *** How bright a dot can get *)

Lemma PI_lt_33 : PI < 3.3.
Proof.
  destruct (PI_ineq 3) as [_ H].
  unfold sum_f_R0, tg_alt, PI_tg in H. simpl in H. lra.
Qed.

Lemma PI_gt_3 : 3 < PI.
Proof. pose proof PI2_3_2. lra. Qed.

Lemma sin_shift (a : R) (k : nat) : sin a = sin (a - 2 * INR k * PI).
Proof.
  rewrite <- (sin_period (a - 2 * INR k * PI) k). f_equal. ring.
Qed.

Lemma sin_15_pos : 0 < sin 15.
Proof.
  pose proof PI_lt_33. pose proof PI_gt_3.
  rewrite (sin_shift 15 2). apply sin_gt_0; simpl; lra.
Qed.

Lemma sin_20_pos : 0 < sin 20.
Proof.
  pose proof PI_lt_33. pose proof PI_gt_3.
  rewrite (sin_shift 20 3). apply sin_gt_0; simpl; lra.
Qed.

Lemma festive_alpha_above_1 : 1 < Festive.calculateAlpha festive_dot 1500.
Proof.
  unfold Festive.calculateAlpha, Festive.baseAlpha, Festive.twinkle, festive_dot.
  cbn [birthTime lifetime].
  replace ((1500 - 0) / 3000 * PI) with (PI / 2) by field.
  replace ((1500 - 0) * 0.01) with 15 by lra.
  rewrite sin_PI2. pose proof sin_15_pos. lra.
Qed.

Lemma triangle_alpha_above_1 : 1 < Triangle.calculateAlpha triangle_dot 2000.
Proof.
  unfold Triangle.calculateAlpha, Triangle.baseAlpha, Triangle.twinkle, triangle_dot.
  cbn [Triangle.birthTime Triangle.lifetime].
  replace ((2000 - 0) / 4000 * PI) with (PI / 2) by field.
  replace ((2000 - 0) * 0.01) with 20 by lra.
  rewrite sin_PI2. pose proof sin_20_pos. lra.
Qed.

(** C10.  In the festive and triangle variants, [calculateAlpha] of a dot
    of age between 0 and its lifetime is in [[0, 1.1]]: never negative, and
    it does exceed 1, as for the dots [festive_dot] and [triangle_dot] at
    half their lifetime. *)
Theorem calculateAlpha_range :
  (forall (d : Dot) (now : R),
     0 < lifetime d -> 0 <= now - birthTime d <= lifetime d ->
     0 <= Festive.calculateAlpha d now <= 1.1) /\
  (forall (d : Triangle.Dot) (now : R),
     0 < Triangle.lifetime d ->
     0 <= now - Triangle.birthTime d <= Triangle.lifetime d ->
     0 <= Triangle.calculateAlpha d now <= 1.1) /\
  (0 <= 1500 - birthTime festive_dot <= lifetime festive_dot /\
   lifetime festive_dot = minLifetime Festive.CONFIG /\
   1 < Festive.calculateAlpha festive_dot 1500) /\
  (0 <= 2000 - Triangle.birthTime triangle_dot <= Triangle.lifetime triangle_dot /\
   Triangle.lifetime triangle_dot = minLifetime Triangle.CONFIG /\
   1 < Triangle.calculateAlpha triangle_dot 2000).
Proof.
  split; [|split; [|split]].
  - intros d now HL HA.
    unfold Festive.calculateAlpha, Festive.baseAlpha, Festive.twinkle.
    pose proof (envelope_unit _ _ HL HA).
    pose proof (twinkle_range (now - birthTime d)). nra.
  - intros d now HL HA.
    unfold Triangle.calculateAlpha, Triangle.baseAlpha, Triangle.twinkle.
    pose proof (envelope_unit _ _ HL HA).
    pose proof (twinkle_range (now - Triangle.birthTime d)). nra.
  - split; [cbn; lra|]. split; [reflexivity | exact festive_alpha_above_1].
  - split; [cbn; lra|]. split; [reflexivity | exact triangle_alpha_above_1].
Qed.

(** ** The page *)

(** The page operations, unfolded. *)
Ltac run_page :=
  unfold construct, createElement, insertFirst, removeChild, hasParent,
    addResizeListener, requestAnimationFrame, cancelAnimationFrame,
    console_log, report_uncaught, setupWebGL, createShader, resize, animate,
    fresh, newGL;
  run.

(** The steps of [setupWebGL] when the two shaders compile. *)
Ltac compile_shaders C :=
  rewrite (C VERTEX_SHADER); run_page; rewrite (C FRAGMENT_SHADER); run_page.

(** The steps of [setupWebGL], shader by shader: the case in which the two
    shaders compile comes first. *)
Ltac shader_cases :=
  destruct (compiles (page _) VERTEX_SHADER); run_page;
  destruct (compiles (page _) FRAGMENT_SHADER); run_page.

(** No frame of an instance without an animation handle ever runs. *)
Lemma run_frames_inert {D : Type} (loop : R -> Instance D -> M (Instance D))
    (times : list R) (this : Instance D) (w : World) :
  animationId this = None -> run_frames loop times this w = (this, w).
Proof.
  intro H. induction times as [|t rest IH]; [reflexivity|].
  simpl. unfold bind, fire, get_page. rewrite H. exact IH.
Qed.

(** C9.  When [getContext('webgl')] gives no context, the constructor of
    each variant inserts the canvas, logs one warning and returns: no
    program is set up, no [resize] listener is registered, no dot is made
    (no random number is drawn, the clock is not read), no frame is
    requested.  The instance is inert from then on: whatever frames the
    browser runs later, none calls it, and it and the world stay as they
    are. *)
Theorem init_without_webgl :
  forall (w : World),
    webgl (page w) = false ->
    let e := elements (page w) in
    (Baseline.new w
     = (disabled Dot e,
        after_failed_init "WebGL not supported, polkadot effect disabled" w) /\
     Festive.new w
     = (disabled Dot e,
        after_failed_init "WebGL not supported, polkadot effect disabled" w) /\
     Triangle.new w
     = (disabled Triangle.Dot e,
        after_failed_init "WebGL not supported, triangle effect disabled" w)) /\
    (forall times w',
       run_frames Baseline.loop times (disabled Dot e) w' = (disabled Dot e, w') /\
       run_frames Festive.loop times (disabled Dot e) w' = (disabled Dot e, w') /\
       run_frames Triangle.loop times (disabled Triangle.Dot e) w'
       = (disabled Triangle.Dot e, w')).
Proof.
  intros w H e. split; [split; [|split]|].
  - unfold Baseline.new, Baseline.init, after_failed_init, disabled. run_page.
    rewrite H. reflexivity.
  - unfold Festive.new, Festive.init, after_failed_init, disabled. run_page.
    rewrite H. reflexivity.
  - unfold Triangle.new, Triangle.init, after_failed_init, disabled. run_page.
    rewrite H. reflexivity.
  - intros times w'. repeat split; apply run_frames_inert; reflexivity.
Qed.

(** *** Construction with a WebGL context *)

Lemma for_loop_dots_only {D : Type} (body : Instance D -> M (Instance D))
    (n : nat) :
  (forall s w, dots_only s w (body s w)) ->
  forall s w, dots_only s w (for_loop n body s w).
Proof.
  intros Hbody s w.
  apply (for_loop_inv (fun s' w' => dots_only s w (s', w'))).
  - intros s1 w1 (A & B & C & E & F & G).
    destruct (Hbody s1 w1) as (A' & B' & C' & E' & F' & G').
    unfold dots_only in *. cbn [fst snd] in *.
    repeat split; congruence.
  - unfold dots_only. cbn. auto 10.
Qed.

Lemma festive_prePopulateDots_dots_only (this : Instance Dot) (w : World) :
  dots_only this w (Festive.prePopulateDots this w).
Proof.
  unfold Festive.prePopulateDots. run.
  match goal with |- dots_only _ _ (for_loop ?n ?b ?t ?v) =>
    assert (H : dots_only t v (for_loop n b t v)) end.
  { apply for_loop_dots_only. intros s w1.
    unfold dots_only, Festive.prePopulateOne. run. auto 10. }
  exact H.
Qed.

Lemma triangle_prePopulateDots_dots_only (this : Instance Triangle.Dot) (w : World) :
  dots_only this w (Triangle.prePopulateDots this w).
Proof.
  unfold Triangle.prePopulateDots. run.
  match goal with |- dots_only _ _ (for_loop ?n ?b ?t ?v) =>
    assert (H : dots_only t v (for_loop n b t v)) end.
  { apply for_loop_dots_only. intros s w1.
    unfold dots_only, Triangle.prePopulateOne, Triangle.getRandomX. run.
    destruct (ltb _ 0.5); run; auto 10. }
  exact H.
Qed.

Lemma baseline_new_effect (w : World) :
  webgl (page w) = true -> shaders_compile (page w) ->
  page (snd (Baseline.new w)) = after_init (page w) /\
  constructed (page w) (fst (Baseline.new w)).
Proof.
  intros H C. unfold Baseline.new, Baseline.init, after_init, constructed.
  run_page. rewrite H. run_page. compile_shaders C.
  destruct (links (page w)); run_page; auto.
Qed.

Lemma festive_new_effect (w : World) :
  webgl (page w) = true -> shaders_compile (page w) ->
  page (snd (Festive.new w)) = after_init (page w) /\
  constructed (page w) (fst (Festive.new w)).
Proof.
  intros H C. unfold Festive.new, Festive.init, after_init, constructed.
  run_page. rewrite H. run_page. compile_shaders C.
  destruct (links (page w)); run_page.
  all: match goal with |- context [Festive.prePopulateDots ?t ?v] =>
         destruct (festive_prePopulateDots_dots_only t v) as (A & _ & _ & _ & F & G);
         destruct (Festive.prePopulateDots t v) as [this3 w3] end.
  all: cbn [fst snd] in *; run_page; rewrite G, A; run_page; auto.
Qed.

Lemma triangle_new_effect (w : World) :
  webgl (page w) = true -> shaders_compile (page w) ->
  page (snd (Triangle.new w)) = after_init (page w) /\
  constructed (page w) (fst (Triangle.new w)).
Proof.
  intros H C. unfold Triangle.new, Triangle.init, after_init, constructed.
  run_page. rewrite H. run_page. compile_shaders C.
  destruct (links (page w)); run_page.
  all: match goal with |- context [Triangle.prePopulateDots ?t ?v] =>
         destruct (triangle_prePopulateDots_dots_only t v) as (A & _ & _ & _ & F & G);
         destruct (Triangle.prePopulateDots t v) as [this3 w3] end.
  all: cbn [fst snd] in *; run_page; rewrite G, A; run_page; auto.
Qed.

(** *** Destruction *)

Lemma remove_twice (a : nat) (l : list nat) :
  remove Nat.eq_dec a (remove Nat.eq_dec a l) = remove Nat.eq_dec a l.
Proof. apply notin_remove, remove_In. Qed.

Lemma destroy_effect {D : Type} (this : Instance D) (w : World) :
  destroy this w
  = (this, mkWorld (randoms w) (nrandom w) (clock w) (nclock w)
             (destroyed this (page w))).
Proof.
  unfold destroy, destroyed. destruct w as [rs nr cl nc p]. destruct p.
  destruct (animationId this) as [[|h]|]; destruct (canvas this) as [c|];
    run_page; try reflexivity.
  all: destruct (in_dec Nat.eq_dec (element c) _) as [Hin|Hout]; run_page;
    try reflexivity.
  all: rewrite (notin_remove Nat.eq_dec _ _ Hout); reflexivity.
Qed.

Lemma destroyed_twice {D : Type} (this : Instance D) (p : Page) :
  destroyed this (destroyed this p) = destroyed this p.
Proof.
  unfold destroyed. cbn.
  destruct (animationId this) as [[|h]|]; destruct (canvas this) as [c|];
    rewrite ?remove_twice; reflexivity.
Qed.

Lemma torn_down_intro {D : Type} (new : M (Instance D))
    (loop : R -> Instance D -> M (Instance D)) (w : World) :
  page (snd (new w)) = after_init (page w) ->
  constructed (page w) (fst (new w)) ->
  torn_down new loop w.
Proof.
  unfold torn_down, constructed. destruct (new w) as [this w1].
  cbn [fst snd]. intros Hp [Hc Ha].
  rewrite (destroy_effect this w1). cbn [snd page].
  destruct (canvas this) as [c|] eqn:Ec; [|discriminate].
  cbn in Hc. injection Hc as Hc.
  assert (Eb : body (destroyed this (page w1))
               = remove Nat.eq_dec (elements (page w)) (body (page w))).
  { unfold destroyed. rewrite Ec, Hp, Hc. unfold after_init. cbn [body].
    apply remove_cons. }
  assert (Ef : frames (destroyed this (page w1))
               = remove Nat.eq_dec (S (frameCounter (page w))) (frames (page w))).
  { unfold destroyed. rewrite Ha, Hp. unfold after_init. cbn [frames].
    apply remove_cons. }
  rewrite Eb, Ef. repeat split.
  - apply remove_In.
  - apply remove_In.
  - intro H. apply notin_remove, H.
  - intro H. apply notin_remove, H.
  - intro t. unfold fire. run. rewrite Ha, Ef.
    destruct (in_dec Nat.eq_dec _ _) as [Hin|Hout]; [|reflexivity].
    exfalso. exact (remove_In _ _ _ Hin).
  - unfold destroyed. rewrite Hp. reflexivity.
  - rewrite destroy_effect. cbn [page randoms nrandom clock nclock].
    rewrite destroyed_twice. reflexivity.
Qed.

(** C8, as stated, fails: in the world [world0], whose window has no
    [resize] listener, the listener that the constructor of the festive
    variant registers is still registered after [destroy()]. *)
Lemma destroy_leaves_resize_listener :
  resizeListeners (page world0) = [] /\
  let (this, w1) := Festive.new world0 in
  resizeListeners (page (snd (destroy this w1))) = [0%nat].
Proof.
  split; [reflexivity|].
  pose proof (torn_down_intro Festive.new Festive.loop world0
                (proj1 (festive_new_effect world0 eq_refl (fun _ => eq_refl)))
                (proj2 (festive_new_effect world0 eq_refl (fun _ => eq_refl))))
    as H.
  unfold torn_down in H. destruct (Festive.new world0) as [this w1].
  destruct H as (_ & _ & _ & _ & _ & H & _). exact H.
Qed.

(** C8, amended.  [destroy()] returns the instance as it got it, removes
    its canvas from the body, cancels its pending frame, and leaves the
    [resize] listeners of the window as they are; called again, it changes
    nothing.  So after the constructor of a variant, when it returns an
    instance with a WebGL context (the shaders compile), and [destroy()],
    the session is [torn_down]: the canvas and the frame are gone, and the
    listener registered at [init] remains. *)
Theorem destroy_cancels_and_removes :
  forall (w : World),
    (forall (D : Type) (this : Instance D),
       let w' := snd (destroy this w) in
       fst (destroy this w) = this /\
       (forall c, canvas this = Some c -> ~ In (element c) (body (page w'))) /\
       (forall h, animationId this = Some (S h) -> ~ In (S h) (frames (page w'))) /\
       resizeListeners (page w') = resizeListeners (page w) /\
       destroy this w' = (this, w')) /\
    (webgl (page w) = true -> shaders_compile (page w) ->
     torn_down Baseline.new Baseline.loop w /\
     torn_down Festive.new Festive.loop w /\
     torn_down Triangle.new Triangle.loop w).
Proof.
  intro w. split.
  - intros D this w'. unfold w'. rewrite destroy_effect. cbn [fst snd page].
    split; [reflexivity|]. split; [|split; [|split]].
    + intros c Hc. unfold destroyed. rewrite Hc. cbn. apply remove_In.
    + intros h Hh. unfold destroyed. rewrite Hh. cbn. apply remove_In.
    + reflexivity.
    + rewrite destroy_effect. cbn [page randoms nrandom clock nclock].
      rewrite destroyed_twice. reflexivity.
  - intros H C. split; [|split]; apply torn_down_intro.
    + apply baseline_new_effect; assumption.
    + apply baseline_new_effect; assumption.
    + apply festive_new_effect; assumption.
    + apply festive_new_effect; assumption.
    + apply triangle_new_effect; assumption.
    + apply triangle_new_effect; assumption.
Qed.

(** ** The theorems at concrete inputs *)

Lemma unit_randoms_world0 : unit_randoms world0.
Proof. intro i. cbn. lra. Defined.

(** At time 10000, of a festive collection of a dot born at 0 and a dot born
    at 9000, both of lifetime 3000, the first is dropped. *)
Lemma updateDots_drops_expired_witness :
  unit_randoms world0 /\ fresh_clock 10000 world0 /\
  ~ In festive_dot
      (dots (fst (Festive.updateDots 10000
                    (set_dots (fresh Dot) [festive_dot; young_dot]) world0))).
Proof.
  assert (C : fresh_clock 10000 world0) by (intros i _; cbn; lra).
  split; [exact unit_randoms_world0|]. split; [exact C|].
  destruct (proj2 (updateDots_drops_expired 10000 world0) unit_randoms_world0 C)
    as (_ & F & _).
  apply (F (set_dots (fresh Dot) [festive_dot; young_dot]) festive_dot).
  - cbn. auto.
  - cbn. lra.
Defined.

(** The envelope of [festive_dot] at half its lifetime is 1. *)
Lemma calculateAlpha_envelope_witness :
  lifetime festive_dot <> 0 /\
  1500 - birthTime festive_dot = lifetime festive_dot / 2 /\
  Festive.baseAlpha festive_dot 1500 = 1.
Proof.
  assert (HL : lifetime festive_dot <> 0) by (cbn; lra).
  assert (HA : 1500 - birthTime festive_dot = lifetime festive_dot / 2)
    by (cbn; lra).
  split; [exact HL|]. split; [exact HA|].
  destruct (calculateAlpha_envelope 1500) as [H _].
  destruct (H festive_dot) as (_ & _ & _ & V).
  destruct (V HL) as (_ & V1 & _). apply V1. exact HA.
Defined.

(** With the random numbers all 1/2, [getRandomX()] is in a side
    interval. *)
Lemma triangle_x_in_side_bands_witness :
  unit_randoms world0 /\ beside_center (fst (Triangle.getRandomX world0)).
Proof.
  split; [exact unit_randoms_world0|].
  exact (proj1 (proj1 (triangle_x_in_side_bands (fresh Triangle.Dot) world0
                         unit_randoms_world0))).
Defined.

(** At time 10000, with the random numbers all 0.9, the festive collection
    of a dot born at 9000 keeps its size, 1, and [lastSpawnTime] becomes
    10000. *)
Lemma lastSpawnTime_reset_on_interval_witness :
  let this := set_dots (fresh Dot) [young_dot] in
  10000 - lastSpawnTime this > spawnInterval Festive.CONFIG /\
  declines 0.85 world_declined /\
  (forall d, In d (dots this) -> 10000 - birthTime d < lifetime d) /\
  lastSpawnTime (fst (Festive.updateDots 10000 this world_declined)) = 10000 /\
  length (dots (fst (Festive.updateDots 10000 this world_declined))) = 1%nat.
Proof.
  intro this.
  assert (H : 10000 - lastSpawnTime this > spawnInterval Festive.CONFIG)
    by (cbn; lra).
  assert (G : declines 0.85 world_declined) by (intros i _; cbn; lra).
  assert (A : forall d, In d (dots this) -> 10000 - birthTime d < lifetime d).
  { intros d [<- | []]. cbn. lra. }
  split; [exact H|]. split; [exact G|]. split; [exact A|].
  destruct (lastSpawnTime_reset_on_interval 10000 world_declined) as (_ & F & _).
  destruct (F this H) as [L K]. split; [exact L|].
  destruct (K G) as (_ & _ & E & _). exact (E A).
Defined.

(** [spawnDot()] on collections of 2000, 9 and 10 dots. *)
Lemma spawnDot_full_noop_witness :
  let b := set_dots (fresh Dot) (repeat festive_dot 2000) in
  let f := set_dots (fresh Dot) (repeat festive_dot 9) in
  let t := set_dots (fresh Triangle.Dot) (repeat triangle_dot 10) in
  ((maxDots Baseline.CONFIG <= length (dots b))%nat /\
   Baseline.spawnDot b world0 = (b, world0)) /\
  ((maxDots Festive.CONFIG <= length (dots f))%nat /\
   Festive.spawnDot f world0 = (f, world0)) /\
  ((maxDots Triangle.CONFIG <= length (dots t))%nat /\
   Triangle.spawnDot t world0 = (t, world0)).
Proof.
  intros b f t.
  assert (Hb : (maxDots Baseline.CONFIG <= length (dots b))%nat).
  { unfold b. cbn [dots set_dots]. rewrite repeat_length. apply le_n. }
  assert (Hf : (maxDots Festive.CONFIG <= length (dots f))%nat).
  { unfold f. cbn [dots set_dots]. rewrite repeat_length. apply le_n. }
  assert (Ht : (maxDots Triangle.CONFIG <= length (dots t))%nat).
  { unfold t. cbn [dots set_dots]. rewrite repeat_length. apply le_n. }
  destruct (spawnDot_full_noop world0) as (B & F & T).
  split; [split; [exact Hb | exact (B b Hb)]|].
  split; [split; [exact Hf | exact (F f Hf)]|].
  split; [exact Ht | exact (T t Ht)].
Defined.

(** With the random numbers all 1/2, [prePopulateDots()] on the empty
    festive collection makes six dots. *)
Lemma festive_prePopulateDots_six_witness :
  unit_randoms world0 /\
  exists created,
    dots (fst (Festive.prePopulateDots (fresh Dot) world0)) = created /\
    length created = 6%nat.
Proof.
  split; [exact unit_randoms_world0|].
  destruct (festive_prePopulateDots_six (fresh Dot) world0 unit_randoms_world0)
    as (_ & _ & created & E & L & _).
  exists created. split; [exact E | exact L].
Defined.

(** The session of the festive variant on the page [page0]. *)
Lemma destroy_cancels_and_removes_witness :
  webgl (page world0) = true /\ shaders_compile (page world0) /\
  torn_down Festive.new Festive.loop world0.
Proof.
  split; [reflexivity|]. split; [intro type; reflexivity|].
  destruct (proj2 (destroy_cancels_and_removes world0) eq_refl
              (fun type => eq_refl)) as (_ & F & _).
  exact F.
Defined.

(** The festive constructor on a page without WebGL. *)
Lemma init_without_webgl_witness :
  webgl (page world_no_webgl) = false /\
  Festive.new world_no_webgl
  = (disabled Dot 0%nat,
     after_failed_init "WebGL not supported, polkadot effect disabled"
       world_no_webgl).
Proof.
  split; [reflexivity|].
  destruct (init_without_webgl world_no_webgl eq_refl) as [(_ & F & _) _].
  exact F.
Defined.

(** The alpha of [festive_dot] at half its lifetime. *)
Lemma calculateAlpha_range_witness :
  0 < lifetime festive_dot /\
  0 <= 1500 - birthTime festive_dot <= lifetime festive_dot /\
  0 <= Festive.calculateAlpha festive_dot 1500 <= 1.1.
Proof.
  assert (HL : 0 < lifetime festive_dot) by (cbn; lra).
  assert (HA : 0 <= 1500 - birthTime festive_dot <= lifetime festive_dot)
    by (cbn; lra).
  split; [exact HL|]. split; [exact HA|].
  exact (proj1 calculateAlpha_range festive_dot 1500 HL HA).
Defined.

(** * Further properties of the code *)

(** ** The drawing surface *)









(** ** What the frames touch *)

Lemma engine_only_refl {D : Type} (this : Instance D) (w : World) :
  engine_only this w (this, w).
Proof. unfold engine_only. cbn. auto. Qed.

Lemma engine_only_trans {D : Type} (a b c : Instance D) (u v x : World) :
  engine_only a u (b, v) -> engine_only b v (c, x) -> engine_only a u (c, x).
Proof.
  unfold engine_only. cbn. intros (A1 & A2 & A3 & A4 & A5) (B1 & B2 & B3 & B4 & B5).
  repeat split; congruence.
Qed.

Lemma for_loop_engine_only {D : Type} (body : Instance D -> M (Instance D))
    (n : nat) :
  (forall s w, engine_only s w (body s w)) ->
  forall s w, engine_only s w (for_loop n body s w).
Proof.
  intros Hbody s w.
  apply (for_loop_inv (fun s' w' => engine_only s w (s', w'))).
  - intros s1 w1 H. specialize (Hbody s1 w1).
    destruct (body s1 w1) as [s2 w2]. eapply engine_only_trans; eauto.
  - apply engine_only_refl.
Qed.

Lemma baseline_spawnDot_engine_only (this : Instance Dot) (w : World) :
  engine_only this w (Baseline.spawnDot this w).
Proof.
  unfold Baseline.spawnDot. destruct (_ <=? _)%nat; run.
  - apply engine_only_refl.
  - unfold engine_only. cbn. auto.
Qed.

Lemma festive_spawnAttempt_engine_only (this : Instance Dot) (w : World) :
  engine_only this w (Festive.spawnAttempt this w).
Proof.
  unfold Festive.spawnAttempt, Festive.spawnDot. run.
  destruct (ltb _ 0.85); [destruct (_ <=? _)%nat|]; run;
    unfold engine_only; cbn; auto.
Qed.

Lemma triangle_spawnAttempt_engine_only (this : Instance Triangle.Dot) (w : World) :
  engine_only this w (Triangle.spawnAttempt this w).
Proof.
  unfold Triangle.spawnAttempt, Triangle.spawnDot, Triangle.getRandomX. run.
  destruct (ltb _ 0.85); [destruct (_ <=? _)%nat; [|destruct (ltb _ 0.5)]|]; run;
    unfold engine_only; cbn; auto.
Qed.

Lemma baseline_updateDots_engine_only (now : R) (this : Instance Dot) (w : World) :
  engine_only this w (Baseline.updateDots now this w).
Proof.
  unfold Baseline.updateDots. set (this1 := set_dots this _).
  destruct (gtb _ _); [|unfold engine_only; cbn; auto].
  run. destruct (ltb _ 0.7).
  - match goal with |- context [Baseline.spawnDot ?t ?v] =>
      pose proof (baseline_spawnDot_engine_only t v) as H;
      destruct (Baseline.spawnDot t v) as [this2 w2] end.
    unfold engine_only in *. cbn in *. tauto.
  - unfold engine_only. cbn. auto.
Qed.

Lemma festive_updateDots_engine_only (now : R) (this : Instance Dot) (w : World) :
  engine_only this w (Festive.updateDots now this w).
Proof.
  unfold Festive.updateDots. set (this1 := set_dots this _).
  destruct (gtb _ _); [|unfold engine_only; cbn; auto].
  run.
  match goal with |- context [for_loop ?n ?b ?t ?v] =>
    pose proof (for_loop_engine_only b n festive_spawnAttempt_engine_only t v) as H;
    destruct (for_loop n b t v) as [this2 w2] end.
  unfold engine_only in *. cbn in *. tauto.
Qed.

Lemma triangle_updateDots_engine_only (now : R) (this : Instance Triangle.Dot)
    (w : World) :
  engine_only this w (Triangle.updateDots now this w).
Proof.
  unfold Triangle.updateDots. set (this1 := set_dots this _).
  destruct (gtb _ _); [|unfold engine_only; cbn; auto].
  run.
  match goal with |- context [for_loop ?n ?b ?t ?v] =>
    pose proof (for_loop_engine_only b n triangle_spawnAttempt_engine_only t v) as H;
    destruct (for_loop n b t v) as [this2 w2] end.
  unfold engine_only in *. cbn in *. tauto.
Qed.

Lemma same_document_refl (p : Page) : same_document p p.
Proof. unfold same_document. auto 10. Qed.

Lemma same_document_trans (p q r : Page) :
  same_document p q -> same_document q r -> same_document p r.
Proof.
  unfold same_document. intros H K.
  destruct H as (A1 & A2 & A3 & A4 & A5 & A6 & A7 & A8).
  destruct K as (B1 & B2 & B3 & B4 & B5 & B6 & B7 & B8).
  repeat split; congruence.
Qed.

(** One frame of a running animation: the callback runs, its handle is
    spent and the next one, one more, is pending. *)
Lemma fire_running {D : Type} (upd : R -> Instance D -> M (Instance D))
    (t : R) (this : Instance D) (w : World) :
  (forall s v, engine_only s v (upd t s v)) ->
  running this w ->
  let r := fire (loop_of upd) t this w in
  running (fst r) (snd r) /\
  frameCounter (page (snd r)) = S (frameCounter (page w)) /\
  frames (page (snd r))
  = S (frameCounter (page w))
    :: remove Nat.eq_dec (frameCounter (page w)) (frames (page w)) /\
  same_document (page w) (page (snd r)) /\
  canvas (fst r) = canvas this /\ gl (fst r) = gl this /\
  program (fst r) = program this /\
  window_of (page (snd r)) = window_of (page w).
Proof.
  intros Hupd (Ha & Hin & Hpos) r. unfold r, fire. run. rewrite Ha.
  destruct (in_dec Nat.eq_dec _ _) as [_|N]; [|contradiction].
  unfold cancelAnimationFrame, loop_of. run.
  match goal with |- context [upd t this ?v] =>
    destruct (Hupd this v) as (A & B & C & E & F);
    destruct (upd t this v) as [this1 w1] end.
  cbn [fst snd] in *. unfold requestAnimationFrame. run. rewrite F. run.
  unfold running, same_document, window_of. run.
  repeat split; auto; try reflexivity; try lia. left; reflexivity.
Qed.

Lemma run_frames_running {D : Type} (upd : R -> Instance D -> M (Instance D))
    (times : list R) :
  (forall t s v, engine_only s v (upd t s v)) ->
  forall (this : Instance D) (w : World),
    running this w ->
    let r := run_frames (loop_of upd) times this w in
    running (fst r) (snd r) /\
    frameCounter (page (snd r)) = (frameCounter (page w) + length times)%nat /\
    same_document (page w) (page (snd r)) /\
    canvas (fst r) = canvas this /\ gl (fst r) = gl this /\
    program (fst r) = program this.
Proof.
  intro Hupd. induction times as [|t rest IH]; intros this w Hrun; cbn [run_frames].
  - run. cbn [length]. rewrite Nat.add_0_r.
    split; [exact Hrun|]. split; [reflexivity|].
    split; [apply same_document_refl|]. auto.
  - unfold bind.
    destruct (fire_running upd t this w (Hupd t) Hrun)
      as (R1 & C1 & _ & S1 & A1 & B1 & P1 & _).
    destruct (fire (loop_of upd) t this w) as [this1 w1]. cbn [fst snd] in *.
    destruct (IH this1 w1 R1) as (R2 & C2 & S2 & A2 & B2 & P2).
    cbn zeta in *. cbn [length].
    split; [exact R2|]. split; [lia|].
    split; [eapply same_document_trans; eauto|].
    repeat split; congruence.
Qed.


Lemma running_after_init {D : Type} (this : Instance D) (w w' : World) :
  page w' = after_init (page w) -> constructed (page w) this -> running this w'.
Proof.
  intros Hp [_ Ha]. unfold running. rewrite Hp, Ha. unfold after_init. cbn.
  repeat split; auto. lia.
Qed.










(** ** Destruction at any time *)

Lemma run_frames_cancelled {D : Type} (loop : R -> Instance D -> M (Instance D))
    (times : list R) (this : Instance D) (w : World) (h : nat) :
  animationId this = Some h -> ~ In h (frames (page w)) ->
  run_frames loop times this w = (this, w).
Proof.
  intros Ha Hn. induction times as [|t rest IH]; [reflexivity|].
  cbn [run_frames]. unfold fire. run. rewrite Ha.
  destruct (in_dec Nat.eq_dec h (frames (page w))); [contradiction|].
  exact IH.
Qed.

Lemma started_stopped {D : Type} (new : M (Instance D))
    (upd : R -> Instance D -> M (Instance D)) (times afterwards : list R)
    (w : World) :
  (forall t s v, engine_only s v (upd t s v)) ->
  page (snd (new w)) = after_init (page w) ->
  constructed (page w) (fst (new w)) ->
  stopped new (loop_of upd) times afterwards w.
Proof.
  intros Hupd Hp Hc. unfold stopped, started, bind.
  destruct (new w) as [this0 w0]. cbn [fst snd] in *.
  pose proof (running_after_init this0 w w0 Hp Hc) as R0.
  destruct (run_frames_running upd times Hupd this0 w0 R0)
    as (R1 & _ & S1 & A1 & _).
  destruct (run_frames (loop_of upd) times this0 w0) as [this1 w1].
  cbn [fst snd] in *. rewrite destroy_effect. cbn [snd page].
  destruct R1 as (Ha & Hin & Hpos). destruct Hc as [Hc _].
  rewrite <- A1 in Hc. destruct (canvas this1) as [c|] eqn:Ec; [|discriminate].
  cbn in Hc. injection Hc as Hc.
  destruct (frameCounter (page w1)) as [|k] eqn:Ek; [lia|].
  assert (Ef : frames (destroyed this1 (page w1))
               = remove Nat.eq_dec (S k) (frames (page w1))).
  { unfold destroyed. rewrite Ha. reflexivity. }
  assert (Eb : body (destroyed this1 (page w1))
               = remove Nat.eq_dec (elements (page w)) (body (page w1))).
  { unfold destroyed. rewrite Ec, Hc. reflexivity. }
  split; [rewrite Eb; apply remove_In|].
  split; [rewrite Ef; apply remove_In|].
  apply (run_frames_cancelled _ _ _ _ (S k) Ha).
  cbn [page]. rewrite Ef. apply remove_In.
Qed.

(** [destroy()] stops the animation whenever it is called: after the
    constructor of a variant, when it returns an instance with a WebGL
    context (the shaders compile), any number of frames and then
    [destroy()], the canvas is no child of the body, the frame that was
    pending is cancelled, and no frame the browser runs afterwards calls
    the instance or changes the world. *)
Theorem destroy_stops_animation :
  forall (w : World) (times afterwards : list R),
    webgl (page w) = true -> shaders_compile (page w) ->
    stopped Baseline.new Baseline.loop times afterwards w /\
    stopped Festive.new Festive.loop times afterwards w /\
    stopped Triangle.new Triangle.loop times afterwards w.
Proof.
  intros w times afterwards H C. split; [|split].
  - apply (started_stopped Baseline.new Baseline.updateDots).
    + intros; apply baseline_updateDots_engine_only.
    + apply baseline_new_effect; assumption.
    + apply baseline_new_effect; assumption.
  - apply (started_stopped Festive.new Festive.updateDots).
    + intros; apply festive_updateDots_engine_only.
    + apply festive_new_effect; assumption.
    + apply festive_new_effect; assumption.
  - apply (started_stopped Triangle.new Triangle.updateDots).
    + intros; apply triangle_updateDots_engine_only.
    + apply triangle_new_effect; assumption.
    + apply triangle_new_effect; assumption.
Qed.

(** ** What one update does to the collection *)

Lemma baseline_filter_is_filter (now : R) (l : list Dot) :
  js_filter (Baseline.alive now) l = filter (live now) l.
Proof.
  induction l as [|d l IH]; [reflexivity|].
  cbn [js_filter filter]. unfold Baseline.alive at 1, live at 1.
  destruct (ltb _ _); rewrite IH; reflexivity.
Qed.

Lemma festive_filter_is_filter (now : R) (l : list Dot) :
  js_filter (Festive.alive now) l = filter (live now) l.
Proof.
  induction l as [|d l IH]; [reflexivity|].
  cbn [js_filter filter]. unfold Festive.alive at 1, live at 1.
  destruct (ltb _ _); rewrite IH; reflexivity.
Qed.

Lemma triangle_filter_is_filter (now : R) (l : list Triangle.Dot) :
  js_filter (Triangle.alive now) l
  = map Triangle.rotate (filter (live_triangle now) l).
Proof.
  induction l as [|d l IH]; [reflexivity|].
  cbn [js_filter filter]. unfold Triangle.alive at 1, live_triangle at 1.
  destruct (ltb _ _); cbn [map]; rewrite IH; reflexivity.
Qed.

Lemma appends_upto_refl {D : Type} (k : nat) (l : list D) : appends_upto k l l.
Proof. exists []. rewrite app_nil_r. split; [reflexivity | cbn; lia]. Qed.

Lemma appends_upto_le {D : Type} (j k : nat) (a b : list D) :
  (j <= k)%nat -> appends_upto j a b -> appends_upto k a b.
Proof. intros H [l [E L]]. exists l. split; [exact E | lia]. Qed.

(** A loop of [n] turns that each append at most one dot, and none to a
    collection of [cap] dots or more, appends at most [n] dots and does not
    take the collection beyond [cap]. *)
Lemma for_loop_appends_upto {D : Type} (cap : nat)
    (body : Instance D -> M (Instance D)) :
  (forall s w, appends_upto (Nat.min 1 (cap - length (dots s)))
                 (dots s) (dots (fst (body s w)))) ->
  forall n s w,
    appends_upto (Nat.min n (cap - length (dots s)))
      (dots s) (dots (fst (for_loop n body s w))).
Proof.
  intros Hbody n. induction n as [|n IH]; intros s w; cbn [for_loop].
  - run. apply appends_upto_refl.
  - unfold bind. specialize (Hbody s w).
    destruct (body s w) as [s1 w1]. cbn [fst] in Hbody.
    specialize (IH s1 w1).
    destruct Hbody as [l1 [E1 L1]]. destruct IH as [l2 [E2 L2]].
    exists (l1 ++ l2). split.
    + rewrite E2, E1, app_assoc. reflexivity.
    + rewrite E1 in L2. rewrite length_app in *. lia.
Qed.


Lemma festive_spawnAttempt_upto (this : Instance Dot) (w : World) :
  appends_upto (Nat.min 1 (maxDots Festive.CONFIG - length (dots this)))
    (dots this) (dots (fst (Festive.spawnAttempt this w))).
Proof.
  unfold Festive.spawnAttempt, Festive.spawnDot. run.
  destruct (ltb _ 0.85); [|apply appends_upto_refl].
  destruct (Nat.leb_spec (maxDots Festive.CONFIG) (length (dots this))).
  - apply appends_upto_refl.
  - run. eexists. split; [reflexivity|]. cbn [length]. lia.
Qed.

Lemma triangle_spawnAttempt_upto (this : Instance Triangle.Dot) (w : World) :
  appends_upto (Nat.min 1 (maxDots Triangle.CONFIG - length (dots this)))
    (dots this) (dots (fst (Triangle.spawnAttempt this w))).
Proof.
  unfold Triangle.spawnAttempt, Triangle.spawnDot, Triangle.getRandomX. run.
  destruct (ltb _ 0.85); [|apply appends_upto_refl].
  destruct (Nat.leb_spec (maxDots Triangle.CONFIG) (length (dots this))).
  - apply appends_upto_refl.
  - run. destruct (ltb _ 0.5); run.
    all: eexists; split; [reflexivity|]; cbn [length]; lia.
Qed.


Lemma festive_updateDots_upto (now : R) (this : Instance Dot) (w : World) :
  appends_upto
    (Nat.min 3 (maxDots Festive.CONFIG - length (filter (live now) (dots this))))
    (filter (live now) (dots this))
    (dots (fst (Festive.updateDots now this w))).
Proof.
  unfold Festive.updateDots. rewrite festive_filter_is_filter.
  destruct (gtb _ _); [|apply appends_upto_refl].
  run.
  match goal with |- context [for_loop ?n ?b ?t ?v] =>
    pose proof (for_loop_appends_upto (maxDots Festive.CONFIG) b
                  festive_spawnAttempt_upto n t v) as H;
    destruct (for_loop n b t v) as [this2 w2] end.
  cbn [fst dots set_dots] in H. eapply appends_upto_le; [|exact H]. lia.
Qed.

Lemma triangle_updateDots_upto (now : R) (this : Instance Triangle.Dot) (w : World) :
  appends_upto
    (Nat.min 3 (maxDots Triangle.CONFIG
                - length (map Triangle.rotate (filter (live_triangle now) (dots this)))))
    (map Triangle.rotate (filter (live_triangle now) (dots this)))
    (dots (fst (Triangle.updateDots now this w))).
Proof.
  unfold Triangle.updateDots. rewrite triangle_filter_is_filter.
  destruct (gtb _ _); [|apply appends_upto_refl].
  run.
  match goal with |- context [for_loop ?n ?b ?t ?v] =>
    pose proof (for_loop_appends_upto (maxDots Triangle.CONFIG) b
                  triangle_spawnAttempt_upto n t v) as H;
    destruct (for_loop n b t v) as [this2 w2] end.
  cbn [fst dots set_dots] in H. eapply appends_upto_le; [|exact H]. lia.
Qed.


(** ** The time of the last spawn attempt *)

Lemma gtb_false (a b : R) : gtb a b = false <-> a <= b.
Proof. unfold gtb. apply ltb_false. Qed.

(** [updateDots(now)] either leaves [lastSpawnTime] or sets it to [now], and
    never moves it back, whatever the order of the frame times.  When no
    more than [spawnInterval] has passed since [lastSpawnTime] (the interval
    itself counts as not passed), the call only drops the expired dots: it
    draws no random number, does not read the clock and leaves the rest of
    the instance and the world as they are. *)
Theorem lastSpawnTime_never_moves_back :
  forall (now : R) (w : World),
    (forall this,
       let r := Baseline.updateDots now this w in
       lastSpawnTime this <= lastSpawnTime (fst r) /\
       (lastSpawnTime (fst r) = lastSpawnTime this \/ lastSpawnTime (fst r) = now) /\
       (now - lastSpawnTime this <= spawnInterval Baseline.CONFIG ->
        r = (set_dots this (filter (live now) (dots this)), w))) /\
    (forall this,
       let r := Festive.updateDots now this w in
       lastSpawnTime this <= lastSpawnTime (fst r) /\
       (lastSpawnTime (fst r) = lastSpawnTime this \/ lastSpawnTime (fst r) = now) /\
       (now - lastSpawnTime this <= spawnInterval Festive.CONFIG ->
        r = (set_dots this (filter (live now) (dots this)), w))) /\
    (forall this,
       let r := Triangle.updateDots now this w in
       lastSpawnTime this <= lastSpawnTime (fst r) /\
       (lastSpawnTime (fst r) = lastSpawnTime this \/ lastSpawnTime (fst r) = now) /\
       (now - lastSpawnTime this <= spawnInterval Triangle.CONFIG ->
        r = (set_dots this
               (map Triangle.rotate (filter (live_triangle now) (dots this))), w))).
Proof.
  intros now w.
  assert (IB : 0 <= spawnInterval Baseline.CONFIG) by (cbn; lra).
  assert (IF : 0 <= spawnInterval Festive.CONFIG) by (cbn; lra).
  assert (IT : 0 <= spawnInterval Triangle.CONFIG) by (cbn; lra).
  split; [|split]; intros this r; unfold r.
  - unfold Baseline.updateDots. rewrite baseline_filter_is_filter. run.
    destruct (gtb _ _) eqn:E.
    + apply gtb_true in E. cbn [lastSpawnTime set_dots] in E. run.
      assert (L : lastSpawnTime
                    (fst (let (a, w') :=
                            (if ltb (randoms w (nrandom w)) 0.7
                             then Baseline.spawnDot
                                    (set_dots this (filter (live now) (dots this)))
                             else fun w0 => (set_dots this (filter (live now) (dots this)), w0))
                              (mkWorld (randoms w) (S (nrandom w)) (clock w) (nclock w) (page w))
                          in (set_lastSpawnTime a now, w'))) = now).
      { destruct (ltb _ 0.7); [destruct (Baseline.spawnDot _ _)|]; reflexivity. }
      rewrite L. split; [lra|]. split; [auto | intro; lra].
    + apply gtb_false in E. cbn [lastSpawnTime set_dots] in E. run. split; [lra|]. split; [auto | reflexivity].
  - unfold Festive.updateDots. rewrite festive_filter_is_filter. run.
    destruct (gtb _ _) eqn:E.
    + apply gtb_true in E. cbn [lastSpawnTime set_dots] in E. run.
      destruct (for_loop _ _ _ _) as [this2 w2]. run.
      split; [lra|]. split; [auto | intro; lra].
    + apply gtb_false in E. cbn [lastSpawnTime set_dots] in E. run. split; [lra|]. split; [auto | reflexivity].
  - unfold Triangle.updateDots. rewrite triangle_filter_is_filter. run.
    destruct (gtb _ _) eqn:E.
    + apply gtb_true in E. cbn [lastSpawnTime set_dots] in E. run.
      destruct (for_loop _ _ _ _) as [this2 w2]. run.
      split; [lra|]. split; [auto | intro; lra].
    + apply gtb_false in E. cbn [lastSpawnTime set_dots] in E. run. split; [lra|]. split; [auto | reflexivity].
Qed.

(** ** A new dot *)

(** A random number of [[0, 1)] picks an entry of a palette that is not
    empty: the index is never out of range. *)
Lemma palette_pick {A : Type} (palette : list A) (r : R) :
  palette <> [] -> 0 <= r < 1 ->
  exists c, js_index palette (Math_floor (r * INR (length palette))) = Some c /\
            In c palette.
Proof.
  intros Hne [H0 H1].
  assert (Hn : 0 < INR (length palette)).
  { apply lt_0_INR. destruct palette; [contradiction | cbn; lia]. }
  unfold js_index, Math_floor.
  destruct (base_Int_part (r * INR (length palette))) as [Hlo Hhi].
  set (z := Int_part (r * INR (length palette))) in *.
  assert (Hz0 : (0 <= z)%Z).
  { assert (IZR (-1) < IZR z) by (cbn; nra). apply lt_IZR in H. lia. }
  assert (Hzn : (z < Z.of_nat (length palette))%Z).
  { apply lt_IZR. rewrite <- INR_IZR_INZ. nra. }
  destruct (Z.ltb_spec z 0) as [Hneg|_]; [lia|].
  destruct (nth_error palette (Z.to_nat z)) as [c|] eqn:E.
  - exists c. split; [reflexivity|]. eapply nth_error_In; eauto.
  - apply nth_error_None in E. lia.
Qed.

Lemma baseline_spawnDot_pushes (this : Instance Dot) (w : World) :
  unit_randoms w ->
  (length (dots this) < maxDots Baseline.CONFIG)%nat ->
  exists d,
    Baseline.spawnDot this w = (push this d, after_reads 5 1 w) /\
    well_formed_dot Baseline.CONFIG d /\ birthTime d = clock w (nclock w).
Proof.
  intros U Hroom.
  unfold Baseline.spawnDot. apply Nat.leb_gt in Hroom. rewrite Hroom. run.
  eexists. split; [reflexivity|]. split; [|reflexivity].
  unfold well_formed_dot. cbn [color lifetime size x y].
  split; [apply palette_pick; [discriminate | apply U]|].
  unit_bounds U. cbn [Baseline.CONFIG minLifetime maxLifetime minSize maxSize].
  repeat split; lra.
Qed.

Lemma festive_spawnDot_pushes (this : Instance Dot) (w : World) :
  unit_randoms w ->
  (length (dots this) < maxDots Festive.CONFIG)%nat ->
  exists d,
    Festive.spawnDot this w = (push this d, after_reads 5 1 w) /\
    well_formed_dot Festive.CONFIG d /\ birthTime d = clock w (nclock w).
Proof.
  intros U Hroom.
  unfold Festive.spawnDot. apply Nat.leb_gt in Hroom. rewrite Hroom. run.
  eexists. split; [reflexivity|]. split; [|reflexivity].
  unfold well_formed_dot. cbn [color lifetime size x y].
  split; [apply palette_pick; [discriminate | apply U]|].
  unit_bounds U. cbn [Festive.CONFIG minLifetime maxLifetime minSize maxSize].
  repeat split; lra.
Qed.

Lemma triangle_spawnDot_pushes (this : Instance Triangle.Dot) (w : World) :
  unit_randoms w ->
  (length (dots this) < maxDots Triangle.CONFIG)%nat ->
  exists d,
    Triangle.spawnDot this w = (push this d, after_reads 8 1 w) /\
    well_formed_triangle d /\ Triangle.birthTime d = clock w (nclock w).
Proof.
  intros U Hroom.
  unfold Triangle.spawnDot, Triangle.getRandomX.
  apply Nat.leb_gt in Hroom. rewrite Hroom. run.
  destruct (ltb _ 0.5); run.
  all: eexists; split; [reflexivity|]; split; [|reflexivity].
  all: unfold well_formed_triangle, beside_center.
  all: cbn [Triangle.color Triangle.lifetime Triangle.size Triangle.x
            Triangle.y Triangle.rotation Triangle.rotationSpeed].
  all: split; [apply palette_pick; [discriminate | apply U]|].
  all: unit_bounds U; pose proof PI_RGT_0.
  all: cbn [Triangle.CONFIG minLifetime maxLifetime minSize maxSize].
  all: repeat split; try lra; nra.
Qed.

(** [spawnDot()] on a collection that is not full, with random numbers of
    [[0, 1)]: it appends one dot, stamped with the clock, after five calls
    of [Math.random()] (eight for a triangle) and one of
    [performance.now()], and the dot is well formed: its color is a color
    of the palette, never undefined, and its other fields are from the
    minimum to the maximum of their ranges. *)
Theorem spawnDot_appends_well_formed :
  forall (w : World),
    unit_randoms w ->
    (forall this,
       (length (dots this) < maxDots Baseline.CONFIG)%nat ->
       exists d,
         Baseline.spawnDot this w = (push this d, after_reads 5 1 w) /\
         well_formed_dot Baseline.CONFIG d /\ birthTime d = clock w (nclock w)) /\
    (forall this,
       (length (dots this) < maxDots Festive.CONFIG)%nat ->
       exists d,
         Festive.spawnDot this w = (push this d, after_reads 5 1 w) /\
         well_formed_dot Festive.CONFIG d /\ birthTime d = clock w (nclock w)) /\
    (forall this,
       (length (dots this) < maxDots Triangle.CONFIG)%nat ->
       exists d,
         Triangle.spawnDot this w = (push this d, after_reads 8 1 w) /\
         well_formed_triangle d /\
         Triangle.birthTime d = clock w (nclock w)).
Proof.
  intros w U. split; [|split]; intros this Hroom.
  - apply baseline_spawnDot_pushes; assumption.
  - apply festive_spawnDot_pushes; assumption.
  - apply triangle_spawnDot_pushes; assumption.
Qed.

(** ** The first dots *)

Lemma after_reads_0 (w : World) : after_reads 0 0 w = w.
Proof. destruct w. reflexivity. Qed.

Lemma after_reads_add (a b c d : nat) (w : World) :
  after_reads a c (after_reads b d w) = after_reads (a + b) (c + d) w.
Proof. unfold after_reads. cbn. f_equal; lia. Qed.

Lemma unit_randoms_after_reads (n k : nat) (w : World) :
  unit_randoms w -> unit_randoms (after_reads n k w).
Proof. intros U i. apply U. Qed.

Lemma set_dots_same {D : Type} (this : Instance D) :
  set_dots this (dots this ++ []) = this.
Proof. destruct this. unfold set_dots. cbn. rewrite app_nil_r. reflexivity. Qed.

(** A loop whose every turn pushes one good dot after [k] calls of
    [Math.random()] pushes as many good dots as it has turns. *)
Lemma for_loop_pushes {D : Type} (good : D -> Prop) (k : nat)
    (body : Instance D -> M (Instance D)) :
  (forall s w, unit_randoms w ->
     exists d, body s w = (push s d, after_reads k 0 w) /\ good d) ->
  forall n s w, unit_randoms w ->
    exists created,
      for_loop n body s w
      = (set_dots s (dots s ++ created), after_reads (n * k) 0 w) /\
      length created = n /\ Forall good created.
Proof.
  intros Hbody n. induction n as [|n IH]; intros s w U; cbn [for_loop].
  - exists []. rewrite set_dots_same. cbn [Nat.mul]. rewrite after_reads_0.
    repeat split; auto.
  - unfold bind. destruct (Hbody s w U) as (d & E & G). rewrite E.
    destruct (IH (push s d) (after_reads k 0 w) (unit_randoms_after_reads _ _ _ U))
      as (l & El & Ll & Gl).
    exists (d :: l). rewrite El. split; [|split].
    + rewrite after_reads_add. unfold push, set_dots. cbn.
      rewrite <- app_assoc. cbn. f_equal. f_equal. lia.
    + cbn. lia.
    + constructor; assumption.
Qed.

Lemma festive_prePopulateOne_well_formed (t : R) (this : Instance Dot) (w : World) :
  unit_randoms w ->
  exists d,
    Festive.prePopulateOne t this w = (push this d, after_reads 6 0 w) /\
    (well_formed_dot Festive.CONFIG d /\
     back_dated t (birthTime d) (lifetime d)).
Proof.
  intro U. unfold Festive.prePopulateOne. run.
  eexists. split; [reflexivity|].
  unfold well_formed_dot, back_dated. cbn [color lifetime size x y birthTime].
  split; [split; [apply palette_pick; [discriminate | apply U]|]|].
  2: eexists; split; [reflexivity|].
  all: unit_bounds U.
  all: cbn [Festive.CONFIG minLifetime maxLifetime minSize maxSize].
  all: repeat split; try lra; nra.
Qed.

Lemma triangle_prePopulateOne_well_formed (t : R) (this : Instance Triangle.Dot)
    (w : World) :
  unit_randoms w ->
  exists d,
    Triangle.prePopulateOne t this w = (push this d, after_reads 9 0 w) /\
    (well_formed_triangle d /\
     back_dated t (Triangle.birthTime d) (Triangle.lifetime d)).
Proof.
  intro U. unfold Triangle.prePopulateOne, Triangle.getRandomX. run.
  destruct (ltb _ 0.5); run.
  all: eexists; split; [reflexivity|].
  all: unfold well_formed_triangle, beside_center, back_dated.
  all: cbn [Triangle.color Triangle.lifetime Triangle.size Triangle.x
            Triangle.y Triangle.rotation Triangle.rotationSpeed
            Triangle.birthTime].
  all: split; [split; [apply palette_pick; [discriminate | apply U]|]|].
  2, 4: eexists; split; [reflexivity|].
  all: unit_bounds U; pose proof PI_RGT_0.
  all: cbn [Triangle.CONFIG minLifetime maxLifetime minSize maxSize].
  all: repeat split; try lra; nra.
Qed.

Lemma festive_prePopulateDots_pushes (this : Instance Dot) (w : World) :
  unit_randoms w ->
  exists created,
    Festive.prePopulateDots this w
    = (set_dots this (dots this ++ created), after_reads 36 1 w) /\
    length created = 6%nat /\
    Forall (fun d => well_formed_dot Festive.CONFIG d /\
                     back_dated (clock w (nclock w)) (birthTime d) (lifetime d))
      created.
Proof.
  intro U. unfold Festive.prePopulateDots. run. rewrite festive_targetDots.
  change (mkWorld (randoms w) (nrandom w) (clock w) (S (nclock w)) (page w))
    with (after_reads 0 1 w).
  destruct (for_loop_pushes _ 6 (Festive.prePopulateOne (clock w (nclock w)))
              (festive_prePopulateOne_well_formed (clock w (nclock w)))
              (Z.to_nat 6) this (after_reads 0 1 w)
              (unit_randoms_after_reads _ _ _ U)) as (l & E & L & G).
  exists l. rewrite E, after_reads_add.
  split; [reflexivity|]. split; assumption.
Qed.

Lemma triangle_prePopulateDots_pushes (this : Instance Triangle.Dot) (w : World) :
  unit_randoms w ->
  exists created,
    Triangle.prePopulateDots this w
    = (set_dots this (dots this ++ created), after_reads 63 1 w) /\
    length created = 7%nat /\
    Forall (fun d => well_formed_triangle d /\
                     back_dated (clock w (nclock w)) (Triangle.birthTime d)
                       (Triangle.lifetime d))
      created.
Proof.
  intro U. unfold Triangle.prePopulateDots. run. rewrite triangle_targetDots.
  change (mkWorld (randoms w) (nrandom w) (clock w) (S (nclock w)) (page w))
    with (after_reads 0 1 w).
  destruct (for_loop_pushes _ 9 (Triangle.prePopulateOne (clock w (nclock w)))
              (triangle_prePopulateOne_well_formed (clock w (nclock w)))
              (Z.to_nat 7) this (after_reads 0 1 w)
              (unit_randoms_after_reads _ _ _ U)) as (l & E & L & G).
  exists l. rewrite E, after_reads_add.
  split; [reflexivity|]. split; assumption.
Qed.

(** [prePopulateDots()], with random numbers of [[0, 1)], reads the clock
    once and pushes 6 well formed dots in the festive variant, after 36
    calls of [Math.random()], and 7 well formed triangles in the triangle
    variant, after 63, whatever the collection holds already; the birth
    time of each is the time read less an offset from 0 to 0.8 of its
    lifetime. *)
Theorem prePopulateDots_well_formed :
  forall (w : World),
    unit_randoms w ->
    let currentTime := clock w (nclock w) in
    (forall this,
       exists created,
         Festive.prePopulateDots this w
         = (set_dots this (dots this ++ created), after_reads 36 1 w) /\
         length created = 6%nat /\
         Forall (fun d => well_formed_dot Festive.CONFIG d /\
                          back_dated currentTime (birthTime d) (lifetime d))
           created) /\
    (forall this,
       exists created,
         Triangle.prePopulateDots this w
         = (set_dots this (dots this ++ created), after_reads 63 1 w) /\
         length created = 7%nat /\
         Forall (fun d => well_formed_triangle d /\
                          back_dated currentTime (Triangle.birthTime d)
                            (Triangle.lifetime d))
           created).
Proof.
  intros w U currentTime. split; intro this.
  - apply festive_prePopulateDots_pushes, U.
  - apply triangle_prePopulateDots_pushes, U.
Qed.

(** ** The first frame *)

(** A filter that accepts every element, and leaves it as it is, returns
    the array. *)
Lemma filter_all {A : Type} (f : A -> bool) (l : list A) :
  Forall (fun a => f a = true) l -> filter f l = l.
Proof.
  induction 1 as [|a l Ha _ IH]; [reflexivity|].
  cbn. rewrite Ha, IH. reflexivity.
Qed.

Lemma festive_new_dots (w : World) :
  webgl (page w) = true -> shaders_compile (page w) -> unit_randoms w ->
  exists created,
    dots (fst (Festive.new w)) = created /\
    length created = 6%nat /\
    Forall (fun d => well_formed_dot Festive.CONFIG d /\
                     back_dated (clock w (nclock w)) (birthTime d) (lifetime d))
      created.
Proof.
  intros H C U. unfold Festive.new, Festive.init.
  run_page. rewrite H. run_page. compile_shaders C.
  destruct (links (page w)); run_page.
  all: match goal with |- context [Festive.prePopulateDots ?t ?v] =>
         destruct (festive_prePopulateDots_pushes t v U) as (l & E & L & G);
         rewrite E end.
  all: run_page; exists l; repeat split; assumption.
Qed.

Lemma triangle_new_dots (w : World) :
  webgl (page w) = true -> shaders_compile (page w) -> unit_randoms w ->
  exists created,
    dots (fst (Triangle.new w)) = created /\
    length created = 7%nat /\
    Forall (fun d => well_formed_triangle d /\
                     back_dated (clock w (nclock w)) (Triangle.birthTime d)
                       (Triangle.lifetime d))
      created.
Proof.
  intros H C U. unfold Triangle.new, Triangle.init.
  run_page. rewrite H. run_page. compile_shaders C.
  destruct (links (page w)); run_page.
  all: match goal with |- context [Triangle.prePopulateDots ?t ?v] =>
         destruct (triangle_prePopulateDots_pushes t v U) as (l & E & L & G);
         rewrite E end.
  all: run_page; exists l; repeat split; assumption.
Qed.

(** The first update after the constructor, when it returns an instance
    with a WebGL context (the shaders compile), and with random numbers of
    [[0, 1)]: when its time [now] is less than 0.2 of the
    minimum lifetime (600 ms for the festive variant, 800 ms for the
    triangles) after the time the constructor read from the clock, every
    pre-populated dot is still in the collection (the triangles rotated
    once), in the order of its creation, followed by at most three new
    ones. *)
Theorem first_update_keeps_prepopulated :
  forall (w : World) (now : R),
    webgl (page w) = true -> shaders_compile (page w) ->
    unit_randoms w ->
    (now - clock w (nclock w) < 0.2 * minLifetime Festive.CONFIG ->
     appends_upto 3 (dots (fst (Festive.new w)))
       (dots (fst (session Festive.new Festive.loop Festive.updateDots [] now w))) /\
     length (dots (fst (Festive.new w))) = 6%nat) /\
    (now - clock w (nclock w) < 0.2 * minLifetime Triangle.CONFIG ->
     appends_upto 3 (map Triangle.rotate (dots (fst (Triangle.new w))))
       (dots (fst (session Triangle.new Triangle.loop Triangle.updateDots [] now w))) /\
     length (dots (fst (Triangle.new w))) = 7%nat).
Proof.
  intros w now H C U. split; intro Hnow.
  - destruct (festive_new_dots w H C U) as (l & E & L & G).
    unfold session. cbn [run_frames]. run.
    destruct (Festive.new w) as [this0 w0]. cbn [fst] in *.
    split; [|congruence].
    assert (K : filter (live now) (dots this0) = dots this0).
    { apply filter_all. rewrite E. eapply Forall_impl; [|exact G].
      intros d ((_ & [Hl _] & _) & (o & Eb & Ho)). unfold live. apply ltb_true.
      cbn in Hl, Hnow. lra. }
    pose proof (festive_updateDots_upto now this0 w0) as A. rewrite K in A.
    eapply appends_upto_le; [|exact A]. lia.
  - destruct (triangle_new_dots w H C U) as (l & E & L & G).
    unfold session. cbn [run_frames]. run.
    destruct (Triangle.new w) as [this0 w0]. cbn [fst] in *.
    split; [|congruence].
    assert (K : filter (live_triangle now) (dots this0) = dots this0).
    { apply filter_all. rewrite E. eapply Forall_impl; [|exact G].
      intros d ((_ & [Hl _] & _) & (o & Eb & Ho)). unfold live_triangle.
      apply ltb_true. cbn in Hl, Hnow. lra. }
    pose proof (triangle_updateDots_upto now this0 w0) as A. rewrite K in A.
    eapply appends_upto_le; [|exact A]. lia.
Qed.

(** ** The fade curve of the baseline variant *)

Lemma envelope_nonpos (age lifetime : R) :
  0 < lifetime -> - lifetime <= age <= 0 -> -1 <= sin (age / lifetime * PI) <= 0.
Proof.
  intros HL [H0 H1]. split; [apply SIN_bound|].
  assert (P : 0 <= (- age) / lifetime <= 1) by (apply progress_unit; lra).
  replace (age / lifetime * PI) with (- ((- age) / lifetime * PI))
    by (field; lra).
  rewrite sin_neg. pose proof PI_RGT_0.
  assert (0 <= sin (- age / lifetime * PI)); [|lra].
  apply sin_ge_0; nra.
Qed.

Lemma envelope_pos (age lifetime : R) :
  0 < lifetime -> 0 < age < lifetime -> 0 < sin (age / lifetime * PI).
Proof.
  intros HL [H0 H1]. pose proof PI_RGT_0.
  pose proof (Rinv_0_lt_compat lifetime HL) as Hi.
  assert (E : lifetime * / lifetime = 1) by (apply Rinv_r; lra).
  assert (P : 0 < age * / lifetime < 1) by (split; nra).
  unfold Rdiv. apply sin_gt_0; nra.
Qed.

(** [calculateAlpha] of the baseline variant, for a dot of positive
    lifetime: it is in [[0, 1]] from the birth of the dot to the end of its
    lifetime and positive strictly between; it takes the same value at the
    ages [a] and [lifetime - a], so the dot fades out as it faded in; and
    for a dot that is not born yet, up to one lifetime ahead, it is in
    [[-1, 0]]. *)
Theorem baseline_calculateAlpha_range :
  forall (d : Dot) (now : R),
    0 < lifetime d ->
    let age := now - birthTime d in
    (0 <= age <= lifetime d -> 0 <= Baseline.calculateAlpha d now <= 1) /\
    (0 < age < lifetime d -> 0 < Baseline.calculateAlpha d now) /\
    (- lifetime d <= age <= 0 -> -1 <= Baseline.calculateAlpha d now <= 0) /\
    Baseline.calculateAlpha d (birthTime d + (lifetime d - age))
    = Baseline.calculateAlpha d now.
Proof.
  intros d now HL age. unfold Baseline.calculateAlpha. fold age.
  split; [apply envelope_unit, HL|].
  split; [apply envelope_pos, HL|].
  split; [apply envelope_nonpos, HL|].
  replace ((birthTime d + (lifetime d - age) - birthTime d) / lifetime d * PI)
    with (PI - age / lifetime d * PI) by (field; lra).
  apply sin_PI_x.
Qed.

(** ** The dots of the frame in which they are spawned *)

(** A dot that [updateDots(now)] spawns is stamped with the clock, which
    is not before the time [now] of the frame: when the clock is ahead of
    [now] by the minimum lifetime at most, [calculateAlpha] of the new dot
    at [now], which [render] uploads in the same frame, is not positive.
    The collection after the call is the live dots followed by such
    dots. *)
Theorem spawned_dots_start_transparent :
  forall (now : R) (w : World),
    unit_randoms w ->
    (clock_within (minLifetime Baseline.CONFIG) now w ->
     forall this,
       appends (fun d => Baseline.calculateAlpha d now <= 0)
         (filter (live now) (dots this))
         (dots (fst (Baseline.updateDots now this w)))) /\
    (clock_within (minLifetime Festive.CONFIG) now w ->
     forall this,
       appends (fun d => Festive.calculateAlpha d now <= 0)
         (filter (live now) (dots this))
         (dots (fst (Festive.updateDots now this w)))) /\
    (clock_within (minLifetime Triangle.CONFIG) now w ->
     forall this,
       appends (fun d => Triangle.calculateAlpha d now <= 0)
         (map Triangle.rotate (filter (live_triangle now) (dots this)))
         (dots (fst (Triangle.updateDots now this w)))).
Proof.
  intros now w U. split; [|split]; intros C this.
  - rewrite <- baseline_filter_is_filter.
    eapply appends_impl; [|apply baseline_updateDots_spec].
    intros d S. destruct (S U) as ([A _] & _ & _ & _ & i & Hi & Hb).
    destruct (C i Hi) as [C0 C1]. cbn in A, C1.
    apply (envelope_nonpos (now - birthTime d) (lifetime d)); lra.
  - rewrite <- festive_filter_is_filter.
    eapply appends_impl; [|apply festive_updateDots_spec].
    intros d S. destruct (S U) as ([A _] & _ & _ & _ & i & Hi & Hb).
    destruct (C i Hi) as [C0 C1]. cbn in A, C1.
    unfold Festive.calculateAlpha, Festive.baseAlpha, Festive.twinkle.
    assert (E : -1 <= sin ((now - birthTime d) / lifetime d * PI) <= 0)
      by (apply envelope_nonpos; lra).
    pose proof (twinkle_range (now - birthTime d)). nra.
  - rewrite <- triangle_filter_is_filter.
    eapply appends_impl; [|apply triangle_updateDots_spec].
    intros d S. destruct (S U) as ([A _] & _ & _ & _ & _ & _ & i & Hi & Hb).
    destruct (C i Hi) as [C0 C1]. cbn in A, C1.
    unfold Triangle.calculateAlpha, Triangle.baseAlpha, Triangle.twinkle.
    assert (E : -1 <= sin ((now - Triangle.birthTime d) / Triangle.lifetime d * PI) <= 0)
      by (apply envelope_nonpos; lra).
    pose proof (twinkle_range (now - Triangle.birthTime d)). nra.
Qed.

(** ** The navigation links *)

Lemma endsWith_spec (s t : string) :
  Accessibility.endsWith s t = true <-> exists p, s = (p ++ t)%string.
Proof.
  induction s as [|a s IH]; cbn [Accessibility.endsWith].
  - destruct (String.eqb_spec EmptyString t) as [<-|N].
    + split; [exists EmptyString; reflexivity | reflexivity].
    + split; [discriminate|]. intros [p E]. exfalso. apply N.
      destruct p; cbn in E; [exact E | discriminate].
  - destruct (String.eqb_spec (String a s) t) as [<-|N].
    + split; [exists EmptyString; reflexivity | reflexivity].
    + rewrite IH. split.
      * intros [p ->]. exists (String a p). reflexivity.
      * intros [p E]. destruct p as [|b p]; cbn in E.
        -- exfalso. apply N. exact E.
        -- injection E as _ E. exists p. exact E.
Qed.

Lemma equals_spec (a : Accessibility.Attribute) (s : string) :
  Accessibility.equals a s = true <-> a = Some s.
Proof.
  destruct a as [t|]; cbn.
  - rewrite String.eqb_eq. split; [intros -> | intros [= ->]]; reflexivity.
  - split; discriminate.
Qed.

(** [isActive] holds exactly when the path ends with the [href] of the
    link (with the string ["null"] for a link without [href]), or the link
    is to ["index.html"] and the path ends with a slash.  So the test of
    the path ["/"] adds nothing to the test of the final slash; a link with
    an empty [href] is active on every page; a link is active on every
    page whose path only ends like its [href]; and the link to
    ["index.html"] is active on every path that ends with a slash. *)
Theorem isActive_is_a_suffix_test :
  forall (currentPath : string) (href : Accessibility.Attribute),
    (Accessibility.isActive currentPath href = true <->
     (exists p, currentPath = (p ++ Accessibility.to_string href)%string) \/
     (href = Some "index.html"%string /\
      exists p, currentPath = (p ++ "/")%string)) /\
    Accessibility.isActive currentPath href
    = (Accessibility.endsWith currentPath (Accessibility.to_string href)
       || (Accessibility.endsWith currentPath "/"
           && Accessibility.equals href "index.html"))%bool /\
    Accessibility.isActive currentPath (Some EmptyString) = true /\
    (forall before h,
       Accessibility.isActive (before ++ h) (Some h) = true) /\
    (forall directory,
       Accessibility.isActive (directory ++ "/") (Some "index.html"%string) = true).
Proof.
  intros currentPath href.
  assert (Spec : Accessibility.isActive currentPath href = true <->
     (exists p, currentPath = (p ++ Accessibility.to_string href)%string) \/
     (href = Some "index.html"%string /\
      exists p, currentPath = (p ++ "/")%string)).
  { unfold Accessibility.isActive.
    rewrite !orb_true_iff, !andb_true_iff, !endsWith_spec, !equals_spec,
      String.eqb_eq.
    split.
    - intros [[H|[-> H]]|[H K]]; auto.
      right. split; [exact H|]. exists EmptyString. reflexivity.
    - intros [H|[H K]]; auto. }
  split; [exact Spec|]. split; [|split; [|split]].
  - unfold Accessibility.isActive.
    destruct (Accessibility.endsWith currentPath (Accessibility.to_string href));
      [reflexivity|].
    cbn [orb]. destruct (String.eqb_spec currentPath "/") as [->|N];
      [|reflexivity].
    cbn. destruct (Accessibility.equals href "index.html"); reflexivity.
  - unfold Accessibility.isActive.
    assert (E : Accessibility.endsWith currentPath EmptyString = true).
    { apply endsWith_spec. exists currentPath.
      clear. induction currentPath as [|a s IH]; cbn; [reflexivity|].
      rewrite <- IH. reflexivity. }
    cbn [Accessibility.to_string]. rewrite E. reflexivity.
  - intros before h. unfold Accessibility.isActive.
    assert (E : Accessibility.endsWith (before ++ h) h = true)
      by (apply endsWith_spec; exists before; reflexivity).
    cbn [Accessibility.to_string]. rewrite E. reflexivity.
  - intro directory. unfold Accessibility.isActive.
    assert (E : Accessibility.endsWith (directory ++ "/") "/" = true)
      by (apply endsWith_spec; exists directory; reflexivity).
    rewrite E. cbn. rewrite orb_true_r. reflexivity.
Qed.

Lemma contains_spec (classes : list string) (c : string) :
  Accessibility.contains classes c = true <-> In c classes.
Proof.
  unfold Accessibility.contains. destruct (in_dec string_dec c classes);
    split; auto; discriminate.
Qed.

Lemma contains_false (classes : list string) (c : string) :
  Accessibility.contains classes c = false <-> ~ In c classes.
Proof.
  unfold Accessibility.contains. destruct (in_dec string_dec c classes);
    split; auto; try discriminate. contradiction.
Qed.

Lemma add_spec (classes : list string) (c c' : string) :
  In c' (Accessibility.add classes c) <-> c' = c \/ In c' classes.
Proof.
  unfold Accessibility.add.
  destruct (Accessibility.contains classes c) eqn:E.
  - apply contains_spec in E. split; [auto | intros [->|H]; auto].
  - rewrite in_app_iff. cbn. split; [intros [H|[H|[]]] | intros [H|H]]; auto.
Qed.

Lemma remove_spec (classes : list string) (c c' : string) :
  In c' (Accessibility.remove classes c) <-> c' <> c /\ In c' classes.
Proof.
  unfold Accessibility.remove. split.
  - intro H. apply in_remove in H. tauto.
  - intros [N H]. apply in_in_remove; assumption.
Qed.

Lemma add_twice (classes : list string) (c : string) :
  Accessibility.add (Accessibility.add classes c) c = Accessibility.add classes c.
Proof.
  unfold Accessibility.add at 1.
  assert (E : Accessibility.contains (Accessibility.add classes c) c = true)
    by (apply contains_spec, add_spec; auto).
  rewrite E. reflexivity.
Qed.

Lemma remove_classes_twice (classes : list string) (c : string) :
  Accessibility.remove (Accessibility.remove classes c) c
  = Accessibility.remove classes c.
Proof. unfold Accessibility.remove. apply notin_remove, remove_In. Qed.

Lemma setActiveLink_twice (currentPath : string) (link : Accessibility.Link) :
  Accessibility.setActiveLink currentPath
    (Accessibility.setActiveLink currentPath link)
  = Accessibility.setActiveLink currentPath link.
Proof.
  unfold Accessibility.setActiveLink.
  destruct (Accessibility.isActive currentPath (Accessibility.href link)) eqn:E;
    cbn [Accessibility.href Accessibility.classList]; rewrite E.
  - rewrite add_twice. reflexivity.
  - rewrite remove_classes_twice. reflexivity.
Qed.

(** [setActiveNavigation()] keeps the links, their order and their [href];
    after it a link has the class [active] exactly when it is active for
    the path, and then [aria-current] is ["page"], else it has no
    [aria-current]; the other classes of a link are as they were; any
    number of links can be active at once; and a second call on the same
    path changes nothing. *)
Theorem setActiveNavigation_marks_active_links :
  forall (currentPath : string) (navLinks : list Accessibility.Link),
    let marked := Accessibility.setActiveNavigation currentPath navLinks in
    Forall2
      (fun link link' =>
         let active := Accessibility.isActive currentPath (Accessibility.href link) in
         Accessibility.href link' = Accessibility.href link /\
         (In "active"%string (Accessibility.classList link') <-> active = true) /\
         Accessibility.ariaCurrent link'
         = (if active then Some "page"%string else None) /\
         (forall c, c <> "active"%string ->
            (In c (Accessibility.classList link') <->
             In c (Accessibility.classList link))))
      navLinks marked /\
    Accessibility.setActiveNavigation currentPath marked = marked.
Proof.
  intros currentPath navLinks marked. unfold marked. split.
  - induction navLinks as [|link rest IH]; cbn; constructor; [|exact IH].
    unfold Accessibility.setActiveLink.
    destruct (Accessibility.isActive currentPath (Accessibility.href link));
      cbn [Accessibility.href Accessibility.classList Accessibility.ariaCurrent].
    + split; [reflexivity|]. split; [|split; [reflexivity|]].
      * rewrite add_spec. split; auto.
      * intros c N. rewrite add_spec. tauto.
    + split; [reflexivity|]. split; [|split; [reflexivity|]].
      * rewrite remove_spec. split; [intros [N _]; contradiction | discriminate].
      * intros c N. rewrite remove_spec. tauto.
  - unfold Accessibility.setActiveNavigation. rewrite map_map.
    apply map_ext. intro link. apply setActiveLink_twice.
Qed.

(** ** The mobile navigation *)

Lemma contains_toggle (classes : list string) (c : string) :
  Accessibility.contains (Accessibility.toggle classes c) c
  = negb (Accessibility.contains classes c).
Proof.
  unfold Accessibility.toggle.
  destruct (Accessibility.contains classes c) eqn:E; cbn [negb].
  - apply contains_false. rewrite remove_spec. tauto.
  - apply contains_spec. rewrite in_app_iff. cbn. auto.
Qed.

(** When the button and the navigation agree, a click on the button opens
    a closed navigation and closes an open one, leaves them in agreement,
    and announces what it did; and the keys leave them in agreement too.
    On any menu, Escape closes an open navigation, sets [aria-expanded] to
    ["false"], gives the focus to the button and announces it, and does
    nothing to a closed one; another key does nothing. *)
Theorem mobile_nav_stays_in_sync :
  forall (m : Accessibility.Menu),
    let opened := Accessibility.contains (Accessibility.navClasses m) "is-open" in
    (in_sync m ->
     let m' := Accessibility.onToggleClick m in
     in_sync m' /\
     Accessibility.contains (Accessibility.navClasses m') "is-open" = negb opened /\
     Accessibility.toggleFocused m' = Accessibility.toggleFocused m /\
     Accessibility.announcer m'
     = Accessibility.announcePageChange
         (if opened then "Navigation menu closed" else "Navigation menu opened")
         (Accessibility.announcer m)) /\
    (forall key,
       let m' := Accessibility.onDocumentKeydown key m in
       (in_sync m -> in_sync m') /\
       (key = "Escape"%string ->
        Accessibility.contains (Accessibility.navClasses m') "is-open" = false) /\
       (key = "Escape"%string -> opened = true ->
        Accessibility.ariaExpanded m' = Some "false"%string /\
        Accessibility.toggleFocused m' = true /\
        in_sync m' /\
        Accessibility.announcer m'
        = Accessibility.announcePageChange "Navigation menu closed"
            (Accessibility.announcer m)) /\
       (key <> "Escape"%string \/ opened = false -> m' = m)).
Proof.
  intros m opened. split.
  - intros S m'. unfold m', Accessibility.onToggleClick, in_sync in *.
    cbn [Accessibility.ariaExpanded Accessibility.navClasses
         Accessibility.toggleFocused Accessibility.announcer].
    rewrite contains_toggle. fold opened. rewrite S. fold opened.
    destruct opened; cbn; auto.
  - intros key m'. unfold m', Accessibility.onDocumentKeydown.
    fold opened. destruct (String.eqb_spec key "Escape") as [->|N].
    + destruct opened eqn:O; cbn [andb].
      * assert (C : Accessibility.contains
                      (Accessibility.remove (Accessibility.navClasses m) "is-open")
                      "is-open" = false).
        { apply contains_false. rewrite remove_spec. tauto. }
        unfold in_sync.
        cbn [Accessibility.ariaExpanded Accessibility.navClasses
             Accessibility.toggleFocused Accessibility.announcer
             Accessibility.equals].
        rewrite C. cbn. repeat split; auto.
        intros [K|K]; [contradiction | discriminate].
      * repeat split; auto; try discriminate.
    + cbn [andb]. repeat split; auto; contradiction.
Qed.

(** ** The live region *)

Lemma last_cons {A : Type} (l : list A) (a d : A) : last (a :: l) d = last l a.
Proof.
  revert a d. induction l as [|b l IH]; intros a d; [reflexivity|].
  change (last (a :: b :: l) d) with (last (b :: l) d).
  rewrite (IH b d), (IH b a). reflexivity.
Qed.

Lemma eventual_announce (message : string) (a : Accessibility.Announcer) :
  eventual (Accessibility.announcePageChange message a) = Some message.
Proof.
  unfold eventual, Accessibility.announcePageChange. cbn.
  destruct (Accessibility.timeouts a) as [|t rest]; cbn [app]; [reflexivity|].
  f_equal. rewrite <- (last_cons (rest ++ [message]) t t), app_comm_cons.
  apply last_last.
Qed.

Lemma eventual_runTimeout (a : Accessibility.Announcer) :
  eventual (Accessibility.runTimeout a) = eventual a.
Proof.
  unfold eventual, Accessibility.runTimeout.
  destruct (Accessibility.timeouts a) as [|t [|u rest]] eqn:E;
    cbn [Accessibility.timeouts Accessibility.textContent].
  - rewrite E. reflexivity.
  - reflexivity.
  - rewrite (last_cons rest u t). reflexivity.
Qed.

Lemma settle_spec (a : Accessibility.Announcer) :
  Accessibility.textContent (settle a) = eventual a /\
  Accessibility.timeouts (settle a) = [].
Proof.
  unfold settle. remember (length (Accessibility.timeouts a)) as n eqn:Hn.
  revert a Hn. induction n as [|n IH]; intros a Hn.
  - cbn. destruct (Accessibility.timeouts a) eqn:E; [|discriminate].
    unfold eventual. rewrite E. auto.
  - rewrite Nat.iter_succ_r, <- (eventual_runTimeout a). apply IH.
    unfold Accessibility.runTimeout.
    destruct (Accessibility.timeouts a) as [|t rest]; [discriminate|].
    cbn in *. lia.
Qed.

(** However calls of [announcePageChange] and runs of their timeouts
    interleave, once no timeout is pending the live region shows the
    message of the last call: an earlier message never overwrites a later
    one.  Right after a call, the region is empty, so that a message
    announced twice is set anew. *)
Theorem last_announcement_wins :
  forall (before after : list AnnouncerEvent) (message : string)
         (a : Accessibility.Announcer),
    Forall (fun e => e = Timeout) after ->
    let a' := announcer_run (before ++ Announce message :: after) a in
    Accessibility.textContent (settle a') = Some message /\
    Accessibility.timeouts (settle a') = [] /\
    Accessibility.textContent
      (announcer_run (before ++ [Announce message]) a) = Some EmptyString.
Proof.
  intros before after message a Hafter a'.
  assert (E : eventual a' = Some message).
  { unfold a', announcer_run. rewrite fold_left_app. cbn [fold_left announcer_step].
    set (b := Accessibility.announcePageChange message _).
    assert (Eb : eventual b = Some message) by apply eventual_announce.
    clearbody b. revert b Eb.
    induction Hafter as [|e rest -> _ IH]; intros b Eb; cbn; [exact Eb|].
    apply IH. rewrite eventual_runTimeout. exact Eb. }
  destruct (settle_spec a') as [T P]. split; [congruence|]. split; [exact P|].
  unfold announcer_run. rewrite fold_left_app. reflexivity.
Qed.

(** ** The focus trap *)

Lemma js_index_In {A : Type} (l : list A) (i : Z) (a : A) :
  js_index l i = Some a -> In a l.
Proof.
  unfold js_index. destruct (i <? 0)%Z; [discriminate|]. apply nth_error_In.
Qed.

Lemma activeIs_spec (active : option Element) (b : Element) :
  Accessibility.activeIs active (Some b) = true <-> active = Some b.
Proof.
  unfold Accessibility.activeIs. destruct active as [a|].
  - rewrite Nat.eqb_eq. split; [intros ->; reflexivity | congruence].
  - split; discriminate.
Qed.

Lemma lastFocusable_last (first : Element) (rest : list Element) :
  Accessibility.lastFocusable (first :: rest) = Some (last rest first).
Proof.
  unfold Accessibility.lastFocusable, js_index.
  destruct (Z.ltb_spec (Z.of_nat (length (first :: rest)) - 1) 0) as [H|_];
    [cbn [length] in H; lia|].
  replace (Z.to_nat (Z.of_nat (length (first :: rest)) - 1))
    with (length rest) by (cbn [length]; lia).
  revert first. induction rest as [|b rest IH]; intro first; [reflexivity|].
  cbn [length nth_error]. rewrite IH, (last_cons rest b first). reflexivity.
Qed.

(** [handleKeydown] of a focus trap only ever moves the focus to an element
    of the trap, and in two cases only: on Tab from the last element, to
    the first, and on Shift+Tab from the first element, to the last.  It
    leaves every other key, and Tab anywhere else, to the browser; and in a
    trap without a focusable element neither it nor [activate()] moves the
    focus. *)
Theorem focus_trap_wraps_inside :
  forall (focusableElements : list Element) (active : option Element)
         (e : Accessibility.KeyboardEvent),
    (forall x,
       Accessibility.handleKeydown focusableElements active e = Some x ->
       In x focusableElements /\ Accessibility.key e = "Tab"%string) /\
    (forall first rest,
       focusableElements = first :: rest ->
       (forall x,
          Accessibility.handleKeydown focusableElements active e = Some x <->
          Accessibility.key e = "Tab"%string /\
          ((Accessibility.shiftKey e = false /\
            active = Some (last rest first) /\ x = first) \/
           (Accessibility.shiftKey e = true /\
            active = Some first /\ x = last rest first))) /\
       (Accessibility.key e <> "Tab"%string \/
        (Accessibility.shiftKey e = false /\ active <> Some (last rest first)) \/
        (Accessibility.shiftKey e = true /\ active <> Some first) ->
        Accessibility.handleKeydown focusableElements active e = None) /\
       Accessibility.activate focusableElements = Some first) /\
    (focusableElements = [] ->
     Accessibility.handleKeydown focusableElements active e = None /\
     Accessibility.activate focusableElements = None).
Proof.
  intros l active e. split; [|split].
  - intros x H. unfold Accessibility.handleKeydown in H.
    destruct (String.eqb_spec (Accessibility.key e) "Tab") as [K|K];
      [|discriminate].
    cbn [negb] in H. split; [|exact K].
    destruct (Accessibility.shiftKey e).
    + destruct (Accessibility.activeIs _ _); [|discriminate].
      eapply js_index_In; eauto.
    + destruct (Accessibility.activeIs _ _); [|discriminate].
      eapply js_index_In; eauto.
  - intros first rest ->.
    assert (F : Accessibility.firstFocusable (first :: rest) = Some first)
      by reflexivity.
    pose proof (lastFocusable_last first rest) as L.
    pose proof (activeIs_spec active first) as A1.
    pose proof (activeIs_spec active (last rest first)) as A2.
    unfold Accessibility.handleKeydown, Accessibility.activate.
    rewrite F, L.
    destruct (String.eqb_spec (Accessibility.key e) "Tab") as [K|K];
      cbn [negb].
    + destruct (Accessibility.shiftKey e) eqn:S.
      * destruct (Accessibility.activeIs active (Some first)) eqn:E.
        -- pose proof (proj1 A1 eq_refl) as E'. split; [|split; [|reflexivity]].
           ++ intro x. split.
              ** intro H. injection H as <-. auto 10.
              ** intros (_ & [(C & _) | (_ & _ & ->)]);
                   [discriminate | reflexivity].
           ++ intros [N | [(C & _) | (_ & N)]];
                [contradiction | discriminate | contradiction].
        -- assert (N : active <> Some first)
             by (intro C; apply A1 in C; discriminate).
           split; [|split; [|reflexivity]].
           ++ intro x. split; [discriminate|].
              intros (_ & [(C & _) | (_ & C & _)]);
                [discriminate | contradiction].
           ++ reflexivity.
      * destruct (Accessibility.activeIs active (Some (last rest first))) eqn:E.
        -- pose proof (proj1 A2 eq_refl) as E'. split; [|split; [|reflexivity]].
           ++ intro x. split.
              ** intro H. injection H as <-. auto 10.
              ** intros (_ & [(_ & _ & ->) | (C & _)]);
                   [reflexivity | discriminate].
           ++ intros [N | [(_ & N) | (C & _)]];
                [contradiction | contradiction | discriminate].
        -- assert (N : active <> Some (last rest first))
             by (intro C; apply A2 in C; discriminate).
           split; [|split; [|reflexivity]].
           ++ intro x. split; [discriminate|].
              intros (_ & [(_ & C & _) | (C & _)]);
                [contradiction | discriminate].
           ++ reflexivity.
    + split; [|split; reflexivity].
      intro x. split; [discriminate|]. intros (C & _). contradiction.
  - intros ->. unfold Accessibility.handleKeydown, Accessibility.activate,
      Accessibility.firstFocusable, Accessibility.lastFocusable,
      Accessibility.activeIs. cbn.
    destruct (negb _); [auto|].
    destruct (Accessibility.shiftKey e); destruct active; auto.
Qed.

(** ** The external links *)

Lemma hasWarning_after_append (l : Accessibility.ExternalLink) (r t : Accessibility.Attribute) :
  Accessibility.hasWarning
    (Accessibility.mkExternalLink r t
       (Accessibility.inside l ++ [["sr-only"%string]])) = true.
Proof.
  unfold Accessibility.hasWarning. cbn. rewrite existsb_app. cbn.
  rewrite orb_true_r. reflexivity.
Qed.

Lemma secureLink_twice (link : Accessibility.ExternalLink) :
  Accessibility.secureLink (Accessibility.secureLink link)
  = Accessibility.secureLink link.
Proof.
  unfold Accessibility.secureLink.
  cbn [Accessibility.rel Accessibility.target Accessibility.inside].
  destruct (Accessibility.equals (Accessibility.target link) "_blank") eqn:T.
  - destruct (Accessibility.hasWarning
                (Accessibility.mkExternalLink _ _ (Accessibility.inside link)))
      eqn:W; cbn [negb Accessibility.rel Accessibility.target Accessibility.inside];
      rewrite T.
    + rewrite W. reflexivity.
    + rewrite hasWarning_after_append. reflexivity.
  - cbn [Accessibility.rel Accessibility.target Accessibility.inside].
    rewrite T. reflexivity.
Qed.

(** [initExternalLinks()] gives every link it is run on the [rel]
    ["noopener noreferrer"] and leaves its [target]; a link that opens in a
    new tab has a warning for screen readers afterwards, appended last when
    there was none, and every other link keeps what is inside it; so a link
    gains at most one element, and a second run changes nothing. *)
Theorem initExternalLinks_warns_once :
  forall (links : list Accessibility.ExternalLink),
    let secured := Accessibility.initExternalLinks links in
    Forall2
      (fun link link' =>
         Accessibility.rel link' = Some "noopener noreferrer"%string /\
         Accessibility.target link' = Accessibility.target link /\
         (Accessibility.target link = Some "_blank"%string ->
          Accessibility.hasWarning link' = true) /\
         (Accessibility.inside link' = Accessibility.inside link \/
          (Accessibility.target link = Some "_blank"%string /\
           Accessibility.hasWarning link = false /\
           Accessibility.inside link'
           = Accessibility.inside link ++ [["sr-only"%string]])))
      links secured /\
    Accessibility.initExternalLinks secured = secured.
Proof.
  intros links secured. unfold secured. split.
  - induction links as [|link rest IH]; cbn; constructor; [|exact IH].
    unfold Accessibility.secureLink.
    cbn [Accessibility.rel Accessibility.target Accessibility.inside].
    destruct (Accessibility.equals (Accessibility.target link) "_blank") eqn:T.
    + apply equals_spec in T.
      change (Accessibility.hasWarning
                (Accessibility.mkExternalLink (Some "noopener noreferrer"%string)
                   (Accessibility.target link) (Accessibility.inside link)))
        with (Accessibility.hasWarning link).
      destruct (Accessibility.hasWarning link) eqn:W;
        cbn [negb Accessibility.rel Accessibility.target Accessibility.inside].
      * repeat split; auto.
      * split; [reflexivity|]. split; [reflexivity|].
        split; [intros _; apply hasWarning_after_append|]. right. auto.
    + cbn [Accessibility.rel Accessibility.target Accessibility.inside].
      split; [reflexivity|]. split; [reflexivity|]. split; [|auto].
      intro E. apply equals_spec in E. congruence.
  - unfold Accessibility.initExternalLinks. rewrite map_map.
    apply map_ext. intro link. apply secureLink_twice.
Qed.

(** ** The context after construction *)









(** ** The further properties at concrete inputs *)



(** The festive session on [page0], destroyed after one frame. *)
Lemma destroy_stops_animation_witness :
  webgl (page world0) = true /\ shaders_compile (page world0) /\
  stopped Festive.new Festive.loop [16] [32; 48] world0.
Proof.
  split; [reflexivity|]. split; [intro type; reflexivity|].
  destruct (destroy_stops_animation world0 [16] [32; 48] eq_refl
              (fun type => eq_refl)) as (_ & F & _).
  exact F.
Defined.

(** An update 100 ms after the last spawn attempt. *)
Lemma lastSpawnTime_never_moves_back_witness :
  100 - lastSpawnTime (fresh Dot) <= spawnInterval Festive.CONFIG /\
  Festive.updateDots 100 (fresh Dot) world0
  = (set_dots (fresh Dot) (filter (live 100) (dots (fresh Dot))), world0).
Proof.
  assert (H : 100 - lastSpawnTime (fresh Dot) <= spawnInterval Festive.CONFIG)
    by (cbn; lra).
  split; [exact H|].
  destruct (lastSpawnTime_never_moves_back 100 world0) as (_ & F & _).
  destruct (F (fresh Dot)) as (_ & _ & K). exact (K H).
Defined.

(** [spawnDot()] on the empty festive collection. *)
Lemma spawnDot_appends_well_formed_witness :
  unit_randoms world0 /\
  (length (dots (fresh Dot)) < maxDots Festive.CONFIG)%nat /\
  exists d, Festive.spawnDot (fresh Dot) world0
            = (push (fresh Dot) d, after_reads 5 1 world0).
Proof.
  assert (H : (length (dots (fresh Dot)) < maxDots Festive.CONFIG)%nat)
    by (cbn; lia).
  split; [exact unit_randoms_world0|]. split; [exact H|].
  destruct (spawnDot_appends_well_formed world0 unit_randoms_world0) as (_ & F & _).
  destruct (F (fresh Dot) H) as (d & E & _). exists d. exact E.
Defined.

(** [prePopulateDots()] of the triangles on the empty collection. *)
Lemma prePopulateDots_well_formed_witness :
  unit_randoms world0 /\
  exists created,
    Triangle.prePopulateDots (fresh Triangle.Dot) world0
    = (set_dots (fresh Triangle.Dot) created, after_reads 63 1 world0) /\
    length created = 7%nat.
Proof.
  split; [exact unit_randoms_world0|].
  destruct (prePopulateDots_well_formed world0 unit_randoms_world0) as (_ & T).
  destruct (T (fresh Triangle.Dot)) as (created & E & L & _).
  exists created. split; [exact E | exact L].
Defined.

(** The first festive update, 16 ms after the constructor. *)
Lemma first_update_keeps_prepopulated_witness :
  webgl (page world0) = true /\ shaders_compile (page world0) /\
  unit_randoms world0 /\
  10016 - clock world0 (nclock world0) < 0.2 * minLifetime Festive.CONFIG /\
  length (dots (fst (Festive.new world0))) = 6%nat.
Proof.
  assert (H : 10016 - clock world0 (nclock world0)
              < 0.2 * minLifetime Festive.CONFIG) by (cbn; lra).
  split; [reflexivity|]. split; [intro type; reflexivity|].
  split; [exact unit_randoms_world0|]. split; [exact H|].
  destruct (first_update_keeps_prepopulated world0 10016 eq_refl
              (fun type => eq_refl) unit_randoms_world0) as (F & _).
  exact (proj2 (F H)).
Defined.

(** The baseline alpha of a dot of lifetime 3000 at age 1500. *)
Lemma baseline_calculateAlpha_range_witness :
  0 < lifetime festive_dot /\
  0 < 1500 - birthTime festive_dot < lifetime festive_dot /\
  0 < Baseline.calculateAlpha festive_dot 1500.
Proof.
  assert (HL : 0 < lifetime festive_dot) by (cbn; lra).
  assert (HA : 0 < 1500 - birthTime festive_dot < lifetime festive_dot)
    by (cbn; lra).
  split; [exact HL|]. split; [exact HA|].
  destruct (baseline_calculateAlpha_range festive_dot 1500 HL) as (_ & P & _).
  exact (P HA).
Defined.

(** An update at the time the clock shows. *)
Lemma spawned_dots_start_transparent_witness :
  unit_randoms world0 /\
  clock_within (minLifetime Festive.CONFIG) 10000 world0 /\
  appends (fun d => Festive.calculateAlpha d 10000 <= 0)
    (filter (live 10000) (dots (fresh Dot)))
    (dots (fst (Festive.updateDots 10000 (fresh Dot) world0))).
Proof.
  assert (C : clock_within (minLifetime Festive.CONFIG) 10000 world0)
    by (intros i _; cbn; lra).
  split; [exact unit_randoms_world0|]. split; [exact C|].
  destruct (spawned_dots_start_transparent 10000 world0 unit_randoms_world0)
    as (_ & F & _).
  exact (F C (fresh Dot)).
Defined.


(** A click on the button of a closed menu. *)
Lemma mobile_nav_stays_in_sync_witness :
  in_sync closed_menu /\ in_sync (Accessibility.onToggleClick closed_menu).
Proof.
  assert (S : in_sync closed_menu) by reflexivity.
  split; [exact S|].
  destruct (mobile_nav_stays_in_sync closed_menu) as (C & _).
  exact (proj1 (C S)).
Defined.

(** Two announcements, a timeout between them and one after. *)
Lemma last_announcement_wins_witness :
  Forall (fun e => e = Timeout) [Timeout] /\
  Accessibility.textContent
    (settle (announcer_run
               ([Announce "first"; Timeout] ++ Announce "second" :: [Timeout])
               (Accessibility.mkAnnouncer None [])))
  = Some "second"%string.
Proof.
  assert (H : Forall (fun e => e = Timeout) [Timeout])
    by (constructor; [reflexivity | constructor]).
  split; [exact H|].
  exact (proj1 (last_announcement_wins [Announce "first"; Timeout] [Timeout]
                  "second" (Accessibility.mkAnnouncer None []) H)).
Defined.

(** Tab on the second of three focusable elements is left to the browser,
    and Tab on the last one moves the focus to the first. *)
Lemma focus_trap_wraps_inside_witness :
  Accessibility.handleKeydown [1; 2; 3]%nat (Some 2%nat)
    (Accessibility.mkKeyboardEvent "Tab" false) = None /\
  Accessibility.handleKeydown [1; 2; 3]%nat (Some 3%nat)
    (Accessibility.mkKeyboardEvent "Tab" false) = Some 1%nat.
Proof.
  split.
  - destruct (focus_trap_wraps_inside [1; 2; 3]%nat (Some 2%nat)
                (Accessibility.mkKeyboardEvent "Tab" false)) as (_ & W & _).
    destruct (W 1%nat [2; 3]%nat eq_refl) as (_ & N & _).
    apply N. right. left. split; [reflexivity | discriminate].
  - destruct (focus_trap_wraps_inside [1; 2; 3]%nat (Some 3%nat)
                (Accessibility.mkKeyboardEvent "Tab" false)) as (_ & W & _).
    destruct (W 1%nat [2; 3]%nat eq_refl) as (T & _).
    apply T. split; [reflexivity|]. left. auto.
Defined.

(** ** The dots of a session *)

Lemma Forall_filter {A : Type} (P : A -> Prop) (f : A -> bool) (l : list A) :
  Forall P l -> Forall P (filter f l).
Proof.
  intro H. apply Forall_forall. intros a Ha. apply filter_In in Ha.
  rewrite Forall_forall in H. apply H, Ha.
Qed.

Lemma well_formed_triangle_steady (d : Triangle.Dot) :
  well_formed_triangle d -> steady_triangle d.
Proof. unfold well_formed_triangle, steady_triangle. tauto. Qed.

Lemma rotate_steady (d : Triangle.Dot) :
  steady_triangle d -> steady_triangle (Triangle.rotate d).
Proof. unfold steady_triangle, Triangle.rotate. cbn. tauto. Qed.

Lemma for_loop_sound {D : Type} (good : D -> Prop)
    (body : Instance D -> M (Instance D)) (n : nat) :
  (forall s w, sound good s w -> sound good (fst (body s w)) (snd (body s w))) ->
  forall s w, sound good s w ->
    sound good (fst (for_loop n body s w)) (snd (for_loop n body s w)).
Proof. intros H s w. apply (for_loop_inv (sound good)), H. Qed.

Lemma baseline_spawnDot_sound (this : Instance Dot) (w : World) :
  sound (well_formed_dot Baseline.CONFIG) this w ->
  sound (well_formed_dot Baseline.CONFIG)
    (fst (Baseline.spawnDot this w)) (snd (Baseline.spawnDot this w)).
Proof.
  intros [U F].
  destruct (Nat.leb_spec (maxDots Baseline.CONFIG) (length (dots this))) as [Hf|Hr].
  - unfold Baseline.spawnDot. apply Nat.leb_le in Hf. rewrite Hf. split; assumption.
  - destruct (baseline_spawnDot_pushes this w U Hr) as (d & E & G & _).
    rewrite E. split; [intro i; apply U|].
    cbn. apply Forall_app. auto.
Qed.

Lemma festive_spawnDot_sound (this : Instance Dot) (w : World) :
  sound (well_formed_dot Festive.CONFIG) this w ->
  sound (well_formed_dot Festive.CONFIG)
    (fst (Festive.spawnDot this w)) (snd (Festive.spawnDot this w)).
Proof.
  intros [U F].
  destruct (Nat.leb_spec (maxDots Festive.CONFIG) (length (dots this))) as [Hf|Hr].
  - unfold Festive.spawnDot. apply Nat.leb_le in Hf. rewrite Hf. split; assumption.
  - destruct (festive_spawnDot_pushes this w U Hr) as (d & E & G & _).
    rewrite E. split; [intro i; apply U|].
    cbn. apply Forall_app. auto.
Qed.

Lemma triangle_spawnDot_sound (this : Instance Triangle.Dot) (w : World) :
  sound steady_triangle this w ->
  sound steady_triangle
    (fst (Triangle.spawnDot this w)) (snd (Triangle.spawnDot this w)).
Proof.
  intros [U F].
  destruct (Nat.leb_spec (maxDots Triangle.CONFIG) (length (dots this))) as [Hf|Hr].
  - unfold Triangle.spawnDot. apply Nat.leb_le in Hf. rewrite Hf. split; assumption.
  - destruct (triangle_spawnDot_pushes this w U Hr) as (d & E & G & _).
    rewrite E. split; [intro i; apply U|].
    cbn. apply Forall_app. auto using well_formed_triangle_steady.
Qed.

Lemma sound_random_read {D : Type} (good : D -> Prop) (this : Instance D)
    (w : World) :
  sound good this w ->
  sound good this (mkWorld (randoms w) (S (nrandom w)) (clock w) (nclock w) (page w)).
Proof. intros [U F]. split; [intro i; apply U | exact F]. Qed.

Lemma festive_spawnAttempt_sound (this : Instance Dot) (w : World) :
  sound (well_formed_dot Festive.CONFIG) this w ->
  sound (well_formed_dot Festive.CONFIG)
    (fst (Festive.spawnAttempt this w)) (snd (Festive.spawnAttempt this w)).
Proof.
  intro S. apply sound_random_read in S. unfold Festive.spawnAttempt. run.
  destruct (ltb _ 0.85); [apply festive_spawnDot_sound, S | exact S].
Qed.

Lemma triangle_spawnAttempt_sound (this : Instance Triangle.Dot) (w : World) :
  sound steady_triangle this w ->
  sound steady_triangle
    (fst (Triangle.spawnAttempt this w)) (snd (Triangle.spawnAttempt this w)).
Proof.
  intro S. apply sound_random_read in S. unfold Triangle.spawnAttempt. run.
  destruct (ltb _ 0.85); [apply triangle_spawnDot_sound, S | exact S].
Qed.

Lemma baseline_updateDots_sound (now : R) (this : Instance Dot) (w : World) :
  sound (well_formed_dot Baseline.CONFIG) this w ->
  sound (well_formed_dot Baseline.CONFIG)
    (fst (Baseline.updateDots now this w)) (snd (Baseline.updateDots now this w)).
Proof.
  intros [U F]. unfold Baseline.updateDots. rewrite baseline_filter_is_filter.
  assert (S1 : sound (well_formed_dot Baseline.CONFIG)
                 (set_dots this (filter (live now) (dots this))) w)
    by (split; [exact U | apply Forall_filter, F]).
  set (this1 := set_dots this _) in *.
  destruct (gtb _ _); [|exact S1].
  run. apply sound_random_read in S1. destruct (ltb _ 0.7).
  - apply baseline_spawnDot_sound in S1.
    destruct (Baseline.spawnDot this1 _) as [this2 w2]. exact S1.
  - exact S1.
Qed.

Lemma festive_updateDots_sound (now : R) (this : Instance Dot) (w : World) :
  sound (well_formed_dot Festive.CONFIG) this w ->
  sound (well_formed_dot Festive.CONFIG)
    (fst (Festive.updateDots now this w)) (snd (Festive.updateDots now this w)).
Proof.
  intros [U F]. unfold Festive.updateDots. rewrite festive_filter_is_filter.
  assert (S1 : sound (well_formed_dot Festive.CONFIG)
                 (set_dots this (filter (live now) (dots this))) w)
    by (split; [exact U | apply Forall_filter, F]).
  set (this1 := set_dots this _) in *.
  destruct (gtb _ _); [|exact S1].
  run.
  match goal with |- context [for_loop ?n ?b ?t ?v] =>
    pose proof (for_loop_sound _ b n festive_spawnAttempt_sound t v S1) as S2;
    destruct (for_loop n b t v) as [this2 w2] end.
  exact S2.
Qed.

Lemma triangle_updateDots_sound (now : R) (this : Instance Triangle.Dot) (w : World) :
  sound steady_triangle this w ->
  sound steady_triangle
    (fst (Triangle.updateDots now this w)) (snd (Triangle.updateDots now this w)).
Proof.
  intros [U F]. unfold Triangle.updateDots. rewrite triangle_filter_is_filter.
  assert (S1 : sound steady_triangle
                 (set_dots this
                    (map Triangle.rotate (filter (live_triangle now) (dots this)))) w).
  { split; [exact U|]. cbn. apply Forall_map.
    eapply Forall_impl; [|apply Forall_filter, F]. apply rotate_steady. }
  set (this1 := set_dots this _) in *.
  destruct (gtb _ _); [|exact S1].
  run.
  match goal with |- context [for_loop ?n ?b ?t ?v] =>
    pose proof (for_loop_sound _ b n triangle_spawnAttempt_sound t v S1) as S2;
    destruct (for_loop n b t v) as [this2 w2] end.
  exact S2.
Qed.

Lemma fire_sound {D : Type} (good : D -> Prop)
    (upd : R -> Instance D -> M (Instance D)) (t : R) :
  (forall s v, sound good s v -> sound good (fst (upd t s v)) (snd (upd t s v))) ->
  forall this w, sound good this w ->
    sound good (fst (fire (loop_of upd) t this w))
      (snd (fire (loop_of upd) t this w)).
Proof.
  intros Hupd this w S. unfold fire. run.
  destruct (animationId this) as [h|]; [|exact S].
  destruct (in_dec Nat.eq_dec h (frames (page w))) as [Hin|Hout]; [|exact S].
  unfold cancelAnimationFrame, loop_of. run.
  match goal with |- context [upd t this ?v] =>
    assert (S1 : sound good this v) by (split; [intro i; apply S | apply S]);
    apply Hupd in S1; destruct (upd t this v) as [this1 w1] end.
  unfold requestAnimationFrame. run.
  split; [intro i; apply S1 | apply S1].
Qed.

Lemma run_frames_sound {D : Type} (good : D -> Prop)
    (upd : R -> Instance D -> M (Instance D)) (times : list R) :
  (forall t s v, sound good s v -> sound good (fst (upd t s v)) (snd (upd t s v))) ->
  forall this w, sound good this w ->
    sound good (fst (run_frames (loop_of upd) times this w))
      (snd (run_frames (loop_of upd) times this w)).
Proof.
  intro Hupd. induction times as [|t rest IH]; intros this w S; cbn [run_frames].
  - exact S.
  - unfold bind. pose proof (fire_sound good upd t (Hupd t) this w S) as S1.
    destruct (fire (loop_of upd) t this w) as [this1 w1]. apply IH, S1.
Qed.

Lemma baseline_new_sound (w : World) :
  unit_randoms w ->
  sound (well_formed_dot Baseline.CONFIG) (fst (Baseline.new w)) (snd (Baseline.new w)).
Proof.
  intro U. split; [|rewrite baseline_new_dots; constructor].
  unfold Baseline.new, Baseline.init. run_page.
  destruct (webgl (page w)); run_page; [|intro i; apply U].
  shader_cases; [destruct (links (page w)); run_page|..]; intro i; apply U.
Qed.

Lemma festive_new_sound (w : World) :
  unit_randoms w ->
  sound (well_formed_dot Festive.CONFIG) (fst (Festive.new w)) (snd (Festive.new w)).
Proof.
  intro U. unfold Festive.new, Festive.init. run_page.
  destruct (webgl (page w)); run_page;
    [|split; [intro i; apply U | constructor]].
  shader_cases; [|split; [intro i; apply U | constructor] ..].
  destruct (links (page w)); run_page.
  all: match goal with |- context [Festive.prePopulateDots ?t ?v] =>
         destruct (festive_prePopulateDots_pushes t v U) as (l & E & L & G);
         rewrite E end.
  all: run_page; split; [intro i; apply U|].
  all: cbn; eapply Forall_impl; [|exact G]; cbn; tauto.
Qed.

Lemma triangle_new_sound (w : World) :
  unit_randoms w ->
  sound steady_triangle (fst (Triangle.new w)) (snd (Triangle.new w)).
Proof.
  intro U. unfold Triangle.new, Triangle.init. run_page.
  destruct (webgl (page w)); run_page;
    [|split; [intro i; apply U | constructor]].
  shader_cases; [|split; [intro i; apply U | constructor] ..].
  destruct (links (page w)); run_page.
  all: match goal with |- context [Triangle.prePopulateDots ?t ?v] =>
         destruct (triangle_prePopulateDots_pushes t v U) as (l & E & L & G);
         rewrite E end.
  all: run_page; split; [intro i; apply U|].
  all: cbn; eapply Forall_impl; [|exact G]; cbn.
  all: intros d (W & _); apply well_formed_triangle_steady, W.
Qed.

Lemma session_sound {D : Type} (good : D -> Prop) (new : M (Instance D))
    (upd : R -> Instance D -> M (Instance D)) (times : list R) (now : R)
    (w : World) :
  (forall t s v, sound good s v -> sound good (fst (upd t s v)) (snd (upd t s v))) ->
  sound good (fst (new w)) (snd (new w)) ->
  Forall good (dots (fst (session new (loop_of upd) upd times now w))).
Proof.
  intros Hupd Hnew. unfold session. run.
  destruct (new w) as [this0 w0]. cbn [fst snd] in Hnew.
  pose proof (run_frames_sound good upd times Hupd this0 w0 Hnew) as S1.
  destruct (run_frames (loop_of upd) times this0 w0) as [this1 w1].
  apply (Hupd now) in S1. apply S1.
Qed.

(** With random numbers of [[0, 1)], every dot of the collection, at any
    time of a session, is well formed: its color is one of the palette, its
    lifetime and its size are from the minimum to the maximum of the
    configuration, its position is in the square (beside the center band
    for a triangle, whose rotation speed is at most 0.001 radian per
    millisecond). *)
Theorem session_dots_well_formed :
  forall (w : World) (times : list R) (now : R),
    unit_randoms w ->
    Forall (well_formed_dot Baseline.CONFIG)
      (dots (fst (session Baseline.new Baseline.loop Baseline.updateDots
                    times now w))) /\
    Forall (well_formed_dot Festive.CONFIG)
      (dots (fst (session Festive.new Festive.loop Festive.updateDots
                    times now w))) /\
    Forall steady_triangle
      (dots (fst (session Triangle.new Triangle.loop Triangle.updateDots
                    times now w))).
Proof.
  intros w times now U. split; [|split].
  - apply (session_sound _ Baseline.new Baseline.updateDots).
    + intros; apply baseline_updateDots_sound; assumption.
    + apply baseline_new_sound, U.
  - apply (session_sound _ Festive.new Festive.updateDots).
    + intros; apply festive_updateDots_sound; assumption.
    + apply festive_new_sound, U.
  - apply (session_sound _ Triangle.new Triangle.updateDots).
    + intros; apply triangle_updateDots_sound; assumption.
    + apply triangle_new_sound, U.
Qed.

(** The festive session after two frames, with the random numbers all 1/2. *)
Lemma session_dots_well_formed_witness :
  unit_randoms world0 /\
  Forall (well_formed_dot Festive.CONFIG)
    (dots (fst (session Festive.new Festive.loop Festive.updateDots
                  [10016; 10032] 10048 world0))).
Proof.
  split; [exact unit_randoms_world0|].
  destruct (session_dots_well_formed world0 [10016; 10032] 10048
              unit_randoms_world0) as (_ & F & _).
  exact F.
Defined.

(** ** What a frame draws *)














(** The link to ["courses.html"] on the path ["/courses.html"]. *)
Lemma isActive_is_a_suffix_test_witness :
  (exists p, "/courses.html"%string
             = (p ++ Accessibility.to_string (Some "courses.html"%string))%string) /\
  Accessibility.isActive "/courses.html" (Some "courses.html"%string) = true.
Proof.
  assert (H : exists p, "/courses.html"%string
                = (p ++ Accessibility.to_string (Some "courses.html"%string))%string)
    by (exists "/"%string; reflexivity).
  split; [exact H|].
  destruct (isActive_is_a_suffix_test "/courses.html" (Some "courses.html"%string))
    as (S & _).
  exact (proj2 S (or_introl H)).
Defined.

(** Two links on the path ["/"]: the one to ["index.html"] becomes active and
    keeps its class [nav-link]. *)
Lemma setActiveNavigation_marks_active_links_witness :
  "nav-link"%string <> "active"%string /\
  Forall2
    (fun link link' =>
       In "nav-link"%string (Accessibility.classList link') <->
       In "nav-link"%string (Accessibility.classList link))
    [Accessibility.mkLink (Some "index.html"%string) None ["nav-link"%string];
     Accessibility.mkLink (Some "courses.html"%string) None ["nav-link"%string]]
    (Accessibility.setActiveNavigation "/"
       [Accessibility.mkLink (Some "index.html"%string) None ["nav-link"%string];
        Accessibility.mkLink (Some "courses.html"%string) None ["nav-link"%string]]).
Proof.
  assert (N : "nav-link"%string <> "active"%string) by discriminate.
  split; [exact N|].
  eapply Forall2_impl;
    [|exact (proj1 (setActiveNavigation_marks_active_links "/"
         [Accessibility.mkLink (Some "index.html"%string) None ["nav-link"%string];
          Accessibility.mkLink (Some "courses.html"%string) None ["nav-link"%string]]))].
  intros link link' (_ & _ & _ & K). exact (K "nav-link"%string N).
Defined.

(** A link that opens in a new tab, without a warning yet. *)
Lemma initExternalLinks_warns_once_witness :
  Accessibility.initExternalLinks
    (Accessibility.initExternalLinks
       [Accessibility.mkExternalLink None (Some "_blank"%string) []])
  = Accessibility.initExternalLinks
      [Accessibility.mkExternalLink None (Some "_blank"%string) []].
Proof.
  exact (proj2 (initExternalLinks_warns_once
                  [Accessibility.mkExternalLink None (Some "_blank"%string) []])).
Defined.
